(** * cmdg: verification of the interactive session engine

    A shallow embedding of the Go sources ([cmdg.go], the file navigator and
    the thread viewer) together with the properties the specification states
    about them.  Go [int] values are modelled in [Z], byte strings as
    [string], the mark map [map[string]bool] as [gmap string bool], and the
    goroutine/channel fan-out of [parallel] as an interleaving transition
    system. *)

From Stdlib Require Import ZArith NArith Ascii String List Bool Lia.
From Stdlib Require Import DecimalString Permutation Sorted.
From stdpp Require Import gmap strings list.

Local Open Scope Z_scope.

(** * Part I: the program *)

(** ** The fetch coordinator: [type parallel], [add], [run]

    [add] creates an unbuffered channel, starts a goroutine running the
    worker with the sending end, and appends the receiving end to [chans].
    A worker performs its remote call and then either sends one closure on
    its channel (blocking until [run] receives it) or, in [list], calls
    [log.Fatalf], which exits the process.  [run] receives from the
    channels in slice order and calls each closure as it is received. *)
Module Parallel.
Section Coordinator.
(** The state the apply closures mutate (captured variables, globals). *)
Context {St : Type}.

(** What a worker does once its remote call has returned. *)
Inductive outcome :=
| Send (f : St -> St)
| Fatal (msg : string).

(** A goroutine started by [add]: still in its remote call, blocked in
    [ch <- f], or done. *)
Inductive worker :=
| Running (o : outcome)
| Blocked (f : St -> St)
| Finished.

(** [pc] is the index of the [for _, ch := range p.chans] loop of [run].
    [completed] and [applied] are history variables: the order in which
    remote calls returned, and the order in which closures were called. *)
Record config := Config {
  chans : list worker;
  pc : nat;
  shared : St;
  completed : list nat;
  applied : list nat
}.

Inductive proc :=
| Live (c : config)
| Exited (msg : string).

Inductive step : proc -> proc -> Prop :=
| step_complete c j f :
    chans c !! j = Some (Running (Send f)) ->
    step (Live c)
         (Live (Config (<[j := Blocked f]> (chans c)) (pc c) (shared c)
                       (completed c ++ [j]) (applied c)))
| step_fatal c j msg :
    chans c !! j = Some (Running (Fatal msg)) ->
    step (Live c) (Exited msg)
| step_recv c f :
    chans c !! pc c = Some (Blocked f) ->
    step (Live c)
         (Live (Config (<[pc c := Finished]> (chans c)) (S (pc c))
                       (f (shared c)) (completed c) (applied c ++ [pc c]))).

Inductive steps : proc -> proc -> Prop :=
| steps_refl p : steps p p
| steps_step p q r : step p q -> steps q r -> steps p r.

(** [run] has returned to its caller: the range loop is exhausted. *)
Definition returned (c : config) : Prop := pc c = length (chans c).

(** The configuration after one [add] per worker, before anything ran. *)
Definition init (ws : list outcome) (st : St) : config :=
  Config (map Running ws) 0 st [] [].

(** The closure a worker hands back ([id] for one that exits instead). *)
Definition action (o : outcome) : St -> St :=
  match o with
  | Send f => f
  | Fatal _ => fun s => s
  end.

Definition applyAll (ws : list outcome) (st : St) : St :=
  fold_left (fun s o => action o s) ws st.

Definition isSend (o : outcome) : bool :=
  match o with Send _ => true | Fatal _ => false end.

(** Functional summary of [add]* ; [run]: [None] when the process exits
    inside a worker, otherwise the state after all closures ran. *)
Definition run (ws : list outcome) (st : St) : option St :=
  if forallb isSend ws then Some (applyAll ws st) else None.

(** Invariant of every configuration reachable from [init ws st]. *)
Record inv (ws : list outcome) (st : St) (c : config) : Prop := Inv {
  inv_len : length (chans c) = length ws;
  inv_pc : (pc c <= length ws)%nat;
  inv_applied : applied c = seq 0 (pc c);
  inv_shared : shared c = applyAll (take (pc c) ws) st;
  inv_chans : forall j w, chans c !! j = Some w ->
    match w with
    | Running o => (pc c <= j)%nat /\ ws !! j = Some o
    | Blocked f => (pc c <= j)%nat /\ ws !! j = Some (Send f)
    | Finished => (j < pc c)%nat /\ exists f, ws !! j = Some (Send f)
    end
}.

(** The ordering the specification words describe: closures are called
    in the order in which the workers' results became available. *)
Definition appliesInCompletionOrder (ws : list outcome) (st : St) : Prop :=
  forall c, steps (Live (init ws st)) (Live c) -> returned c ->
            applied c = completed c.

End Coordinator.
End Parallel.

(** ** Results of fallible calls and of handlers *)

(** Go's [(x, err)] pair of a remote or library call. *)
Inductive res (A : Type) : Type :=
| OK (a : A)
| Err (e : string).
Arguments OK {A} a.
Arguments Err {A} e.

(** How a piece of the program ends: it returns, the process exits in
    [log.Fatalf], or a run-time panic (nil dereference, index or slice
    out of range) unwinds the session. *)
Inductive exec (A : Type) : Type :=
| Done (a : A)
| Exit
| Panic.
Arguments Done {A} a.
Arguments Exit {A}.
Arguments Panic {A}.

Definition bind {A B : Type} (x : exec A) (k : A -> exec B) : exec B :=
  match x with
  | Done a => k a
  | Exit => Exit
  | Panic => Panic
  end.

Notation "'let*' x ':=' e 'in' k" := (bind e (fun x => k))
  (at level 10, x name, e at level 100, k at level 200).

(** [fmt]'s [%d] for an [int]. *)
Definition itoa (z : Z) : string :=
  DecimalString.NilZero.string_of_int (Z.to_int z).

(** [l[i]] for a Go slice and an [int] index. *)
Definition index {A : Type} (l : list A) (i : Z) : exec A :=
  if (0 <=? i) && (i <? Z.of_nat (length l))
  then match l !! Z.to_nat i with Some a => Done a | None => Panic end
  else Panic.

(** ** [gmail.Message] and the remote service *)

Record Header := mkHeader { Name : string; Value : string }.

Record MessagePart := mkPart { MimeType : string; PartData : string }.

Record MessagePayload := mkPayload {
  Headers : list Header;
  BodyData : string;
  Parts : list MessagePart
}.

Record Message := mkMessage {
  Id : string;
  LabelIds : list string;
  Snippet : string;
  Payload : MessagePayload
}.

(** The calls of [*gmail.Service] the list model makes: the inbox listing
    and the per-id fetch, each with its answer. *)
Record Service := mkService {
  MessagesList : res (list Message);
  MessagesGet : string -> res Message
}.

Fixpoint findHeader (hs : list Header) (header : string) : string :=
  match hs with
  | [] => ""
  | h :: hs' => if String.eqb (Name h) header then Value h
                else findHeader hs' header
  end.

Definition getHeader (m : Message) (header : string) : string :=
  findHeader (Headers (Payload m)) header.

Fixpoint hasLabel (labels : list string) (needle : string) : bool :=
  match labels with
  | [] => false
  | l :: labels' => if String.eqb l needle then true
                    else hasLabel labels' needle
  end.

(** ** The list model: [type messageList] *)
Module ListModel.

Record messageList := mkList {
  current : Z;
  marked : gmap string bool;
  showDetails : bool;
  messages : list Message
}.

(** [m[id]] on a [map[string]bool]: absent keys read as [false]. *)
Definition isMarked (m : gmap string bool) (id : string) : bool :=
  default false (m !! id).

Definition len (l : messageList) : Z := Z.of_nat (length (messages l)).

(** The increment is guarded by [current < len-1], the decrement by
    [current > 0]: neither can leave the range of [int]. *)
Definition next (l : messageList) : messageList :=
  if current l <? len l - 1
  then mkList (current l + 1) (marked l) (showDetails l) (messages l)
  else l.

Definition prev (l : messageList) : messageList :=
  if 0 <? current l
  then mkList (current l - 1) (marked l) (showDetails l) (messages l)
  else l.

Definition fixCurrent (l : messageList) : messageList :=
  let c1 := if len l <=? current l then len l - 1 else current l in
  let c2 := if c1 <? 0 then 0 else c1 in
  mkList c2 (marked l) (showDetails l) (messages l).

Definition details (l : messageList) : messageList :=
  mkList (current l) (marked l) (negb (showDetails l)) (messages l).

(** The closure a [list] worker sends: [ret.messages = append(...)]. *)
Definition appendMessage (mres : Message) (ret : messageList) : messageList :=
  mkList (current ret) (marked ret) (showDetails ret) (messages ret ++ [mres]).

Definition listWorker (g : Service) (m2 : Message)
  : @Parallel.outcome messageList :=
  match MessagesGet g (Id m2) with
  | Err e => Parallel.Fatal ("Get message: " +:+ e)
  | OK mres => Parallel.Send (appendMessage mres)
  end.

(** Go: [func list(g *gmail.Service) *messageList]. *)
Definition listMessages (g : Service) : exec messageList :=
  match MessagesList g with
  | Err e => Exit
  | OK msgs =>
      match Parallel.run (map (listWorker g) msgs) (mkList 0 ∅ false []) with
      | Some ret => Done ret
      | None => Exit
      end
  end.

(** [old] is the global [messages], [None] for the nil pointer it holds
    before the first refresh.  Both maps that can reach [marked] come from
    [make], so the [marked != nil] branch is always taken. *)
Definition refreshMessages (g : Service) (old : option messageList)
  : exec messageList :=
  let current0 := match old with Some m => current m | None => 0 end in
  let marked0 := match old with Some m => marked m | None => ∅ end in
  let* new := listMessages g in
  Done (fixCurrent (mkList current0 marked0 (showDetails new) (messages new))).

(** The assignment [marked[id] = !marked[id]]. *)
Definition toggleMark (id : string) (m : gmap string bool)
  : gmap string bool :=
  <[id := negb (isMarked m id)]> m.

(** [messagesCmdMark]: toggle the mark of the row under the cursor, then
    move to the next row. *)
Definition messagesCmdMark (l : messageList) : exec messageList :=
  let* m := index (messages l) (current l) in
  Done (next (mkList (current l) (toggleMark (Id m) (marked l))
                     (showDetails l) (messages l))).

(** The list operations driven from the keyboard: refresh, cursor down,
    cursor up, and the mark key. *)
Inductive listOp :=
| OpRefresh (g : Service)
| OpNext
| OpPrev
| OpMark.

(** One handler applied to the global [messages] pointer. *)
Definition runOp (st : option messageList) (op : listOp)
  : exec (option messageList) :=
  match op with
  | OpRefresh g => let* l := refreshMessages g st in Done (Some l)
  | OpNext => match st with Some l => Done (Some (next l)) | None => Panic end
  | OpPrev => match st with Some l => Done (Some (prev l)) | None => Panic end
  | OpMark =>
      match st with
      | Some l => let* l' := messagesCmdMark l in Done (Some l')
      | None => Panic
      end
  end.

Fixpoint runOps (st : option messageList) (ops : list listOp)
  : exec (option messageList) :=
  match ops with
  | [] => Done st
  | op :: ops' => let* st' := runOp st op in runOps st' ops'
  end.

(** The cursor invariant of the specification. *)
Definition cursorOk (l : messageList) : Prop :=
  match messages l with
  | [] => current l = 0
  | _ :: _ => 0 <= current l < len l
  end.

(** The global [messages] is nil or satisfies the cursor invariant. *)
Definition stateOk (st : option messageList) : Prop :=
  match st with Some l => cursorOk l | None => True end.

End ListModel.

(** ** Batch apply over the marked rows: [messagesCmdApply] *)
Module Batch.
Import ListModel.
Section Apply.

(** [fmt]'s [%q] verb ([strconv.Quote]). *)
Variable quote : string -> string.

(** What the worker closures write: the locals [errstr], [ok], [fail] of
    [messagesCmdApply] and the global [messages.marked]. *)
Record vars := mkVars {
  errstr : string;
  ok : Z;
  fail : Z;
  gmarked : gmap string bool
}.

Definition onFail (verb id err : string) (v : vars) : vars :=
  mkVars ("Error " +:+ verb +:+ " " +:+ quote id +:+ ": " +:+ err)
         (ok v) (fail v + 1) (gmarked v).

Definition onOk (id : string) (v : vars) : vars :=
  mkVars (errstr v) (ok v + 1) (fail v) (delete id (gmarked v)).

(** [f] is the remote mutation: [None] for a nil error. *)
Definition worker (verb : string) (f : string -> option string)
  (id : string) : @Parallel.outcome vars :=
  match f id with
  | Some err => Parallel.Send (onFail verb id err)
  | None => Parallel.Send (onOk id)
  end.

(** The ids the range loop hands to [p.add]: the marked rows, in order. *)
Definition batch (l : messageList) : list string :=
  List.filter (isMarked (marked l)) (map Id (messages l)).

Definition workers (verb : string) (f : string -> option string)
  (l : messageList) : list (@Parallel.outcome vars) :=
  map (worker verb f) (batch l).

Definition failedStatus (verb : string) (v : vars) : string :=
  itoa (ok v) +:+ " " +:+ verb +:+ " OK, " +:+ itoa (fail v) +:+
  " failed: " +:+ errstr v.

Definition okStatus (verb : string) (v : vars) : string :=
  "OK, " +:+ verb +:+ " " +:+ itoa (ok v) +:+ " messages".

(** [messagesCmdApply] up to the status report: the counters, the status
    line and the list model with its marks updated. *)
Definition applyMarked (verb : string) (f : string -> option string)
  (l : messageList) : option (vars * string * messageList) :=
  match Parallel.run (workers verb f l) (mkVars "" 0 0 (marked l)) with
  | None => None
  | Some v =>
      if 0 <? fail v
      then Some (v, failedStatus verb v,
                 mkList (current l) (gmarked v) (showDetails l) (messages l))
      else Some (v, okStatus verb v,
                 mkList (current l) ∅ (showDetails l) (messages l))
  end.

Definition messagesCmdApply (g : Service) (verb : string)
  (f : string -> option string) (st : option messageList)
  : exec (string * messageList) :=
  match st with
  | None => Panic
  | Some l =>
      match applyMarked verb f l with
      | None => Exit
      | Some (_, status, l') =>
          let* l'' := refreshMessages g (Some l') in Done (status, l'')
      end
  end.

Definition failing (f : string -> option string) (id : string) : bool :=
  match f id with Some _ => true | None => false end.

(** Number of marked rows whose remote call fails. *)
Definition failures (f : string -> option string) (l : messageList) : Z :=
  Z.of_nat (length (List.filter (failing f) (batch l))).

End Apply.
End Batch.

(** ** Payload encoding: [mimeEncode], [mimeDecode]

    [encoding/base64]'s [StdEncoding] is the standard alphabet with [=]
    padding; its [EncodeToString] and [DecodeString] are embedded here
    with the byte operations the library uses.  A decoding error is
    [None]: both callers of [mimeDecode] drop the data when [err != nil]. *)
Module Mime.

(** [strings.Replace(s, old, new, -1)] for one-byte [old] and [new]. *)
Fixpoint replaceByte (old new : ascii) (s : string) : string :=
  match s with
  | EmptyString => EmptyString
  | String c r =>
      String (if Ascii.eqb c old then new else c) (replaceByte old new r)
  end.

Definition encodeStd : string :=
  "ABCDEFGHIJKLMNOPQRSTUVWXYZabcdefghijklmnopqrstuvwxyz0123456789+/".

Definition padChar : ascii := "="%char.

(** [enc.encode[v]] *)
Definition encodeChar (v : N) : ascii :=
  match String.get (N.to_nat v) encodeStd with
  | Some c => c
  | None => padChar
  end.

Fixpoint indexOf (c : ascii) (s : string) (i : N) : N :=
  match s with
  | EmptyString => 255
  | String c' r => if Ascii.eqb c c' then i else indexOf c r (i + 1)
  end%N.

(** [enc.decodeMap[c]]: [0xFF] outside the alphabet. *)
Definition decodeMap (c : ascii) : N := indexOf c encodeStd 0.

(** [x << k] and [x >> k] on a [byte]. *)
Definition shl8 (x k : N) : N := N.land (N.shiftl x k) 255.
Definition shr8 (x k : N) : N := N.shiftr x k.

(** The four 6-bit groups of the encoder's [switch len(src)]. *)
Definition sextet0 (a : N) : N := shr8 a 2.
Definition sextet1 (a b : N) : N :=
  N.lor (N.land (shl8 a 4) 63) (shr8 b 4).
Definition sextet2 (b c : N) : N :=
  N.lor (N.land (shl8 b 2) 63) (shr8 c 6).
Definition sextet3 (c : N) : N := N.land c 63.

Fixpoint EncodeToString (src : string) : string :=
  match src with
  | EmptyString => EmptyString
  | String a EmptyString =>
      let a := N_of_ascii a in
      String (encodeChar (sextet0 a))
        (String (encodeChar (sextet1 a 0))
          (String padChar (String padChar EmptyString)))
  | String a (String b EmptyString) =>
      let a := N_of_ascii a in
      let b := N_of_ascii b in
      String (encodeChar (sextet0 a))
        (String (encodeChar (sextet1 a b))
          (String (encodeChar (sextet2 b 0))
            (String padChar EmptyString)))
  | String a (String b (String c rest)) =>
      let a := N_of_ascii a in
      let b := N_of_ascii b in
      let c := N_of_ascii c in
      String (encodeChar (sextet0 a))
        (String (encodeChar (sextet1 a b))
          (String (encodeChar (sextet2 b c))
            (String (encodeChar (sextet3 c)) (EncodeToString rest))))
  end.

(** The decoder's packing of 6-bit groups into bytes. *)
Definition octet0 (d0 d1 : N) : ascii :=
  ascii_of_N (N.lor (shl8 d0 2) (shr8 d1 4)).
Definition octet1 (d1 d2 : N) : ascii :=
  ascii_of_N (N.lor (shl8 d1 4) (shr8 d2 2)).
Definition octet2 (d2 d3 : N) : ascii :=
  ascii_of_N (N.lor (shl8 d2 6) d3).

Definition isEmpty (s : string) : bool :=
  match s with EmptyString => true | String _ _ => false end.

(** One pass of the decoder's outer loop over four input bytes; [atEnd]
    tells whether the input stops after them.  The result is the decoded
    bytes and the [end] flag (padding was seen). *)
Definition decodeQuantum (c0 c1 c2 c3 : ascii) (atEnd : bool)
  : option (string * bool) :=
  let d0 := decodeMap c0 in
  let d1 := decodeMap c1 in
  let d2 := decodeMap c2 in
  let d3 := decodeMap c3 in
  if (d0 =? 255)%N || (d1 =? 255)%N then None
  else if Ascii.eqb c2 padChar then
    if Ascii.eqb c3 padChar && atEnd
    then Some (String (octet0 d0 d1) EmptyString, true)
    else None
  else if (d2 =? 255)%N then None
  else if Ascii.eqb c3 padChar then
    if atEnd
    then Some (String (octet0 d0 d1) (String (octet1 d1 d2) EmptyString),
               true)
    else None
  else if (d3 =? 255)%N then None
  else Some (String (octet0 d0 d1)
              (String (octet1 d1 d2)
                (String (octet2 d2 d3) EmptyString)), false).

Fixpoint decode (src : string) : option string :=
  match src with
  | EmptyString => Some EmptyString
  | String c0 (String c1 (String c2 (String c3 rest))) =>
      match decodeQuantum c0 c1 c2 c3 (isEmpty rest) with
      | Some (out, true) => Some out
      | Some (out, false) =>
          match decode rest with
          | Some t => Some (out +:+ t)
          | None => None
          end
      | None => None
      end
  | _ => None
  end.

(** [strings.Map(removeNewlinesMapper, s)] *)
Fixpoint removeNewlines (s : string) : string :=
  match s with
  | EmptyString => EmptyString
  | String c r =>
      if Ascii.eqb c "013"%char || Ascii.eqb c "010"%char
      then removeNewlines r
      else String c (removeNewlines r)
  end.

Definition DecodeString (s : string) : option string :=
  decode (removeNewlines s).

Definition mimeDecode (s : string) : option string :=
  let s := replaceByte "-" "+" s in
  let s := replaceByte "_" "/" s in
  DecodeString s.

Definition mimeEncode (s : string) : string :=
  let s := EncodeToString s in
  let s := replaceByte "+" "-" s in
  let s := replaceByte "/" "_" s in
  s.

(** All 256 bytes, for exhaustive checks of the byte-level identities. *)
Definition allBytes : list ascii := map ascii_of_nat (seq 0 256).

Definition forall1 (P : ascii -> bool) : bool := forallb P allBytes.
Definition forall2 (P : ascii -> ascii -> bool) : bool :=
  forallb (fun a => forallb (P a) allBytes) allBytes.

(** Bytes untouched by the substitutions of [mimeEncode]/[mimeDecode] and
    by the decoder's newline stripping. *)
Definition plain (c : ascii) : bool :=
  negb (Ascii.eqb c "-" || Ascii.eqb c "_" ||
        Ascii.eqb c "013" || Ascii.eqb c "010").

(** A 6-bit group whose letter decodes back to it and is [plain]. *)
Definition good (v : N) : bool :=
  (decodeMap (encodeChar v) =? v)%N && negb (v =? 255)%N &&
  negb (Ascii.eqb (encodeChar v) padChar) && plain (encodeChar v).

(** The four substitutions of an encode followed by a decode, on one
    byte. *)
Definition substRoundtrip (c : ascii) : ascii :=
  let c := if Ascii.eqb c "+" then "-"%char else c in
  let c := if Ascii.eqb c "/" then "_"%char else c in
  let c := if Ascii.eqb c "-" then "+"%char else c in
  if Ascii.eqb c "_" then "/"%char else c.

Fixpoint allChars (P : ascii -> bool) (s : string) : bool :=
  match s with
  | EmptyString => true
  | String c r => P c && allChars P r
  end.

End Mime.

(** ** Editor bridge: [runEditorMode], [messagesCmdCompose] *)
Module Editor.

Definition nl : ascii := "010"%char.
Definition LF : string := String nl EmptyString.

(** [strings.SplitN(s, "\n\n", 2)]: [None] when the result has one
    element, otherwise the text before and after the first ["\n\n"]. *)
Fixpoint SplitN2 (s : string) : option (string * string) :=
  match s with
  | EmptyString => None
  | String c r =>
      match r with
      | String c' r' =>
          if Ascii.eqb c nl && Ascii.eqb c' nl then Some (EmptyString, r')
          else match SplitN2 r with
               | Some (h, b) => Some (String c h, b)
               | None => None
               end
      | EmptyString => None
      end
  end.

(** The class [\w] of [regexp]: [[0-9A-Za-z_]]. *)
Definition isWordChar (c : ascii) : bool :=
  let n := N_of_ascii c in
  ((48 <=? n) && (n <=? 57) || (65 <=? n) && (n <=? 90) ||
   (n =? 95) || (97 <=? n) && (n <=? 122))%N.

(** The longest run of word bytes at the start of [s], and what follows. *)
Fixpoint spanWord (s : string) : string * string :=
  match s with
  | EmptyString => (EmptyString, EmptyString)
  | String c r =>
      if isWordChar c
      then let (w, r') := spanWord r in (String c w, r')
      else (EmptyString, s)
  end.

Fixpoint stripPrefix (p s : string) : option string :=
  match p with
  | EmptyString => Some s
  | String a p' =>
      match s with
      | EmptyString => None
      | String b s' => if Ascii.eqb a b then stripPrefix p' s' else None
      end
  end.

(** The part [(\w+)(?:$|\n)] of [sendHeaderRE] matched at the start of
    [r]; the result is the capture.  The greedy [\w+] takes the whole run
    of word bytes: a shorter run is followed by a word byte, which is
    neither the end of the text nor a newline. *)
Definition matchTail (r : string) : option string :=
  let (w, r') := spanWord r in
  match w with
  | EmptyString => None
  | String _ _ =>
      match r' with
      | EmptyString => Some w
      | String c _ => if Ascii.eqb c nl then Some w else None
      end
  end.

(** The part [Mode: (\w+)(?:$|\n)] matched at the start of [s]. *)
Definition matchDirective (s : string) : option string :=
  match stripPrefix "Mode: " s with
  | None => None
  | Some r => matchTail r
  end.

(** Matches of [sendHeaderRE] that begin with the [\n] alternative, at the
    leftmost position of [s] that has one. *)
Fixpoint findFrom (s : string) : option string :=
  match s with
  | EmptyString => None
  | String c r =>
      match (if Ascii.eqb c nl then matchDirective r else None) with
      | Some w => Some w
      | None => findFrom r
      end
  end.

(** [sendHeaderRE.FindStringSubmatch(s)] for
    [(?:^|\n)Mode: (\w+)(?:$|\n)]: the capture of the leftmost match, or
    [None] for the nil slice.  Without the [m] flag [^] and [$] match only
    at the ends of the text. *)
Definition FindStringSubmatch (s : string) : option string :=
  match matchDirective s with
  | Some w => Some w
  | None => findFrom s
  end.

(** [strings.ToLower] on a string of word bytes. *)
Definition lowerByte (c : ascii) : ascii :=
  let n := N_of_ascii c in
  if ((65 <=? n) && (n <=? 90))%N then ascii_of_N (n + 32) else c.

Fixpoint ToLower (s : string) : string :=
  match s with
  | EmptyString => EmptyString
  | String c r => String (lowerByte c) (ToLower r)
  end.

Section Loop.
(** [fmt]'s [%q] verb. *)
Variable quote : string -> string.

(** What one pass of the loop body decides about the text [s] the editor
    returned: leave the loop with a mode, or go round again; with the new
    status line, if the pass writes one. *)
Inductive verdict :=
| Accept (mode : string) (status : option string)
| Retry (status : option string).

Definition validate (s : string) : verdict :=
  match SplitN2 s with
  | None => Retry (Some "Malformed email, reopening editor")
  | Some (header, _) =>
      match FindStringSubmatch header with
      | None => Retry (Some ("Sending mode not present in " +:+
                             quote header +:+ ", trying again"))
      | Some w =>
          let mode := ToLower w in
          if String.eqb mode "send" then Accept mode None
          else if String.eqb mode "draft" then Accept mode None
          else if String.eqb mode "abort"
               then Accept mode (Some "Sending aborted")
          else Retry None
      end
  end.

(** How [runEditorMode] stands after the scripted editor runs. *)
Inductive loopEnd :=
| Returned (mode s : string)
| Failed (err : string)
| Reopening (input : string).

Record loopRun := mkRun {
  seeds : list string;
  status : string;
  ending : loopEnd
}.

Definition newStatus (old : string) (upd : option string) : string :=
  match upd with Some s => s | None => old end.

(** [runEditorMode] against a scripted editor: the n-th element of
    [script] is what the n-th call of [runEditor] returns.  [seeds]
    records the argument of every call.  With the script used up the loop
    stands before its next call of [runEditor]. *)
Fixpoint runEditorMode (script : list (res string)) (input : string)
  (st : string) : loopRun :=
  match script with
  | [] => mkRun [] st (Reopening input)
  | Err e :: _ =>
      mkRun [input] ("Running editor failed: " +:+ e) (Failed e)
  | OK s :: script' =>
      match validate s with
      | Accept mode upd => mkRun [input] (newStatus st upd) (Returned mode s)
      | Retry upd =>
          let r := runEditorMode script' s (newStatus st upd) in
          mkRun (input :: seeds r) (status r) (ending r)
      end
  end.

(** Remote calls a handler issues. *)
Inductive remoteCall :=
| MessagesSend (raw : string).

(** [messagesCmdCompose]: [send] is the answer of the remote send call
    ([None] for a nil error).  The result is the remote calls made and
    the final status line, or [None] while the editor loop is still
    running. *)
Definition messagesCmdCompose (signature : string)
  (script : list (res string)) (send : option string)
  : option (list remoteCall * string) :=
  let input := "To: " +:+ LF +:+ "Subject: " +:+ LF +:+ "Mode: Send" +:+
               LF +:+ LF +:+ signature in
  let r := runEditorMode script input "Running editor" in
  match ending r with
  | Reopening _ => None
  | Failed err => Some ([], "Running editor: " +:+ err)
  | Returned mode s =>
      if String.eqb mode "send" then
        match send with
        | Some err => Some ([MessagesSend (Mime.mimeEncode s)],
                            "Error sending: " +:+ err)
        | None => Some ([MessagesSend (Mime.mimeEncode s)],
                        "Successfully sent")
        end
      else Some ([], status r)
  end.

End Loop.

(** [strings.Split(s, "\n")] *)
Fixpoint splitLines (s : string) : list string :=
  match s with
  | EmptyString => [EmptyString]
  | String c r =>
      if Ascii.eqb c nl then EmptyString :: splitLines r
      else match splitLines r with
           | l :: ls => String c l :: ls
           | [] => [String c EmptyString]
           end
  end.

(** The text before the first newline. *)
Definition firstLine (s : string) : string := hd EmptyString (splitLines s).

(** A non-empty line made of word bytes only. *)
Definition wordLine (l : string) : option string :=
  match l with
  | EmptyString => None
  | String _ _ => if Mime.allChars isWordChar l then Some l else None
  end.

(** The specification's reading of the header check: a line of the form
    [Mode: <word>] with a non-empty word of word bytes. *)
Definition directiveWord (line : string) : option string :=
  match stripPrefix "Mode: " line with
  | Some w => wordLine w
  | None => None
  end.

(** Whether what follows the word ends the line. *)
Definition endsLine (r : string) : bool :=
  match r with
  | EmptyString => true
  | String c _ => Ascii.eqb c nl
  end.

(** The word of the first directive line among [ls]. *)
Fixpoint firstDirective (ls : list string) : option string :=
  match ls with
  | [] => None
  | l :: ls' =>
      match directiveWord l with
      | Some w => Some w
      | None => firstDirective ls'
      end
  end.

Definition recognized (mode : string) : Prop :=
  mode = "send" \/ mode = "draft" \/ mode = "abort".

End Editor.

(** ** File navigator: [sortFiles], [dotDirs], [readDir] *)
Module FileNav.

(** The methods of [os.FileInfo] the navigator reads. *)
Record FileInfo := mkFileInfo {
  Name : string;
  Size : Z;
  Mode : N;
  ModTime : Z;
  IsDir : bool
}.

(** [sortFiles.Less], on the two elements it indexes. *)
Definition Less (a b : FileInfo) : bool :=
  if IsDir a && negb (IsDir b) then true
  else if negb (IsDir a) && IsDir b then false
  else String.ltb (Name a) (Name b).

(** [&dotDirs{name: name, fi: fi}] seen through [os.FileInfo]. *)
Definition dotDirs (name : string) (fi : FileInfo) : FileInfo :=
  mkFileInfo name (Size fi) (Mode fi) (ModTime fi) (IsDir fi).

(** What [sort.IsSorted] checks: no element is [Less] than its
    predecessor. *)
Definition notAfter (a b : FileInfo) : Prop := Less b a = false.

Section ReadDir.
(** The operating system and library calls [readDir] makes. *)
Variable os_Stat : string -> res FileInfo.
Variable ioutil_ReadDir : string -> res (list FileInfo).
Variable path_Join : string -> string -> string.
Variable sort_Sort : list FileInfo -> list FileInfo.

Definition readDir (d : string) : res (list FileInfo) :=
  match os_Stat (path_Join d ".") with
  | Err e => Err e
  | OK dot =>
      match os_Stat (path_Join d "..") with
      | Err e => Err e
      | OK dots =>
          match ioutil_ReadDir d with
          | Err e => Err e
          | OK files =>
              OK (dotDirs "." dot :: dotDirs ".." dots :: sort_Sort files)
          end
      end
  end.

End ReadDir.

(** Lexicographic order on names, as Go's [<=] on strings. *)
Definition nameLe (a b : FileInfo) : Prop :=
  String.leb (Name a) (Name b) = true.

(** A sorting procedure meeting the contract of [sort.Sort] with
    [sortFiles]: straight insertion. *)
Fixpoint insert (x : FileInfo) (l : list FileInfo) : list FileInfo :=
  match l with
  | [] => [x]
  | y :: l' => if Less y x then y :: insert x l' else x :: l
  end.

Fixpoint insertionSort (l : list FileInfo) : list FileInfo :=
  match l with
  | [] => []
  | x :: l' => insert x (insertionSort l')
  end.

End FileNav.

(** ** Detail viewer: [getBody], [openMessageDraw] and its handlers *)
Module Detail.
Import ListModel.

(** Go's [int] on the 64-bit targets: arithmetic wraps. *)
Definition wrap64 (z : Z) : Z := (z + 2 ^ 63) mod 2 ^ 64 - 2 ^ 63.

(** The padding [openMessageDraw] adds for the lines above the body. *)
Definition padding : Z := 10.

Section View.
(** [%v] of the error [mimeDecode] returned for a payload. *)
Variable decodeError : string -> string.

Fixpoint firstPlain (ps : list MessagePart) : string :=
  match ps with
  | [] => "TODO Unknown data"
  | p :: ps' =>
      if String.eqb (MimeType p) "text/plain" then
        match Mime.mimeDecode (PartData p) with
        | None => "TODO Content error: " +:+ decodeError (PartData p)
        | Some data => data
        end
      else firstPlain ps'
  end.

Definition getBody (m : Message) : string :=
  match Parts (Payload m) with
  | [] =>
      match Mime.mimeDecode (BodyData (Payload m)) with
      | None => "TODO Content error: " +:+ decodeError (BodyData (Payload m))
      | Some data => data
      end
  | _ :: _ => firstPlain (Parts (Payload m))
  end.

Definition bodyLines (m : Message) : list string :=
  Editor.splitLines (getBody m).

(** The two clamping statements of [openMessageDraw]. *)
Definition clampScroll (maxScroll scrollY : Z) : Z :=
  let s := if maxScroll <? scrollY then maxScroll else scrollY in
  if s <? 0 then 0 else s.

(** What one call of [openMessageDraw] leaves behind: the message shown,
    the value of [openMessageScrollY] it rendered with, and the body
    lines from that offset on. *)
Record drawn := mkDrawn {
  shown : Message;
  scrollY : Z;
  visible : list string
}.

(** [h] is the height [openMessageView.Size()] reports, [l] the global
    [messages], [scroll] the global [openMessageScrollY] on entry.  The
    index [messages.messages[messages.current]] and the slice
    [bodyLines[openMessageScrollY:]] panic when out of range. *)
Definition openMessageDraw (h : Z) (l : messageList) (scroll : Z)
  : exec drawn :=
  let* m := index (messages l) (current l) in
  let total := Z.of_nat (length (bodyLines m)) in
  let maxScroll := wrap64 (wrap64 (total - h) + padding) in
  let scroll' := clampScroll maxScroll scroll in
  if scroll' <=? total
  then Done (mkDrawn m scroll' (drop (Z.to_nat scroll') (bodyLines m)))
  else Panic.

(** The keys of the list and detail views that end in
    [openMessageDraw]. *)
Inductive viewCmd :=
| CmdOpen
| CmdPageDown
| CmdPageUp
| CmdScrollDown
| CmdScrollUp
| CmdNext
| CmdPrev
| CmdMark.

(** The session state these handlers read and write: the global
    [messages] and [openMessageScrollY]. *)
Record view := mkView {
  vlist : messageList;
  vscroll : Z
}.

(** One handler, run while the view is [h] lines high. *)
Definition runCmd (h : Z) (v : view) (c : viewCmd) : exec (view * drawn) :=
  let draw l scroll :=
    let* d := openMessageDraw h l scroll in
    Done (mkView l (scrollY d), d) in
  match c with
  | CmdOpen => draw (vlist v) 0
  | CmdPageDown => draw (vlist v) (wrap64 (vscroll v + h))
  | CmdPageUp => draw (vlist v) (wrap64 (vscroll v - h))
  | CmdScrollDown => draw (vlist v) (wrap64 (vscroll v + 2))
  | CmdScrollUp => draw (vlist v) (wrap64 (vscroll v - 2))
  | CmdNext => draw (next (vlist v)) 0
  | CmdPrev => draw (prev (vlist v)) 0
  | CmdMark =>
      let* m := index (messages (vlist v)) (current (vlist v)) in
      draw (next (mkList (current (vlist v))
                         (toggleMark (Id m) (marked (vlist v)))
                         (showDetails (vlist v)) (messages (vlist v)))) 0
  end.

(** A sequence of key presses, each with the view height at that time;
    the result is the state and the last rendering. *)
Fixpoint runCmds (v : view) (last : option drawn)
  (cs : list (viewCmd * Z)) : exec (view * option drawn) :=
  match cs with
  | [] => Done (v, last)
  | (c, h) :: cs' =>
      let* r := runCmd h v c in
      runCmds (fst r) (Some (snd r)) cs'
  end.

(** Heights and body lengths for which [total - h + padding] does not
    leave the range of [int]. *)
Definition noOverflow (h total : Z) : Prop :=
  - 2 ^ 61 <= h <= 2 ^ 61 /\ 0 <= total <= 2 ^ 61.

(** What a rendering satisfies, in terms of the height it was drawn at
    and the scroll value handed to [openMessageDraw]. *)
Definition drawnOk (h scroll0 : Z) (d : drawn) : Prop :=
  let total := Z.of_nat (length (bodyLines (shown d))) in
  (noOverflow h total ->
   0 <= scrollY d <= Z.max 0 (total - h + padding)) /\
  visible d = drop (Z.to_nat (scrollY d)) (bodyLines (shown d)) /\
  (scroll0 = 0 -> scrollY d = 0).

(** The keys that open an item. *)
Definition resets (c : viewCmd) : Prop :=
  c = CmdOpen \/ c = CmdNext \/ c = CmdPrev \/ c = CmdMark.

End View.

End Detail.

(** ** Row timestamps: [parseTime], [timestring] *)
Module TimeString.

(** A [time.Time]: the instant in nanoseconds since the Unix epoch and
    the offset, in seconds east of UTC, of the zone it is presented in. *)
Record Time := mkTime {
  unixNano : Z;
  zoneOffset : Z
}.

(** A [time.Duration] is an [int64] count of nanoseconds. *)
Definition Hour : Z := 3600 * 1000000000.
Definition minDuration : Z := - 2 ^ 63.
Definition maxDuration : Z := 2 ^ 63 - 1.

(** [t.Sub(u)], which saturates at the ends of [Duration]. *)
Definition Sub (t u : Time) : Z :=
  let d := unixNano t - unixNano u in
  if d <? minDuration then minDuration
  else if maxDuration <? d then maxDuration
  else d.

(** [time.Since(ts)] when the clock reads [now]. *)
Definition Since (now ts : Time) : Z := Sub now ts.

(** Seconds of the presentation zone's wall clock since 1970-01-01. *)
Definition wallSeconds (t : Time) : Z :=
  unixNano t / 1000000000 + zoneOffset t.

(** Proleptic Gregorian date of a day number (days since 1970-01-01). *)
Definition civil (days : Z) : Z * Z * Z :=
  let z := days + 719468 in
  let era := z / 146097 in
  let doe := z - era * 146097 in
  let yoe := (doe - doe / 1460 + doe / 36524 - doe / 146096) / 365 in
  let doy := doe - (365 * yoe + yoe / 4 - yoe / 100) in
  let mp := (5 * doy + 2) / 153 in
  let d := doy - (153 * mp + 2) / 5 + 1 in
  let m := if mp <? 10 then mp + 3 else mp - 9 in
  let y := yoe + era * 400 + (if m <=? 2 then 1 else 0) in
  (y, m, d).

Definition Date (t : Time) : Z * Z * Z := civil (wallSeconds t / 86400).
Definition Year (t : Time) : Z := fst (fst (Date t)).
Definition Month (t : Time) : Z := snd (fst (Date t)).
Definition Day (t : Time) : Z := snd (Date t).
Definition HourOf (t : Time) : Z := (wallSeconds t mod 86400) / 3600.
Definition MinuteOf (t : Time) : Z := (wallSeconds t mod 3600) / 60.

(** Decimal rendering padded with zeros to [width] digits. *)
Fixpoint zeros (n : nat) : string :=
  match n with
  | O => EmptyString
  | S n' => String "0" (zeros n')
  end.

Definition padInt (width : nat) (z : Z) : string :=
  let digits := itoa (Z.abs z) in
  let body := zeros (width - String.length digits) +:+ digits in
  if z <? 0 then String "-" body else body.

Definition monthAbbrev (m : Z) : string :=
  nth (Z.to_nat (m - 1))
      ["Jan"; "Feb"; "Mar"; "Apr"; "May"; "Jun";
       "Jul"; "Aug"; "Sep"; "Oct"; "Nov"; "Dec"] "".

(** [t.Format("2006")], [t.Format("Jan 02")], [t.Format("15:04")]. *)
Definition Format2006 (t : Time) : string := padInt 4 (Year t).
Definition FormatJan02 (t : Time) : string :=
  monthAbbrev (Month t) +:+ " " +:+ padInt 2 (Day t).
Definition Format1504 (t : Time) : string :=
  padInt 2 (HourOf t) +:+ ":" +:+ padInt 2 (MinuteOf t).

Definition layoutRFC1123ZShortDay : string :=
  "Mon, 2 Jan 2006 15:04:05 -0700".
Definition RFC1123Z : string := "Mon, 02 Jan 2006 15:04:05 -0700".

Section Parsing.
(** [time.Parse(layout, value)]. *)
Variable time_Parse : string -> string -> res Time.

(** The loop over the two layouts: the first that parses, otherwise the
    error of the last. *)
Definition parseTime (s : string) : res Time :=
  match time_Parse layoutRFC1123ZShortDay s with
  | OK t => OK t
  | Err _ => time_Parse RFC1123Z s
  end.

(** [now] is what [time.Now()] returns while the row is formatted. *)
Definition timestring (now : Time) (m : Message) : string :=
  match parseTime (getHeader m "Date") with
  | Err _ => "Unknown"
  | OK ts =>
      if 365 * 24 * Hour <? Since now ts then Format2006 ts
      else if negb (Day now =? Day ts) then FormatJan02 ts
      else Format1504 ts
  end.

End Parsing.

(** Day number of a proleptic Gregorian date. *)
Definition daysFromCivil (y m d : Z) : Z :=
  let y' := if m <=? 2 then y - 1 else y in
  let era := y' / 400 in
  let yoe := y' - era * 400 in
  let doy := (153 * (if 2 <? m then m - 3 else m + 9) + 2) / 5 + d - 1 in
  let doe := yoe * 365 + yoe / 4 - yoe / 100 + doy in
  era * 146097 + doe - 719468.

(** The instant with the given wall-clock reading in the zone [off]. *)
Definition clock (y m d hh mm ss off : Z) : Time :=
  mkTime ((daysFromCivil y m d * 86400 + hh * 3600 + mm * 60 + ss - off)
          * 1000000000) off.

End TimeString.

(** ** Sample data used to exercise the definitions *)
Module Sample.
Import ListModel.

Definition msg (id : string) : Message :=
  mkMessage id ["INBOX"] "" (mkPayload [] "" []).

(** [%q] on identifiers that need no escaping. *)
Definition quoteId (s : string) : string :=
  String (ascii_of_nat 34) (s +:+ String (ascii_of_nat 34) "").

(** Three rows, the first and the last marked, cursor on the second. *)
Definition inbox : messageList :=
  mkList 1 (<["a" := true]> (<["c" := true]> ∅)) false
         [msg "a"; msg "b"; msg "c"].

(** A remote mutation that fails for row [c] only. *)
Definition failOnC (id : string) : option string :=
  if String.eqb id "c" then Some "backend error" else None.

(** A run of the coordinator on the two marked rows in which the second
    worker's call returns first. *)
Definition inboxRun : @Parallel.config Batch.vars :=
  Parallel.Config [Parallel.Finished; Parallel.Finished] 2
    (Batch.onFail quoteId "archiving" "c" "backend error"
       (Batch.onOk "a" (Batch.mkVars "" 0 0 (marked inbox))))
    [1%nat; 0%nat] [0%nat; 1%nat].

(** A service whose listing has two rows and whose fetch of the second
    one fails. *)
Definition flaky : Service :=
  mkService (OK [msg "a"; msg "b"])
            (fun id => if String.eqb id "b" then Err "503" else OK (msg id)).

(** A service answering with the given rows. *)
Definition serving (msgs : list Message) : Service :=
  mkService (OK msgs) (fun id => OK (msg id)).

(** A directory holding the files [a.txt], [b.txt] and the directory [z],
    as [ioutil.ReadDir] lists it, and its neighbourhood. *)
Definition file (name : string) (dir : bool) : FileNav.FileInfo :=
  FileNav.mkFileInfo name 0 0 0 dir.

Definition statAny (p : string) : res FileNav.FileInfo :=
  OK (file p true).

Definition readDirHome (d : string) : res (list FileNav.FileInfo) :=
  OK [file "a.txt" false; file "b.txt" false; file "z" true].

Definition joinSlash (d e : string) : string := d +:+ "/" +:+ e.

(** A message whose body has [n] lines, and a list holding only it. *)
Fixpoint linesText (n : nat) : string :=
  match n with
  | O => "end"
  | S n' => "line" +:+ Editor.LF +:+ linesText n'
  end.

Definition letter (n : nat) : Message :=
  mkMessage "m1" ["INBOX"] ""
    (mkPayload [] (Mime.mimeEncode (linesText n)) []).

Definition oneLetter (n : nat) : ListModel.messageList :=
  ListModel.mkList 0 ∅ false [letter n].

Definition noError (s : string) : string := "illegal base64 data".

(** A message dated 15 March 2015, 10:00 UTC, the parser's answer for its
    [Date] header, and a clock reading one month later. *)
Definition marchDate : string := "Sun, 15 Mar 2015 10:00:00 +0000".

Definition marchLetter : Message :=
  mkMessage "m2" ["INBOX"] ""
    (mkPayload [mkHeader "From" "a@example.org"; mkHeader "Date" marchDate]
               "" []).

Definition parseMarch (layout value : string) : res TimeString.Time :=
  if String.eqb layout TimeString.RFC1123Z && String.eqb value marchDate
  then OK (TimeString.clock 2015 3 15 10 0 0 0)
  else Err "parsing time".

Definition aprilNoon : TimeString.Time := TimeString.clock 2015 4 15 12 0 0 0.

(** A line of eighty letters, some blanks and a last word. *)
Fixpoint letters (n : nat) : string :=
  match n with
  | O => EmptyString
  | S n' => String "x" (letters n')
  end.

Definition longWord : string := letters 80.
Definition longLine : string := longWord +:+ "   tail".

End Sample.

(** ** Executions of the coordinator, counted *)
Module Schedule.
Section Counting.
Context {St : Type}.

(** Moves a goroutine still has to make: finish its call and hand over
    its closure. *)
Definition weight (w : @Parallel.worker St) : nat :=
  match w with
  | Parallel.Running _ => 2
  | Parallel.Blocked _ => 1
  | Parallel.Finished => 0
  end.

Definition remaining (ws : list (@Parallel.worker St)) : nat :=
  list_sum (map weight ws).

(** Executions of a given number of steps. *)
Inductive nsteps : nat -> @Parallel.proc St -> @Parallel.proc St -> Prop :=
| nsteps_O p : nsteps O p p
| nsteps_S n p q r :
    Parallel.step p q -> nsteps n q r -> nsteps (S n) p r.

End Counting.
End Schedule.

(** ** Alphabets of the payload encoding *)
Module MimeAlphabet.

(** The bytes of the URL-safe alphabet and the padding byte. *)
Definition urlSafe (c : ascii) : bool :=
  let n := N_of_ascii c in
  ((48 <=? n) && (n <=? 57) || (65 <=? n) && (n <=? 90) ||
   (97 <=? n) && (n <=? 122) || (n =? 45) || (n =? 95) || (n =? 61))%N.

(** The two substitutions of [mimeEncode] on one byte. *)
Definition substEncode (c : ascii) : ascii :=
  let c := if Ascii.eqb c "+" then "-"%char else c in
  if Ascii.eqb c "/" then "_"%char else c.

(** The two substitutions of [mimeDecode] on one byte. *)
Definition substDecode (c : ascii) : ascii :=
  let c := if Ascii.eqb c "-" then "+"%char else c in
  if Ascii.eqb c "_" then "/"%char else c.

(** A 6-bit group whose letter, after [mimeEncode]'s substitutions, is
    URL-safe. *)
Definition safeSextet (v : N) : bool :=
  urlSafe (substEncode (Mime.encodeChar v)).

Definition isNewline (c : ascii) : bool :=
  Ascii.eqb c "013" || Ascii.eqb c "010".

End MimeAlphabet.

(** ** Exhaustive checks over small ranges of integers *)
Module Ranges.

(** [P] holds for all of 0, 1, ..., n-1. *)
Definition allBelow (n : nat) (P : Z -> bool) : bool :=
  forallb (fun k => P (Z.of_nat k)) (seq 0 n).

End Ranges.

(** ** The label table: [getLabels] *)
Module Labels.

(** The two fields of [gmail.Label] that are read. *)
Record Label := mkLabel { LabelName : string; LabelId : string }.

(** [resp] is the answer of [g.Users.Labels.List(email).Do()], [labels]
    the global table from name to id. *)
Definition getLabels (resp : res (list Label)) (labels : gmap string string)
  : exec (gmap string string) :=
  match resp with
  | Err _ => Exit
  | OK ls =>
      Done (fold_left (fun tbl l => <[LabelName l := LabelId l]> tbl)
                      ls labels)
  end.

End Labels.

(** ** Rendering the list: [fromString], [messageList.draw] *)
Module ListView.
Import ListModel.

Definition unread : string := "UNREAD".

Section Draw.
(** [time.Parse], the clock, [mail.ParseAddress] (name and address of the
    parsed value) and [utf8.RuneCountInString], by which [fmt] measures
    the width of a string. *)
Variable time_Parse : string -> string -> res TimeString.Time.
Variable now : TimeString.Time.
Variable mail_ParseAddress : string -> res (string * string).
Variable runeCount : string -> nat.

Definition fromString (m : Message) : string :=
  let s := getHeader m "From" in
  match mail_ParseAddress s with
  | Err _ => s
  | OK (name, address) =>
      match name with
      | EmptyString => address
      | String _ _ => name
      end
  end.

Fixpoint blanks (n : nat) : string :=
  match n with
  | O => EmptyString
  | S n' => String " " (blanks n')
  end.

(** The verb [%+*s]: padded with blanks on the left up to the width,
    never cut. *)
Definition padLeft (width : nat) (s : string) : string :=
  blanks (width - runeCount s) +:+ s.

Definition fromMax : nat := 20.
Definition tsWidth : nat := 7.

(** The text of row [n] for message [m]. *)
Definition row (l : messageList) (n : Z) (m : Message) : string :=
  let s := " " +:+ padLeft tsWidth (TimeString.timestring time_Parse now m)
           +:+ " | " +:+ padLeft fromMax (fromString m)
           +:+ " | " +:+ getHeader m "Subject" in
  let s := if isMarked (marked l) (Id m) then String "X" s
           else if hasLabel (LabelIds m) unread then String ">" s
           else String " " s in
  if n =? current l then String "*" s else String " " s.

(** The writes to [messagesView] for the rows from index [n] on. *)
Fixpoint drawFrom (l : messageList) (n : Z) (ms : list Message)
  : list string :=
  match ms with
  | [] => []
  | m :: ms' =>
      row l n m ::
      (if (n =? current l) && showDetails l
       then ["    " +:+ Snippet m] else []) ++
      drawFrom l (n + 1) ms'
  end.

Definition draw (l : messageList) : list string :=
  drawFrom l 0 (messages l).

End Draw.

Definition starred (s : string) : bool :=
  match s with
  | String c _ => Ascii.eqb c "*"
  | EmptyString => false
  end.

(** Second byte of a row: the mark or unread indicator. *)
Definition indicator (s : string) : option ascii :=
  match s with
  | String _ (String c _) => Some c
  | _ => None
  end.

End ListView.

(** ** Quoting a message for a reply: [getReply] *)
Module Reply.

Definition maxLine : nat := 80.

(** Membership in the cutset [spaces = " \t\r"]. *)
Definition isSpace (c : ascii) : bool :=
  Ascii.eqb c " " || Ascii.eqb c "009" || Ascii.eqb c "013".

(** [strings.TrimLeft(s, spaces)] and [strings.TrimRight(s, spaces)]. *)
Fixpoint TrimLeft (s : string) : string :=
  match s with
  | EmptyString => EmptyString
  | String c r => if isSpace c then TrimLeft r else s
  end.

Fixpoint TrimRight (s : string) : string :=
  match s with
  | EmptyString => EmptyString
  | String c r =>
      match TrimRight r with
      | EmptyString => if isSpace c then EmptyString else String c EmptyString
      | String c' r' => String c (String c' r')
      end
  end.

(** The slices [s[:n]] and [s[n:]] for [n <= len(s)]. *)
Fixpoint takeS (n : nat) (s : string) : string :=
  match n, s with
  | S n', String c r => String c (takeS n' r)
  | _, _ => EmptyString
  end.

Fixpoint dropS (n : nat) (s : string) : string :=
  match n, s with
  | S n', String c r => dropS n' r
  | _, _ => s
  end.

(** The lines written for one right-trimmed line of the body: the inner
    [for] loop, which cuts 80 bytes off the front while more than 80 are
    left, and the [if] after it.  [fuel] bounds the number of passes of
    the loop; the length of the line is always enough (each pass removes
    at least 80 bytes). *)
Fixpoint wrapLine (fuel : nat) (line : string) : list string :=
  match fuel with
  | O =>
      if (maxLine <? String.length line)%nat then []
      else [match line with
            | EmptyString => ">"
            | String _ _ => "> " +:+ line
            end]
  | S fuel' =>
      if (maxLine <? String.length line)%nat
      then ("> " +:+ TrimRight (takeS maxLine line)) ::
           wrapLine fuel' (TrimLeft (dropS maxLine line))
      else [match line with
            | EmptyString => ">"
            | String _ _ => "> " +:+ line
            end]
  end.

(** The lines written for one line of the body. *)
Definition quoteLine (line : string) : list string :=
  let line := TrimRight line in
  wrapLine (String.length line) line.

Fixpoint unlines (ls : list string) : string :=
  match ls with
  | [] => EmptyString
  | l :: ls' => l +:+ Editor.LF +:+ unlines ls'
  end.

(** The buffer [getReply] hands to the editor, for the [Date] and [From]
    headers and the body of the open message. *)
Definition replyText (date from body : string) : string :=
  "On " +:+ date +:+ ", " +:+ from +:+ " said:" +:+ Editor.LF +:+
  unlines (flat_map quoteLine (Editor.splitLines body)).

(** The bytes of [s] that are not in the cutset. *)
Fixpoint nonblank (s : string) : string :=
  match s with
  | EmptyString => EmptyString
  | String c r => if isSpace c then nonblank r else String c (nonblank r)
  end.

(** A written line without its quote mark and the blank after it. *)
Definition quoted (o : string) : string := dropS 2 o.

Fixpoint appendAll (ls : list string) : string :=
  match ls with
  | [] => EmptyString
  | l :: ls' => l +:+ appendAll ls'
  end.

Definition startsWithMark (o : string) : bool :=
  match o with
  | String c _ => Ascii.eqb c ">"
  | EmptyString => false
  end.

End Reply.

(** ** The editor process: [runEditor] *)
Module EditorIO.

(** The answers of the operating system, the terminal library and the
    editor process to the calls of one [runEditor]. *)
Record world := mkWorld {
  TempFile : res string;       (* ioutil.TempFile: the name of the file *)
  WriteFile : option string;   (* error of ioutil.WriteFile, if any     *)
  editorFlag : string;         (* the -editor flag                      *)
  envEDITOR : string;          (* os.Getenv("EDITOR")                   *)
  cmdRun : option string;      (* error of cmd.Run(), if any            *)
  ReadFile : res string;       (* ioutil.ReadFile                       *)
  termboxInit : option string  (* error of termbox.Init(), if any       *)
}.

(** The calls made, in order.  [Created] is a [TempFile] call that
    succeeded. *)
Inductive event :=
| Created (name : string)
| Closed (name : string)
| Wrote (name data : string)
| TermboxClose
| Ran (bin name : string)
| ReadBack (name : string)
| TermboxInit
| Removed (name : string)
| Fatalf (msg : string).

Section Run.
(** [fmt]'s [%q] verb. *)
Variable quote : string -> string.

(** The deferred calls at a return with result [r]: the terminal is
    re-initialised first when it was closed, and a failure there exits
    the process before the file is removed. *)
Definition deferred (w : world) (name : string) (closed : bool)
  (r : res string) : list event * exec (res string) :=
  if closed then
    match termboxInit w with
    | Some e =>
        ([TermboxInit; Fatalf ("termbox failed to re-init: " +:+ e)], Exit)
    | None => ([TermboxInit; Removed name], Done r)
    end
  else ([Removed name], Done r).

Definition editorBin (w : world) : string :=
  match envEDITOR w with
  | EmptyString => editorFlag w
  | String _ _ => envEDITOR w
  end.

Definition runEditor (w : world) (input : string)
  : list event * exec (res string) :=
  match TempFile w with
  | Err e => ([], Done (Err ("creating tempfile: " +:+ e)))
  | OK name =>
      let started := [Created name; Closed name; Wrote name input] in
      match WriteFile w with
      | Some e =>
          let (evs, r) := deferred w name false (Err e) in
          (started ++ evs, r)
      | None =>
          let bin := editorBin w in
          let ran := started ++ [TermboxClose; Ran bin name] in
          match cmdRun w with
          | Some e =>
              let (evs, r) :=
                deferred w name true
                  (Err ("failed to open editor " +:+ quote bin +:+ ": "
                        +:+ e)) in
              (ran ++ evs, r)
          | None =>
              match ReadFile w with
              | Err e =>
                  let (evs, r) :=
                    deferred w name true
                      (Err ("reading back editor output: " +:+ e)) in
                  (ran ++ [ReadBack name] ++ evs, r)
              | OK data =>
                  let (evs, r) := deferred w name true (OK data) in
                  (ran ++ [ReadBack name] ++ evs, r)
              end
          end
      end
  end.

End Run.

Definition isRemoved (name : string) (e : event) : bool :=
  match e with
  | Removed n => String.eqb n name
  | _ => false
  end.

Definition isTermboxClose (e : event) : bool :=
  match e with TermboxClose => true | _ => false end.

Definition isTermboxInit (e : event) : bool :=
  match e with TermboxInit => true | _ => false end.

End EditorIO.

(** ** Replying: [getReply], [openMessageCmdReply] *)
Module ReplyCmd.
Import EditorIO.

(** The default of the [-reply_regexp] flag,
    [^(Re|Sv|Aw|AW): ], as [replyRE.MatchString]. *)
Definition defaultReplyRE (subject : string) : bool :=
  String.prefix "Re: " subject || String.prefix "Sv: " subject ||
  String.prefix "Aw: " subject || String.prefix "AW: " subject.

(** The default of the [-reply_prefix] flag. *)
Definition defaultReplyPrefix : string := "Re: ".

Section Cmd.
Variable quote : string -> string.
Variable decodeError : string -> string.
(** [replyRE.MatchString] and [*replyPrefix]. *)
Variable replyRE : string -> bool.
Variable replyPrefix : string.

Definition getReply (w : world) (openMessage : Message)
  : list event * exec (res string) :=
  runEditor quote w
    (Reply.replyText (getHeader openMessage "Date")
                     (getHeader openMessage "From")
                     (Detail.getBody decodeError openMessage)).

Definition replySubject (subject : string) : string :=
  if replyRE subject then subject else replyPrefix +:+ subject.

(** The text that is encoded and sent. *)
Definition replyMessage (openMessage : Message) (body : string) : string :=
  "To: " +:+ getHeader openMessage "From" +:+ Editor.LF +:+
  "Subject: " +:+ replySubject (getHeader openMessage "Subject") +:+
  Editor.LF +:+ Editor.LF +:+ body.

(** [openMessageCmdReply]: [send] is the error of the remote send call,
    if any.  The result is the remote calls made and the status line. *)
Definition openMessageCmdReply (w : world) (openMessage : Message)
  (send : option string) : exec (list Editor.remoteCall * string) :=
  match snd (getReply w openMessage) with
  | Exit => Exit
  | Panic => Panic
  | Done (Err e) => Done ([], "Error creating reply: " +:+ e)
  | Done (OK body) =>
      let raw := Mime.mimeEncode (replyMessage openMessage body) in
      match send with
      | Some e => Done ([Editor.MessagesSend raw],
                        "Error sending reply: " +:+ e)
      | None => Done ([Editor.MessagesSend raw], "Successfully sent reply")
      end
  end.

End Cmd.
End ReplyCmd.

(** ** More sample data *)
Module SampleIO.

(** A run in which every call succeeds and the user saved [edited]. *)
Definition editorWorld : EditorIO.world :=
  EditorIO.mkWorld (OK "/tmp/cmdg-1") None "/usr/bin/emacs" "vi" None
                   (OK "edited") None.

End SampleIO.

(** ** The file dialogs: [loadFileDialog], [saveFileDialog] *)
Module Dialogs.
Import FileNav.

Definition errCancel : string := "user cancelled request".
Definition errOpen : string := "user asked to open, not save".

(** A rune literal as the [gc.Key] it is compared with. *)
Definition rune (c : ascii) : Z := Z.of_N (N_of_ascii c).

(** ['\n'], ['\r'], ['\b'] and the literal [127]. *)
Definition keyLF : Z := 10.
Definition keyCR : Z := 13.
Definition keyBS : Z := 8.
Definition keyDEL : Z := 127.

(** A loop that reads keys either is blocked in [<-nc.Input] or has
    returned. *)
Inductive progress (S R : Type) : Type :=
| Waiting (s : S)
| Returned (r : R).
Arguments Waiting {S R} s.
Arguments Returned {S R} r.

(** [key] is one of the constants of a [case]. *)
Definition oneOf (key : Z) (cases : list Z) : bool :=
  existsb (Z.eqb key) cases.

(** *** [fmt]'s [%c] for an integer: [utf8.EncodeRune] *)
Definition byte (z : Z) : ascii := ascii_of_N (Z.to_N z).

Definition bytes (l : list Z) : string :=
  fold_right (fun z s => String (byte z) s) EmptyString l.

Definition RuneError : Z := 65533.
Definition MaxRune : Z := 1114111.
Definition surrogateMin : Z := 55296.
Definition surrogateMax : Z := 57343.

Definition encode3 (r : Z) : string :=
  bytes [Z.lor 224 (Z.shiftr r 12);
         Z.lor 128 (Z.land (Z.shiftr r 6) 63);
         Z.lor 128 (Z.land r 63)].

Definition EncodeRune (r : Z) : string :=
  if (0 <=? r) && (r <=? 127) then bytes [r]
  else if (0 <=? r) && (r <=? 2047) then
    bytes [Z.lor 192 (Z.shiftr r 6); Z.lor 128 (Z.land r 63)]
  else if (r <? 0) || (MaxRune <? r) ||
          ((surrogateMin <=? r) && (r <=? surrogateMax)) then
    encode3 RuneError
  else if r <=? 65535 then encode3 r
  else
    bytes [Z.lor 240 (Z.shiftr r 18);
           Z.lor 128 (Z.land (Z.shiftr r 12) 63);
           Z.lor 128 (Z.land (Z.shiftr r 6) 63);
           Z.lor 128 (Z.land r 63)].

(** [fmt.Sprintf("%c", key)]: a value that is no code point prints as
    [utf8.RuneError]. *)
Definition fmtC (key : Z) : string :=
  if (key <? 0) || (MaxRune <? key) then EncodeRune RuneError
  else EncodeRune key.

(** [fn[:len(fn)-1]]. *)
Definition dropLast (fn : string) : string :=
  substring 0 (String.length fn - 1) fn.

(** The local variables [cur], [curDir] and [files] of either dialog. *)
Record browser := mkBrowser {
  cur : Z;
  curDir : string;
  files : list FileInfo
}.

(** The local variables of [saveFileDialog]. *)
Record saver := mkSaver {
  dir : browser;
  fn : string;
  fileNameEdit : bool
}.

Definition len (b : browser) : Z := Z.of_nat (length (files b)).

Section Dialog.
(** The calls [readDir] makes, [os.Getwd], and the error of
    [gc.NewWindow], if any. *)
Variable os_Stat : string -> res FileInfo.
Variable ioutil_ReadDir : string -> res (list FileInfo).
Variable path_Join : string -> string -> string.
Variable sort_Sort : list FileInfo -> list FileInfo.
Variable os_Getwd : res string.
Variable gc_NewWindow : option string.

(** The key codes of [goncurses] and of the program's own constants. *)
Variable KEY_TAB KEY_DOWN KEY_UP KEY_BACKSPACE : Z.
Variable ctrlN ctrlP ctrlC ctrlG : Z.

(** [helpWin] is not part of these files; it is taken to return after
    reading some number of the keys to come. *)
Variable helpWin : list Z -> nat.

Definition fullscreenWindow : exec unit :=
  match gc_NewWindow with
  | Some _ => Exit
  | None => Done tt
  end.

(** The [case '\n'] of both dialogs on a directory: enter it when it can
    be read. *)
Definition enter (b : browser) (f : FileInfo) : browser :=
  let newDir := path_Join (curDir b) (Name f) in
  match readDir os_Stat ioutil_ReadDir path_Join sort_Sort newDir with
  | OK newFiles => mkBrowser 0 newDir newFiles
  | Err _ => b
  end.

(** *** [loadFileDialog] *)

(** The rows printed for the entries: those from [offset] on, the one at
    [cur] marked. *)
Definition printName (f : FileInfo) : string :=
  if IsDir f then Name f +:+ "/" else Name f.

Fixpoint rowsFrom (n : Z) (c offset : Z) (fs : list FileInfo)
  : list string :=
  match fs with
  | [] => []
  | f :: fs' =>
      if n <? offset then rowsFrom (n + 1) c offset fs'
      else (if n =? c then " > " +:+ printName f +:+ Editor.LF
            else "   " +:+ printName f +:+ Editor.LF)
           :: rowsFrom (n + 1) c offset fs'
  end.

Definition offsetOf (c : Z) : Z := if 5 <? c then c - 5 else 0.

Definition loadRows (b : browser) : list string :=
  rowsFrom 0 (cur b) (offsetOf (cur b)) (files b).

Definition loadKey (b : browser) (key : Z)
  : exec (progress browser (res string)) :=
  if key =? rune "q" then Done (Returned (Err errCancel))
  else if key =? rune "n" then
    Done (Waiting (if cur b <? len b - 1
                   then mkBrowser (cur b + 1) (curDir b) (files b) else b))
  else if key =? rune "p" then
    Done (Waiting (if 0 <? cur b
                   then mkBrowser (cur b - 1) (curDir b) (files b) else b))
  else if key =? keyLF then
    let* f := index (files b) (cur b) in
    if IsDir f then Done (Waiting (enter b f))
    else Done (Returned (OK (path_Join (curDir b) (Name f))))
  else Done (Waiting b).

Fixpoint loadLoop (b : browser) (keys : list Z)
  : exec (progress browser (res string)) :=
  match keys with
  | [] => Done (Waiting b)
  | key :: keys' =>
      match loadKey b key with
      | Done (Waiting b') => loadLoop b' keys'
      | r => r
      end
  end.

(** The start of both dialogs: the window, the working directory and its
    listing; [k] is the loop. *)
Definition opening {S : Type} (c : Z)
  (k : browser -> exec (progress S (res string)))
  : exec (progress S (res string)) :=
  let* _ := fullscreenWindow in
  match os_Getwd with
  | Err e => Done (Returned (Err e))
  | OK d =>
      match readDir os_Stat ioutil_ReadDir path_Join sort_Sort d with
      | Err e => Done (Returned (Err e))
      | OK fs => k (mkBrowser c d fs)
      end
  end.

Definition loadFileDialog (keys : list Z)
  : exec (progress browser (res string)) :=
  opening 0 (fun b => loadLoop b keys).

(** *** [saveFileDialog] *)

Definition editKey (s : saver) (key : Z)
  : exec (progress saver (res string)) :=
  if key =? KEY_TAB then Done (Waiting (mkSaver (dir s) (fn s) false))
  else if oneOf key [keyLF; keyCR] then
    Done (Returned (OK (path_Join (curDir (dir s)) (fn s))))
  else if oneOf key [keyBS; KEY_BACKSPACE; keyDEL] then
    Done (Waiting (if (0 <? String.length (fn s))%nat
                   then mkSaver (dir s) (dropLast (fn s)) true else s))
  else Done (Waiting (mkSaver (dir s) (fn s +:+ fmtC key) true)).

(** The browsing keys other than [?]. *)
Definition browseKey (s : saver) (key : Z)
  : exec (progress saver (res string)) :=
  let b := dir s in
  if oneOf key [KEY_DOWN; rune "n"; ctrlN; rune "k"] then
    Done (Waiting
            (if cur b <? len b - 1
             then mkSaver (mkBrowser (cur b + 1) (curDir b) (files b))
                          (fn s) false
             else s))
  else if oneOf key [KEY_UP; rune "p"; ctrlP; rune "j"] then
    Done (Waiting
            (if 0 <=? cur b
             then mkSaver (mkBrowser (cur b - 1) (curDir b) (files b))
                          (fn s) false
             else s))
  else if key =? rune "!" then Done (Returned (Err errOpen))
  else if oneOf key [rune "q"; ctrlC; ctrlG] then
    Done (Returned (Err errCancel))
  else if key =? KEY_TAB then Done (Waiting (mkSaver b (fn s) true))
  else if oneOf key [keyLF; keyCR] then
    if cur b =? -1 then Done (Returned (OK (path_Join (curDir b) (fn s))))
    else
      let* f := index (files b) (cur b) in
      if IsDir f then Done (Waiting (mkSaver (enter b f) (fn s) false))
      else Done (Waiting s)
  else Done (Waiting s).

(** The loop; [skip] counts the keys an open help window still reads. *)
Fixpoint saveLoop (skip : nat) (s : saver) (keys : list Z)
  : exec (progress saver (res string)) :=
  match keys with
  | [] => Done (Waiting s)
  | key :: keys' =>
      match skip with
      | S skip' => saveLoop skip' s keys'
      | O =>
          if fileNameEdit s then
            match editKey s key with
            | Done (Waiting s') => saveLoop 0 s' keys'
            | r => r
            end
          else if key =? rune "?" then saveLoop (helpWin keys') s keys'
          else
            match browseKey s key with
            | Done (Waiting s') => saveLoop 0 s' keys'
            | r => r
            end
      end
  end.

Definition saveFileDialog (fn0 : string) (keys : list Z)
  : exec (progress saver (res string)) :=
  opening (-1) (fun b => saveLoop 0 (mkSaver b fn0 false) keys).

(** The constants of the browsing [switch], in the order of its
    cases. *)
Definition browseCases : list Z :=
  [rune "?"; KEY_DOWN; rune "n"; ctrlN; rune "k"; KEY_UP; rune "p"; ctrlP;
   rune "j"; rune "!"; rune "q"; ctrlC; ctrlG; KEY_TAB; keyLF; keyCR].

(** The constants of the editing [switch]. *)
Definition editCases : list Z :=
  [KEY_TAB; keyLF; keyCR; keyBS; KEY_BACKSPACE; keyDEL].

(** [files] is the listing of [curDir]. *)
Definition listed (b : browser) : Prop :=
  readDir os_Stat ioutil_ReadDir path_Join sort_Sort (curDir b) =
    OK (files b).

(** A path [p] names an entry, not a directory, of a directory that was
    listed. *)
Definition listedFile (p : string) : Prop :=
  exists d fs f,
    readDir os_Stat ioutil_ReadDir path_Join sort_Sort d = OK fs /\
    In f fs /\ IsDir f = false /\ p = path_Join d (Name f).

(** A path [p] is the name [name] in a directory that was listed. *)
Definition savedAs (p name : string) : Prop :=
  exists d fs,
    readDir os_Stat ioutil_ReadDir path_Join sort_Sort d = OK fs /\
    p = path_Join d name.

(** The state a waiting [saveFileDialog] is in: the cursor is on the
    [<save>] row or on an entry of the listing of [curDir]. *)
Definition saveOk (s : saver) : Prop :=
  listed (dir s) /\ -1 <= cur (dir s) < len (dir s).

(** An error [e] ended the dialog before its loop began. *)
Definition openingError (e : string) : Prop :=
  os_Getwd = Err e \/
  exists d, os_Getwd = OK d /\
    readDir os_Stat ioutil_ReadDir path_Join sort_Sort d = Err e.

End Dialog.

(** A key that stands for one ASCII character. *)
Definition ascii7 (key : Z) : Prop := 0 <= key <= 127.

End Dialogs.

(** A terminal and a directory for the dialogs. *)
Module SampleDialog.

(** The key codes of [ncurses] and of the control characters. *)
Definition KEY_TAB : Z := 9.
Definition KEY_DOWN : Z := 258.
Definition KEY_UP : Z := 259.
Definition KEY_LEFT : Z := 260.
Definition KEY_RIGHT : Z := 261.
Definition KEY_BACKSPACE : Z := 263.
Definition ctrlN : Z := 14.
Definition ctrlP : Z := 16.
Definition ctrlC : Z := 3.
Definition ctrlG : Z := 7.

(** A help window that closes without reading a key. *)
Definition helpWin (keys : list Z) : nat := O.

Definition home : string := "/home".

Definition homeListing : list FileNav.FileInfo :=
  [FileNav.dotDirs "." (Sample.file "/home/." true);
   FileNav.dotDirs ".." (Sample.file "/home/.." true);
   Sample.file "z" true; Sample.file "a.txt" false;
   Sample.file "b.txt" false].

(** The keys of [.txt]. *)
Definition dotTxt : list Z := [46; 116; 120; 116].

End SampleDialog.

(** ** The thread view: [openThreadMain] *)
Module ThreadView.
Import Dialogs.

Record Thread := mkThread {
  ThreadId : string;
  Messages : list Message
}.

Section Main.
Variable KEY_LEFT KEY_RIGHT : Z.
(** The keys a help window reads before it closes, as in the dialogs. *)
Variable helpWin : list Z -> nat.

(** The slice accesses of [openThreadPrint]: the thread at [current] and
    the first message of that thread.  The text itself is made by
    functions that are not part of these files. *)
Definition openThreadPrint (ts : list Thread) (current : Z) : exec unit :=
  let* t := index ts current in
  let* _ := index (Messages t) 0 in
  Done tt.

(** The [switch] on a key other than [?]. *)
Definition threadKey (ts : list Thread) (current key : Z)
  : progress Z bool :=
  if key =? rune "q" then Returned true
  else if oneOf key [KEY_LEFT; rune "<"; rune "u"] then Returned false
  else if oneOf key [KEY_RIGHT; rune ">"; keyLF] then Waiting current
  else if oneOf key [rune "p"; rune "k"] then
    Waiting (if 0 <? current then current - 1 else current)
  else if oneOf key [rune "n"; rune "j"] then
    Waiting (if current <? Z.of_nat (length ts) - 1 then current + 1
             else current)
  else Waiting current.

Fixpoint threadLoop (skip : nat) (ts : list Thread) (current : Z)
  (keys : list Z) : exec (progress Z bool) :=
  match skip with
  | S skip' =>
      match keys with
      | [] => Done (Waiting current)
      | _ :: keys' => threadLoop skip' ts current keys'
      end
  | O =>
      let* _ := openThreadPrint ts current in
      match keys with
      | [] => Done (Waiting current)
      | key :: keys' =>
          if key =? rune "?" then threadLoop (helpWin keys') ts current keys'
          else
            match threadKey ts current key with
            | Waiting current' => threadLoop 0 ts current' keys'
            | Returned quit => Done (Returned quit)
            end
      end
  end.

Definition openThreadMain (ts : list Thread) (current : Z)
  (keys : list Z) : exec (progress Z bool) :=
  threadLoop 0 ts current keys.

End Main.

(** [current] is an index of [ts]. *)
Definition inRange (ts : list Thread) (current : Z) : bool :=
  (0 <=? current) && (current <? Z.of_nat (length ts)).

End ThreadView.

(** * Part II: properties *)

(** ** Fetch coordinator *)
Section CoordinatorFacts.
Context {St : Type}.
Import Parallel.
Implicit Types (ws : list (@outcome St)) (st : St) (c : @config St).

Lemma applyAll_snoc ws o st :
  applyAll (ws ++ [o]) st = action o (applyAll ws st).
Proof. unfold applyAll. now rewrite fold_left_app. Qed.

Lemma inv_init ws st : inv ws st (init ws st).
Proof.
  constructor; simpl.
  - now rewrite length_map.
  - lia.
  - reflexivity.
  - reflexivity.
  - intros j w Hj. rewrite list_lookup_fmap in Hj.
    destruct (ws !! j) as [o|] eqn:E; simpl in Hj; [|discriminate].
    injection Hj as <-. split; [lia|reflexivity].
Qed.

Lemma inv_step ws st c c' :
  inv ws st c -> step (Live c) (Live c') -> inv ws st c'.
Proof.
  intros [Hlen Hpc Happ Hsh Hch] Hstep.
  inversion Hstep; subst; clear Hstep.
  - constructor; simpl; auto.
    + now rewrite length_insert.
    + intros i w Hi.
      destruct (decide (j = i)) as [->|Hne].
      * rewrite list_lookup_insert_eq in Hi
          by (eapply lookup_lt_Some; eassumption).
        injection Hi as <-. apply (Hch _ _ H1).
      * rewrite list_lookup_insert_ne in Hi by assumption. now apply Hch.
  - destruct (Hch _ _ H1) as [_ Hws].
    assert (Hlt : (pc c < length ws)%nat)
      by (eapply lookup_lt_Some; eassumption).
    constructor; cbn [chans pc shared completed applied].
    + now rewrite length_insert.
    + lia.
    + rewrite Happ, seq_S. reflexivity.
    + rewrite (take_S_r _ _ _ Hws), applyAll_snoc, <- Hsh. reflexivity.
    + intros i w Hi.
      destruct (decide (pc c = i)) as [<-|Hne].
      * rewrite list_lookup_insert_eq in Hi
          by (eapply lookup_lt_Some; eassumption).
        injection Hi as <-. split; [lia|eauto].
      * rewrite list_lookup_insert_ne in Hi by assumption.
        specialize (Hch _ _ Hi). destruct w; intuition lia.
Qed.

Lemma inv_steps ws st p q :
  steps p q -> forall c c', p = Live c -> q = Live c' ->
  inv ws st c -> inv ws st c'.
Proof.
  induction 1 as [p|p q r Hpq Hqr IH]; intros c c' -> Hq Hinv.
  - injection Hq as <-. assumption.
  - destruct q as [d|msg].
    + eapply IH; eauto using inv_step.
    + subst r. inversion Hqr; subst. inversion H.
Qed.

Lemma inv_reachable ws st c :
  steps (Live (init ws st)) (Live c) -> inv ws st c.
Proof. intros H. eapply inv_steps; eauto using inv_init. Qed.

(** When [run] has returned, every worker sent a closure. *)
Lemma inv_returned_all_send ws st c :
  inv ws st c -> returned c -> forallb isSend ws = true.
Proof.
  intros [Hlen Hpc Happ Hsh Hch] Hret. unfold returned in Hret.
  apply forallb_forall. intros o Hin.
  apply list_elem_of_In, list_elem_of_lookup in Hin as [j Hj].
  assert (Hlt : (j < length (chans c))%nat)
    by (rewrite Hlen; eapply lookup_lt_Some; eassumption).
  destruct (lookup_lt_is_Some_2 _ _ Hlt) as [w Hw].
  specialize (Hch _ _ Hw). destruct w as [o'|f|].
  - lia.
  - lia.
  - destruct Hch as [_ [f Hf]]. rewrite Hj in Hf. injection Hf as ->.
    reflexivity.
Qed.


End CoordinatorFacts.

Section CoordinatorProgress.
Context {St : Type}.
Import Parallel.
Implicit Types (ws : list (@outcome St)) (st : St) (c : @config St).

Lemma steps_trans (p q r : @proc St) : steps p q -> steps q r -> steps p r.
Proof. induction 1; eauto using @steps. Qed.

(** No deadlock: while [run] has not returned, some goroutine can move. *)
Lemma progress ws st c :
  inv ws st c -> ~ returned c -> exists p, step (Live c) p.
Proof.
  intros [Hlen Hpc Happ Hsh Hch] Hnot. unfold returned in Hnot.
  assert (Hlt : (pc c < length (chans c))%nat) by lia.
  destruct (lookup_lt_is_Some_2 _ _ Hlt) as [w Hw].
  destruct w as [[f|msg]|f|].
  - eexists. eapply step_complete. eassumption.
  - eexists. eapply step_fatal. eassumption.
  - eexists. eapply step_recv. eassumption.
  - specialize (Hch _ _ Hw). simpl in Hch. lia.
Qed.



End CoordinatorProgress.

(** ** Batch apply *)
Section BatchFacts.
Variable quote : string -> string.
Import Parallel ListModel Batch.

Lemma workers_all_send verb f l :
  forallb isSend (workers quote verb f l) = true.
Proof.
  apply forallb_forall. intros o Hin. unfold workers in Hin.
  apply in_map_iff in Hin as [id [<- _]]. unfold worker.
  destruct (f id); reflexivity.
Qed.

(** Counters after the closures of the workers for [ids] have run. *)
Lemma applyAll_counts verb f ids v :
  let v' := applyAll (map (worker quote verb f) ids) v in
  let k := Z.of_nat (length (List.filter (failing f) ids)) in
  ok v' = ok v + (Z.of_nat (length ids) - k) /\ fail v' = fail v + k.
Proof.
  induction ids as [|id ids IH] using rev_ind; simpl.
  - lia.
  - rewrite map_app, List.filter_app, !length_app. simpl map.
    rewrite applyAll_snoc. simpl in IH. destruct IH as [IHok IHfail].
    assert (Hw : worker quote verb f id =
                 match f id with
                 | Some err => Send (onFail quote verb id err)
                 | None => Send (onOk id)
                 end) by reflexivity.
    assert (Hf : failing f id = match f id with Some _ => true
                                | None => false end) by reflexivity.
    simpl List.filter. rewrite Hw, Hf.
    destruct (f id) as [err|]; simpl; lia.
Qed.

(** [errstr] is the message of one of the failed calls, if any failed. *)
Lemma applyAll_errstr verb f ids v :
  let v' := applyAll (map (worker quote verb f) ids) v in
  (0 < length (List.filter (failing f) ids))%nat ->
  exists id err, In id ids /\ f id = Some err /\
    errstr v' = "Error " +:+ verb +:+ " " +:+ quote id +:+ ": " +:+ err.
Proof.
  induction ids as [|id ids IH] using rev_ind; simpl.
  - lia.
  - rewrite map_app, List.filter_app, length_app. simpl map.
    rewrite applyAll_snoc.
    assert (Hw : worker quote verb f id =
                 match f id with
                 | Some err => Send (onFail quote verb id err)
                 | None => Send (onOk id)
                 end) by reflexivity.
    assert (Hf : failing f id = match f id with Some _ => true
                                | None => false end) by reflexivity.
    simpl List.filter. rewrite Hw, Hf.
    destruct (f id) as [err|] eqn:E; simpl.
    + intros _. exists id, err. rewrite in_app_iff. simpl. auto.
    + intros Hk. destruct IH as [id' [err [Hin [Hf' He]]]]; [lia|].
      exists id', err. rewrite in_app_iff. auto.
Qed.


End BatchFacts.

Section BatchSample.
Import Parallel ListModel Batch Sample.

Lemma inboxRun_reachable :
  steps (Live (init (workers quoteId "archiving" failOnC inbox)
                    (mkVars "" 0 0 (marked inbox))))
        (Live inboxRun).
Proof.
  eapply steps_step.
  { eapply (step_complete _ 1%nat). reflexivity. }
  eapply steps_step.
  { eapply (step_complete _ 0%nat). reflexivity. }
  eapply steps_step.
  { eapply step_recv. reflexivity. }
  eapply steps_step.
  { eapply step_recv. reflexivity. }
  apply steps_refl.
Qed.


End BatchSample.

(** ** List model *)
Section ListFacts.
Import ListModel.

Lemma cursorOk_fixCurrent l : cursorOk (fixCurrent l).
Proof.
  unfold cursorOk, fixCurrent, len. cbn [current messages].
  assert (H0 : messages l = [] -> Z.of_nat (length (messages l)) = 0)
    by (now intros ->).
  assert (H1 : forall m ms, messages l = m :: ms ->
                 0 < Z.of_nat (length (messages l)))
    by (intros m ms ->; simpl length; lia).
  destruct (Z.leb_spec (Z.of_nat (length (messages l))) (current l));
    match goal with |- context [?a <? 0] => destruct (Z.ltb_spec a 0) end;
    destruct (messages l) as [|m ms] eqn:E;
    try specialize (H0 eq_refl); try specialize (H1 _ _ eq_refl); lia.
Qed.

Lemma cursorOk_next l : cursorOk l -> cursorOk (next l).
Proof.
  unfold cursorOk, next, len.
  destruct (current l <? Z.of_nat (length (messages l)) - 1) eqn:E;
    [apply Z.ltb_lt in E | trivial].
  simpl. destruct (messages l); simpl length in *; lia.
Qed.

Lemma cursorOk_prev l : cursorOk l -> cursorOk (prev l).
Proof.
  unfold cursorOk, prev, len.
  destruct (0 <? current l) eqn:E; [apply Z.ltb_lt in E | trivial].
  simpl. destruct (messages l); simpl length in *; lia.
Qed.

Lemma refreshMessages_inv g old l :
  refreshMessages g old = Done l ->
  cursorOk l /\
  marked l = match old with Some m => marked m | None => ∅ end.
Proof.
  unfold refreshMessages. destruct (listMessages g) as [new| |]; simpl;
    [|discriminate|discriminate].
  intros [= <-]. split; [apply cursorOk_fixCurrent | reflexivity].
Qed.

Lemma cursorOk_mark l l' :
  cursorOk l -> messagesCmdMark l = Done l' -> cursorOk l'.
Proof.
  intros Hl. unfold messagesCmdMark.
  destruct (index (messages l) (current l)) as [m| |]; simpl;
    [|discriminate|discriminate].
  intros [= <-]. apply cursorOk_next. exact Hl.
Qed.

Lemma runOp_ok st op st' : stateOk st -> runOp st op = Done st' -> stateOk st'.
Proof.
  intros Hst. destruct op as [g| | |]; simpl.
  - destruct (refreshMessages g st) as [l| |] eqn:E; simpl;
      [|discriminate|discriminate].
    intros [= <-]. apply (refreshMessages_inv _ _ _ E).
  - destruct st as [l|]; [|discriminate]. intros [= <-].
    now apply cursorOk_next.
  - destruct st as [l|]; [|discriminate]. intros [= <-].
    now apply cursorOk_prev.
  - destruct st as [l|]; [|discriminate].
    destruct (messagesCmdMark l) as [l'| |] eqn:E; simpl;
      [|discriminate|discriminate].
    intros [= <-]. exact (cursorOk_mark l l' Hst E).
Qed.

Lemma runOps_ok ops : forall st st',
  stateOk st -> runOps st ops = Done st' -> stateOk st'.
Proof.
  induction ops as [|op ops IH]; simpl; intros st st' Hst.
  - now intros [= <-].
  - destruct (runOp st op) as [st1| |] eqn:E; simpl;
      [|discriminate|discriminate].
    apply IH. eapply runOp_ok; eassumption.
Qed.

(** C2. After any sequence of refresh, next, prev and mark handlers,
    starting from the program's initial nil list or from any list, with
    any marks, whose cursor is in range, the cursor is 0 on an empty list
    and within [0, len) otherwise; and a refresh of the list reached keeps
    every mark whose id is among the refreshed rows (it carries the whole
    mark map over), again under a cursor in range. *)
Theorem cursor_in_range_and_marks_survive
  (st : option messageList) (ops : list listOp) (l : messageList) :
  stateOk st ->
  runOps st ops = Done (Some l) ->
  cursorOk l /\
  forall g l' id,
    refreshMessages g (Some l) = Done l' ->
    isMarked (marked l) id = true ->
    In id (map Id (messages l')) ->
    isMarked (marked l') id = true /\ cursorOk l'.
Proof.
  intros Hst Hrun. split.
  - apply (runOps_ok ops st (Some l) Hst Hrun).
  - intros g l' id Href Hm _.
    destruct (refreshMessages_inv _ _ _ Href) as [Hc ->]. split; assumption.
Qed.

Lemma cursor_in_range_and_marks_survive_witness :
  cursorOk (mkList 0 (toggleMark "a" ∅) false
              [Sample.msg "a"; Sample.msg "b"]) /\
  isMarked (marked (mkList 0 (toggleMark "a" ∅) false
                      [Sample.msg "a"; Sample.msg "c"])) "a" = true.
Proof.
  destruct (cursor_in_range_and_marks_survive None
              [OpRefresh (Sample.serving [Sample.msg "a"; Sample.msg "b"]);
               OpMark; OpNext; OpPrev]
              (mkList 0 (toggleMark "a" ∅) false
                 [Sample.msg "a"; Sample.msg "b"]) I eq_refl) as [Hc Hm].
  split; [exact Hc|].
  apply (Hm (Sample.serving [Sample.msg "a"; Sample.msg "c"])
            (mkList 0 (toggleMark "a" ∅) false
               [Sample.msg "a"; Sample.msg "c"]) "a").
  - reflexivity.
  - reflexivity.
  - simpl. auto.
Defined.

Lemma isMarked_toggle_eq id m :
  isMarked (toggleMark id m) id = negb (isMarked m id).
Proof. unfold toggleMark, isMarked at 1. now rewrite lookup_insert_eq. Qed.

Lemma isMarked_toggle_ne id id' m :
  id <> id' -> isMarked (toggleMark id m) id' = isMarked m id'.
Proof.
  intros Hne. unfold toggleMark, isMarked at 1 3.
  now rewrite lookup_insert_ne.
Qed.

(** C10. Toggling the mark of an id twice gives every id the membership it
    had, toggling one id leaves the membership of every other id alone,
    and [messagesCmdMark] performs exactly one such toggle, on the row
    under the cursor. *)
Theorem mark_toggle_involution (l : messageList) (id id' : string) :
  isMarked (toggleMark id (toggleMark id (marked l))) id' =
    isMarked (marked l) id' /\
  (id <> id' ->
   isMarked (toggleMark id (marked l)) id' = isMarked (marked l) id') /\
  (forall l', messagesCmdMark l = Done l' ->
     exists m, messages l !! Z.to_nat (current l) = Some m /\
               marked l' = toggleMark (Id m) (marked l)).
Proof.
  split; [|split].
  - destruct (decide (id = id')) as [<-|Hne].
    + rewrite !isMarked_toggle_eq. apply negb_involutive.
    + now rewrite !isMarked_toggle_ne.
  - apply isMarked_toggle_ne.
  - intros l'. unfold messagesCmdMark, index.
    destruct ((0 <=? current l) &&
              (current l <? Z.of_nat (length (messages l)))); [|discriminate].
    destruct (messages l !! Z.to_nat (current l)) as [m|]; [|discriminate].
    simpl. intros [= <-]. exists m. split; [reflexivity|].
    unfold next. simpl.
    match goal with |- context [if ?b then _ else _] => destruct b end;
      reflexivity.
Qed.

Lemma mark_toggle_involution_witness :
  isMarked (toggleMark "a" (marked Sample.inbox)) "c" = true /\
  exists m, messages Sample.inbox !! 1%nat = Some m /\
    marked (mkList 2 (toggleMark "b" (marked Sample.inbox)) false
                   (messages Sample.inbox)) =
    toggleMark (Id m) (marked Sample.inbox).
Proof.
  destruct (mark_toggle_involution Sample.inbox "a" "c") as (_ & Hne & _).
  destruct (mark_toggle_involution Sample.inbox "b" "b") as (_ & _ & Hcmd).
  split.
  - rewrite Hne; [reflexivity | discriminate].
  - apply Hcmd. reflexivity.
Defined.

End ListFacts.

(** ** Order of the apply actions, and what a failed call does *)
Section OrderAndFailure.
Variable quote : string -> string.
Import Parallel ListModel Batch.

(** C9 as stated fails: in the run [Sample.inboxRun] the second worker's
    result is available first, yet the first worker's closure is called
    first. *)
Lemma apply_order_not_completion_order :
  ~ appliesInCompletionOrder
      (workers Sample.quoteId "archiving" Sample.failOnC Sample.inbox)
      (mkVars "" 0 0 (marked Sample.inbox)).
Proof.
  intros H. specialize (H Sample.inboxRun inboxRun_reachable eq_refl).
  discriminate H.
Qed.

(** C9, amended. In every interleaving and at every moment the closures
    called so far are those of the first [pc] workers in the order of the
    [add] calls, one per receive of the coordinator's loop; when [run]
    returns they are all n closures in submission order, whatever the
    order in which the results became available. *)
Theorem apply_order_is_submission_order
  {St : Type} (ws : list (@outcome St)) (st : St) (c : config) :
  steps (Live (init ws st)) (Live c) ->
  applied c = seq 0 (pc c) /\
  shared c = applyAll (take (pc c) ws) st /\
  (returned c -> applied c = seq 0 (length ws)).
Proof.
  intros Hsteps. destruct (inv_reachable _ _ _ Hsteps) as [Hlen Hpc Happ Hsh _].
  split; [assumption|]. split; [assumption|].
  unfold returned. intros Hret. rewrite Happ, Hret, Hlen. reflexivity.
Qed.

Lemma apply_order_is_submission_order_witness :
  applied Sample.inboxRun = [0%nat; 1%nat] /\
  completed Sample.inboxRun = [1%nat; 0%nat].
Proof.
  destruct (apply_order_is_submission_order _ _ _ inboxRun_reachable)
    as (Happ & _ & _).
  split; [exact Happ | reflexivity].
Defined.

(** Marks after the closures for [ids] ran: a mark is gone exactly when
    a worker for that id succeeded. *)
Lemma applyAll_marks verb f ids v id :
  let v' := applyAll (map (worker quote verb f) ids) v in
  isMarked (gmarked v') id = true <->
  isMarked (gmarked v) id = true /\ ~ (In id ids /\ f id = None).
Proof.
  induction ids as [|x ids IH] using rev_ind; simpl.
  - tauto.
  - rewrite map_app. simpl map. rewrite applyAll_snoc.
    assert (Hw : worker quote verb f x =
                 match f x with
                 | Some err => Send (onFail quote verb x err)
                 | None => Send (onOk x)
                 end) by reflexivity.
    rewrite Hw. simpl in IH. rewrite in_app_iff. simpl In.
    destruct (f x) as [err|] eqn:E; simpl.
    + rewrite IH. split.
      * intros [Hm Hn]. split; [assumption|].
        intros [[Hin|[->|[]]] Hf]; [tauto|congruence].
      * intros [Hm Hn]. tauto.
    + unfold isMarked at 1. destruct (decide (x = id)) as [->|Hne].
      * rewrite lookup_delete_eq. simpl. split; [discriminate|].
        intros [_ Hn]. exfalso. apply Hn. auto.
      * rewrite lookup_delete_ne by assumption.
        fold (isMarked (gmarked
          (applyAll (map (worker quote verb f) ids) v)) id).
        rewrite IH. split.
        -- intros [Hm Hn]. split; [assumption|].
           intros [[Hin|[->|[]]] Hf]; [tauto|congruence].
        -- intros [Hm Hn]. tauto.
Qed.

(** C5 fails for the fetch batch of [list]: one failed fetch ends the
    process ([log.Fatalf] in the worker), during a refresh as well. *)
Lemma list_fetch_failure_exits :
  MessagesGet Sample.flaky "b" = Err "503" /\
  listMessages Sample.flaky = Exit /\
  refreshMessages Sample.flaky (Some Sample.inbox) = Exit /\
  steps (Live (init (map (listWorker Sample.flaky)
                         [Sample.msg "a"; Sample.msg "b"])
                    (mkList 0 ∅ false [])))
        (Exited "Get message: 503").
Proof.
  split; [reflexivity|]. split; [reflexivity|]. split; [reflexivity|].
  eapply steps_step; [|apply steps_refl].
  eapply (step_fatal _ 1%nat). reflexivity.
Qed.

(** C5, amended. In the batch of [messagesCmdApply] a failed remote call
    never ends the process and never stops the siblings: all closures
    run, the failure is counted and its message recorded by the failed
    worker's own closure, the status line carries counts and message,
    and exactly the rows whose call succeeded lose their mark.  In the
    fetch batch of [list] a failed fetch ends the process: [run] cannot
    return, and [list] and every refresh using it exit. *)
Theorem batch_failure_reported_fetch_failure_exits
  verb f (l : messageList) (g : Service) (msgs : list Message) :
  (exists v status l',
     applyMarked quote verb f l = Some (v, status, l') /\
     fail v = failures f l /\
     ok v = Z.of_nat (length (batch l)) - failures f l /\
     (0 < failures f l ->
        status = failedStatus verb v /\
        (exists id err, In id (batch l) /\ f id = Some err /\
           errstr v =
             "Error " +:+ verb +:+ " " +:+ quote id +:+ ": " +:+ err) /\
        forall id, isMarked (marked l') id = true <->
          isMarked (marked l) id = true /\
          ~ (In id (batch l) /\ f id = None))) /\
  (MessagesList g = OK msgs ->
   (exists m e, In m msgs /\ MessagesGet g (Id m) = Err e) ->
   listMessages g = Exit /\
   (forall old, refreshMessages g old = Exit) /\
   (forall c, steps (Live (init (map (listWorker g) msgs)
                                (mkList 0 ∅ false []))) (Live c) ->
              ~ returned c)).
Proof.
  split.
  - unfold applyMarked, run. rewrite workers_all_send.
    set (v := applyAll _ _).
    destruct (applyAll_counts quote verb f (batch l)
                (mkVars "" 0 0 (marked l))) as [Hok Hfail].
    fold (workers quote verb f l) in Hok, Hfail. fold v in Hok, Hfail.
    simpl in Hok, Hfail. fold (failures f l) in Hok, Hfail.
    assert (Hfail' : fail v = failures f l) by lia.
    destruct (0 <? fail v) eqn:E.
    + do 3 eexists. split; [reflexivity|]. split; [assumption|].
      split; [lia|]. intros Hk. split; [reflexivity|]. split.
      * apply applyAll_errstr. unfold failures in Hk. lia.
      * intros id. simpl. apply applyAll_marks.
    + do 3 eexists. split; [reflexivity|]. split; [assumption|].
      split; [lia|]. apply Z.ltb_ge in E. lia.
  - intros Hlist [m [e [Hin Hget]]].
    assert (Hnot : forallb isSend (map (listWorker g) msgs) = false).
    { apply not_true_is_false. intros Hall.
      rewrite forallb_forall in Hall.
      specialize (Hall (listWorker g m) (in_map _ _ _ Hin)).
      unfold listWorker in Hall. rewrite Hget in Hall. discriminate. }
    assert (Hl : listMessages g = Exit).
    { unfold listMessages, run. now rewrite Hlist, Hnot. }
    split; [assumption|]. split.
    + intros old. unfold refreshMessages. now rewrite Hl.
    + intros c Hsteps Hret.
      pose proof (inv_returned_all_send _ _ _
                    (inv_reachable _ _ _ Hsteps) Hret) as Hall.
      congruence.
Qed.

End OrderAndFailure.

Lemma batch_failure_reported_fetch_failure_exits_witness :
  (exists v status l',
     Batch.applyMarked Sample.quoteId "archiving" Sample.failOnC
       Sample.inbox = Some (v, status, l') /\
     Batch.fail v = 1 /\ Batch.ok v = 1 /\
     ListModel.isMarked (ListModel.marked l') "c" = true /\
     ListModel.isMarked (ListModel.marked l') "a" = false) /\
  ListModel.listMessages Sample.flaky = Exit.
Proof.
  destruct (batch_failure_reported_fetch_failure_exits Sample.quoteId
              "archiving" Sample.failOnC Sample.inbox Sample.flaky
              [Sample.msg "a"; Sample.msg "b"])
    as [(v & status & l' & Happly & Hfail & Hok & Hrest) Hlist].
  split.
  - exists v, status, l'. split; [exact Happly|].
    split; [exact Hfail|]. split; [exact Hok|].
    destruct Hrest as (_ & _ & Hmarks).
    { rewrite <- Hfail. injection Happly as <- _ _. reflexivity. }
    split.
    + apply Hmarks. split; [reflexivity|].
      intros [_ Hf]. discriminate Hf.
    + apply not_true_is_false. intros Ha. apply Hmarks in Ha as [_ Hn].
      apply Hn. split; [left; reflexivity | reflexivity].
  - apply Hlist; [reflexivity|].
    exists (Sample.msg "b"), "503". split; [right; left|]; reflexivity.
Defined.

(** ** Payload encoding *)
Section MimeFacts.
Import Mime.

Lemma allBytes_complete (a : ascii) : In a allBytes.
Proof.
  unfold allBytes. rewrite <- (ascii_nat_embedding a).
  apply in_map, in_seq. pose proof (nat_ascii_bounded a). lia.
Qed.

Lemma forall1_spec (P : ascii -> bool) :
  forall1 P = true -> forall a, P a = true.
Proof.
  unfold forall1. rewrite forallb_forall. intros H a.
  apply H, allBytes_complete.
Qed.

Lemma forall2_spec (P : ascii -> ascii -> bool) :
  forall2 P = true -> forall a b, P a b = true.
Proof.
  unfold forall2. rewrite forallb_forall. intros H a b.
  specialize (H a (allBytes_complete a)). rewrite forallb_forall in H.
  apply H, allBytes_complete.
Qed.

(** Induction over a byte string three bytes at a time, as the encoder
    consumes it. *)
Lemma string_ind3 (P : string -> Prop) :
  P EmptyString ->
  (forall a, P (String a EmptyString)) ->
  (forall a b, P (String a (String b EmptyString))) ->
  (forall a b c s, P s -> P (String a (String b (String c s)))) ->
  forall s, P s.
Proof.
  intros H0 H1 H2 H3.
  assert (H : forall s, P s /\ (forall a, P (String a s)) /\
                        (forall a b, P (String a (String b s)))).
  { induction s as [|c s (IHs & IH1 & IH2)].
    - auto.
    - split; [apply IH1|]. split; [intros a; apply IH2|].
      intros a b. now apply H3. }
  intros s. apply H.
Qed.

(** A 6-bit group survives the trip through the alphabet, and its letter
    is none of the bytes the substitution or the decoder treat specially. *)
Lemma good_sextet0 a :
  good (sextet0 (N_of_ascii a)) = true.
Proof. revert a. apply forall1_spec. vm_compute. reflexivity. Qed.

Lemma good_sextet1 a b :
  good (sextet1 (N_of_ascii a) (N_of_ascii b)) = true.
Proof. revert a b. apply forall2_spec. vm_compute. reflexivity. Qed.

Lemma good_sextet2 b c :
  good (sextet2 (N_of_ascii b) (N_of_ascii c)) = true.
Proof. revert b c. apply forall2_spec. vm_compute. reflexivity. Qed.

Lemma good_sextet3 c :
  good (sextet3 (N_of_ascii c)) = true.
Proof. revert c. apply forall1_spec. vm_compute. reflexivity. Qed.

Lemma octet0_sextets a b :
  octet0 (sextet0 (N_of_ascii a)) (sextet1 (N_of_ascii a) (N_of_ascii b)) = a.
Proof.
  apply Ascii.eqb_eq. revert a b. apply forall2_spec.
  vm_compute. reflexivity.
Qed.

Lemma shl8_sextet1 a b :
  shl8 (sextet1 (N_of_ascii a) (N_of_ascii b)) 4 =
  shl8 (shr8 (N_of_ascii b) 4) 4.
Proof.
  apply N.eqb_eq. revert a b. apply forall2_spec. vm_compute. reflexivity.
Qed.

Lemma shr8_sextet2 b c :
  shr8 (sextet2 (N_of_ascii b) (N_of_ascii c)) 2 = N.land (N_of_ascii b) 15.
Proof.
  apply N.eqb_eq. revert b c. apply forall2_spec. vm_compute. reflexivity.
Qed.

Lemma nibbles b :
  ascii_of_N (N.lor (shl8 (shr8 (N_of_ascii b) 4) 4)
                    (N.land (N_of_ascii b) 15)) = b.
Proof.
  apply Ascii.eqb_eq. revert b. apply forall1_spec. vm_compute. reflexivity.
Qed.

Lemma octet1_sextets a b c :
  octet1 (sextet1 (N_of_ascii a) (N_of_ascii b))
         (sextet2 (N_of_ascii b) (N_of_ascii c)) = b.
Proof.
  unfold octet1. rewrite shl8_sextet1, shr8_sextet2. apply nibbles.
Qed.

Lemma shl8_sextet2 b c :
  shl8 (sextet2 (N_of_ascii b) (N_of_ascii c)) 6 =
  shl8 (shr8 (N_of_ascii c) 6) 6.
Proof.
  apply N.eqb_eq. revert b c. apply forall2_spec. vm_compute. reflexivity.
Qed.

Lemma top2_low6 c :
  ascii_of_N (N.lor (shl8 (shr8 (N_of_ascii c) 6) 6)
                    (sextet3 (N_of_ascii c))) = c.
Proof.
  apply Ascii.eqb_eq. revert c. apply forall1_spec. vm_compute. reflexivity.
Qed.

Lemma octet2_sextets b c :
  octet2 (sextet2 (N_of_ascii b) (N_of_ascii c)) (sextet3 (N_of_ascii c)) = c.
Proof. unfold octet2. rewrite shl8_sextet2. apply top2_low6. Qed.

Lemma good_parts v :
  good v = true ->
  decodeMap (encodeChar v) = v /\ (v =? 255)%N = false /\
  Ascii.eqb (encodeChar v) padChar = false /\ plain (encodeChar v) = true.
Proof.
  unfold good. rewrite !andb_true_iff, !negb_true_iff, N.eqb_eq. tauto.
Qed.

Lemma decodeQuantum_full v0 v1 v2 v3 atEnd :
  good v0 = true -> good v1 = true -> good v2 = true -> good v3 = true ->
  decodeQuantum (encodeChar v0) (encodeChar v1) (encodeChar v2)
                (encodeChar v3) atEnd =
  Some (String (octet0 v0 v1)
         (String (octet1 v1 v2) (String (octet2 v2 v3) EmptyString)), false).
Proof.
  intros (D0 & N0 & P0 & _)%good_parts (D1 & N1 & P1 & _)%good_parts
         (D2 & N2 & P2 & _)%good_parts (D3 & N3 & P3 & _)%good_parts.
  unfold decodeQuantum. rewrite D0, D1, D2, D3, N0, N1, N2, N3, P2, P3.
  reflexivity.
Qed.

Lemma decodeQuantum_pad1 v0 v1 v2 :
  good v0 = true -> good v1 = true -> good v2 = true ->
  decodeQuantum (encodeChar v0) (encodeChar v1) (encodeChar v2)
                padChar true =
  Some (String (octet0 v0 v1) (String (octet1 v1 v2) EmptyString), true).
Proof.
  intros (D0 & N0 & P0 & _)%good_parts (D1 & N1 & P1 & _)%good_parts
         (D2 & N2 & P2 & _)%good_parts.
  unfold decodeQuantum. rewrite D0, D1, D2, N0, N1, N2, P2.
  reflexivity.
Qed.

Lemma decodeQuantum_pad2 v0 v1 :
  good v0 = true -> good v1 = true ->
  decodeQuantum (encodeChar v0) (encodeChar v1) padChar padChar true =
  Some (String (octet0 v0 v1) EmptyString, true).
Proof.
  intros (D0 & N0 & P0 & _)%good_parts (D1 & N1 & P1 & _)%good_parts.
  unfold decodeQuantum. rewrite D0, D1, N0, N1. reflexivity.
Qed.

Lemma EncodeToString_3 a b c s :
  EncodeToString (String a (String b (String c s))) =
  String (encodeChar (sextet0 (N_of_ascii a)))
    (String (encodeChar (sextet1 (N_of_ascii a) (N_of_ascii b)))
      (String (encodeChar (sextet2 (N_of_ascii b) (N_of_ascii c)))
        (String (encodeChar (sextet3 (N_of_ascii c)))
                (EncodeToString s)))).
Proof. reflexivity. Qed.

Lemma decode_4 c0 c1 c2 c3 rest :
  decode (String c0 (String c1 (String c2 (String c3 rest)))) =
  match decodeQuantum c0 c1 c2 c3 (isEmpty rest) with
  | Some (out, true) => Some out
  | Some (out, false) =>
      match decode rest with
      | Some t => Some (out +:+ t)
      | None => None
      end
  | None => None
  end.
Proof. reflexivity. Qed.

(** Standard Base64 decodes what it encoded. *)
Lemma decode_EncodeToString s : decode (EncodeToString s) = Some s.
Proof.
  induction s as [|a|a b|a b c s IH] using string_ind3.
  - reflexivity.
  - change (EncodeToString (String a EmptyString)) with
      (String (encodeChar (sextet0 (N_of_ascii a)))
         (String (encodeChar (sextet1 (N_of_ascii a) (N_of_ascii "000")))
            (String padChar (String padChar EmptyString)))).
    rewrite decode_4. cbn [isEmpty].
    rewrite decodeQuantum_pad2 by auto using good_sextet0, good_sextet1.
    now rewrite octet0_sextets.
  - change (EncodeToString (String a (String b EmptyString))) with
      (String (encodeChar (sextet0 (N_of_ascii a)))
         (String (encodeChar (sextet1 (N_of_ascii a) (N_of_ascii b)))
            (String (encodeChar (sextet2 (N_of_ascii b) (N_of_ascii "000")))
               (String padChar EmptyString)))).
    rewrite decode_4. cbn [isEmpty].
    rewrite decodeQuantum_pad1
      by auto using good_sextet0, good_sextet1, good_sextet2.
    now rewrite octet0_sextets, octet1_sextets.
  - rewrite EncodeToString_3, decode_4.
    rewrite decodeQuantum_full
      by auto using good_sextet0, good_sextet1, good_sextet2, good_sextet3.
    rewrite IH, octet0_sextets, octet1_sextets, octet2_sextets.
    reflexivity.
Qed.

Lemma plain_encodeChar v : good v = true -> plain (encodeChar v) = true.
Proof. intros H. apply good_parts in H. tauto. Qed.

(** The encoder emits no byte that the substitutions of [mimeDecode] or
    the newline stripping would touch. *)
Lemma EncodeToString_plain s : allChars plain (EncodeToString s) = true.
Proof.
  induction s as [|a|a b|a b c s IH] using string_ind3.
  - reflexivity.
  - change (EncodeToString (String a EmptyString)) with
      (String (encodeChar (sextet0 (N_of_ascii a)))
         (String (encodeChar (sextet1 (N_of_ascii a) (N_of_ascii "000")))
            (String padChar (String padChar EmptyString)))).
    cbn [allChars].
    rewrite !plain_encodeChar by auto using good_sextet0, good_sextet1.
    reflexivity.
  - change (EncodeToString (String a (String b EmptyString))) with
      (String (encodeChar (sextet0 (N_of_ascii a)))
         (String (encodeChar (sextet1 (N_of_ascii a) (N_of_ascii b)))
            (String (encodeChar (sextet2 (N_of_ascii b) (N_of_ascii "000")))
               (String padChar EmptyString)))).
    cbn [allChars].
    rewrite !plain_encodeChar
      by auto using good_sextet0, good_sextet1, good_sextet2.
    reflexivity.
  - rewrite EncodeToString_3. cbn [allChars].
    rewrite !plain_encodeChar
      by auto using good_sextet0, good_sextet1, good_sextet2, good_sextet3.
    exact IH.
Qed.

Lemma substRoundtrip_plain c : plain c = true -> substRoundtrip c = c.
Proof.
  intros H. apply Ascii.eqb_eq.
  assert (Hall : forall c,
    implb (plain c) (Ascii.eqb (substRoundtrip c) c) = true).
  { apply forall1_spec. vm_compute. reflexivity. }
  specialize (Hall c). rewrite H in Hall. exact Hall.
Qed.

Lemma replaceByte_roundtrip t :
  allChars plain t = true ->
  replaceByte "_" "/" (replaceByte "-" "+"
    (replaceByte "/" "_" (replaceByte "+" "-" t))) = t.
Proof.
  induction t as [|c t IH]; [reflexivity|].
  cbn [allChars replaceByte]. intros [Hc Ht]%andb_true_iff.
  rewrite (IH Ht). f_equal. apply (substRoundtrip_plain c Hc).
Qed.

Lemma removeNewlines_plain t : allChars plain t = true -> removeNewlines t = t.
Proof.
  induction t as [|c t IH]; [reflexivity|].
  cbn [allChars removeNewlines]. intros [Hc Ht]%andb_true_iff.
  rewrite (IH Ht). unfold plain in Hc.
  apply negb_true_iff in Hc.
  destruct (Ascii.eqb c "013"), (Ascii.eqb c "010");
    rewrite ?orb_true_r in Hc; try discriminate; reflexivity.
Qed.


(** The encoder on the RFC 4648 test vectors. *)
Example EncodeToString_rfc4648 :
  map EncodeToString ["f"; "fo"; "foo"; "foob"; "fooba"; "foobar"] =
  ["Zg=="; "Zm8="; "Zm9v"; "Zm9vYg=="; "Zm9vYmE="; "Zm9vYmFy"].
Proof. reflexivity. Qed.

(** Bytes 0xFB 0xFF use both substituted letters. *)
Example mimeEncode_substitutes :
  mimeEncode (String "251" (String "255" EmptyString)) = "-_8=" /\
  EncodeToString (String "251" (String "255" EmptyString)) = "+/8=".
Proof. split; reflexivity. Qed.

End MimeFacts.

(** ** Editor bridge *)
Section EditorFacts.
Import Editor.
Variable quote : string -> string.

Lemma append_String c (a b : string) : String c a +:+ b = String c (a +:+ b).
Proof. reflexivity. Qed.

Lemma SplitN2_cons c r :
  SplitN2 (String c r) =
  match r with
  | String c' r' =>
      if Ascii.eqb c nl && Ascii.eqb c' nl then Some (EmptyString, r')
      else match SplitN2 r with
           | Some (h, b) => Some (String c h, b)
           | None => None
           end
  | EmptyString => None
  end.
Proof. destruct r; reflexivity. Qed.

(** [SplitN2] cuts at a blank line, and at the first one. *)
Lemma SplitN2_Some s : forall h b,
  SplitN2 s = Some (h, b) ->
  s = h +:+ LF +:+ LF +:+ b /\ SplitN2 (h +:+ LF) = None.
Proof.
  induction s as [|c r IH]; intros h b; [discriminate|].
  rewrite SplitN2_cons. destruct r as [|c' r']; [discriminate|].
  destruct (Ascii.eqb c nl && Ascii.eqb c' nl) eqn:E.
  - intros [= <- <-]. apply andb_true_iff in E as [->%Ascii.eqb_eq ->%Ascii.eqb_eq].
    split; reflexivity.
  - destruct (SplitN2 (String c' r')) as [[h' b']|] eqn:E'; [|discriminate].
    intros [= <- <-]. destruct (IH _ _ eq_refl) as [Hs Hn].
    split.
    + rewrite append_String, <- Hs. reflexivity.
    + rewrite append_String, SplitN2_cons.
      destruct (h' +:+ LF) as [|d t] eqn:Eh; [reflexivity|].
      rewrite Hn.
      assert (Hd : d = c').
      { destruct h' as [|x h'']; simpl in Hs, Eh.
        - injection Hs as -> _. now injection Eh as <- _.
        - injection Hs as -> _. now injection Eh as <- _. }
      subst d. now rewrite E.
Qed.

Lemma SplitN2_None s :
  SplitN2 s = None -> forall h b, s <> h +:+ LF +:+ LF +:+ b.
Proof.
  induction s as [|c r IH]; intros Hn h b Heq.
  - destruct h; discriminate.
  - rewrite SplitN2_cons in Hn. destruct r as [|c' r'].
    + destruct h as [|x [|y h']]; simpl in Heq; discriminate.
    + destruct (Ascii.eqb c nl && Ascii.eqb c' nl) eqn:E; [discriminate|].
      destruct (SplitN2 (String c' r')) as [[h' b']|] eqn:E'; [discriminate|].
      destruct h as [|x h'].
      * simpl in Heq. injection Heq as -> -> _.
        rewrite !Ascii.eqb_refl in E. discriminate.
      * rewrite append_String in Heq. injection Heq as _ Heq.
        apply (IH eq_refl h' b Heq).
Qed.

Lemma splitLines_cons c r :
  splitLines (String c r) =
  if Ascii.eqb c nl then EmptyString :: splitLines r
  else String c (firstLine r) :: tl (splitLines r).
Proof.
  unfold firstLine. simpl. destruct (Ascii.eqb c nl); [reflexivity|].
  destruct (splitLines r) as [|l ls] eqn:E; [|reflexivity].
  destruct r as [|d r']; simpl in E; [discriminate|].
  destruct (Ascii.eqb d nl); [discriminate|].
  destruct (splitLines r'); discriminate.
Qed.

Lemma firstLine_cons c r :
  firstLine (String c r) =
  if Ascii.eqb c nl then EmptyString else String c (firstLine r).
Proof.
  unfold firstLine at 1. rewrite splitLines_cons.
  destruct (Ascii.eqb c nl); reflexivity.
Qed.

Lemma splitLines_hd_tl s : splitLines s = firstLine s :: tl (splitLines s).
Proof.
  destruct s as [|c r]; [reflexivity|].
  rewrite firstLine_cons, splitLines_cons.
  destruct (Ascii.eqb c nl); reflexivity.
Qed.

(** A newline-free prefix is stripped from a text exactly when it is
    stripped from the text's first line. *)
Lemma stripPrefix_firstLine p : forall s,
  Mime.allChars (fun c => negb (Ascii.eqb c nl)) p = true ->
  stripPrefix p (firstLine s) =
  match stripPrefix p s with Some r => Some (firstLine r) | None => None end.
Proof.
  induction p as [|a p IH]; intros s Hp; [reflexivity|].
  simpl in Hp. apply andb_true_iff in Hp as [Ha Hp].
  apply negb_true_iff in Ha.
  destruct s as [|b s]; [reflexivity|].
  rewrite firstLine_cons. cbn [stripPrefix].
  destruct (Ascii.eqb b nl) eqn:Eb.
  - apply Ascii.eqb_eq in Eb. subst b. now rewrite Ha.
  - destruct (Ascii.eqb a b); [now apply IH | reflexivity].
Qed.

Lemma spanWord_firstLine r : forall w r',
  spanWord r = (w, r') ->
  Mime.allChars isWordChar w = true /\
  (endsLine r' = true -> firstLine r = w) /\
  (endsLine r' = false -> Mime.allChars isWordChar (firstLine r) = false).
Proof.
  induction r as [|c r IH]; intros w r'; simpl.
  - intros [= <- <-]. repeat split; try reflexivity. discriminate.
  - destruct (isWordChar c) eqn:Ec.
    + destruct (spanWord r) as [w1 r1] eqn:E1. intros [= <- <-].
      destruct (IH _ _ eq_refl) as (Hw & Ht & Hf).
      assert (Hnl : Ascii.eqb c nl = false).
      { destruct (Ascii.eqb c nl) eqn:En; [|reflexivity].
        apply Ascii.eqb_eq in En. subst c. discriminate Ec. }
      rewrite firstLine_cons, Hnl. simpl. rewrite Ec, Hw.
      repeat split.
      * intros H. now rewrite (Ht H).
      * intros H. now rewrite (Hf H).
    + intros [= <- <-]. rewrite firstLine_cons. simpl.
      repeat split.
      * now intros ->.
      * intros ->. simpl. now rewrite Ec.
Qed.

Lemma matchTail_firstLine r : matchTail r = wordLine (firstLine r).
Proof.
  unfold matchTail. destruct (spanWord r) as [w r'] eqn:E.
  destruct (spanWord_firstLine _ _ _ E) as (Hw & Ht & Hf).
  destruct (endsLine r') eqn:Ee.
  - rewrite (Ht eq_refl). unfold wordLine. rewrite Hw.
    destruct w as [|x w']; [reflexivity|].
    destruct r' as [|d t]; [reflexivity|]. simpl in Ee. now rewrite Ee.
  - specialize (Hf eq_refl). unfold wordLine. rewrite Hf.
    destruct r' as [|d t]; [discriminate|]. simpl in Ee. rewrite Ee.
    destruct w, (firstLine r); reflexivity.
Qed.

Lemma matchDirective_firstLine s :
  matchDirective s = directiveWord (firstLine s).
Proof.
  unfold matchDirective, directiveWord.
  rewrite stripPrefix_firstLine by reflexivity.
  destruct (stripPrefix "Mode: " s); [apply matchTail_firstLine|reflexivity].
Qed.

Lemma firstDirective_splitLines s :
  firstDirective (splitLines s) =
  match directiveWord (firstLine s) with
  | Some w => Some w
  | None => firstDirective (tl (splitLines s))
  end.
Proof.
  destruct (splitLines s) as [|l ls] eqn:E.
  - rewrite splitLines_hd_tl in E. discriminate.
  - unfold firstLine. rewrite E. reflexivity.
Qed.

Lemma findFrom_lines s : findFrom s = firstDirective (tl (splitLines s)).
Proof.
  induction s as [|c r IH]; [reflexivity|].
  cbn [findFrom]. rewrite splitLines_cons.
  destruct (Ascii.eqb c nl); cbn [tl].
  - now rewrite firstDirective_splitLines, matchDirective_firstLine, IH.
  - exact IH.
Qed.

(** The regular expression finds the word of the first line of the form
    [Mode: <word>]. *)
Lemma FindStringSubmatch_lines s :
  FindStringSubmatch s = firstDirective (splitLines s).
Proof.
  unfold FindStringSubmatch.
  now rewrite firstDirective_splitLines, matchDirective_firstLine,
    findFrom_lines.
Qed.

Lemma stripPrefix_Some p : forall s r,
  stripPrefix p s = Some r -> s = p +:+ r.
Proof.
  induction p as [|a p IH]; intros s r; simpl.
  - now intros [= <-].
  - destruct s as [|b s]; [discriminate|].
    destruct (Ascii.eqb a b) eqn:E; [|discriminate].
    apply Ascii.eqb_eq in E. subst b. intros H. now rewrite (IH _ _ H).
Qed.

Lemma directiveWord_Some line w :
  directiveWord line = Some w ->
  line = "Mode: " +:+ w /\ w <> EmptyString /\
  Mime.allChars isWordChar w = true.
Proof.
  unfold directiveWord.
  destruct (stripPrefix "Mode: " line) as [r|] eqn:E; [|discriminate].
  apply stripPrefix_Some in E. unfold wordLine.
  destruct r as [|x r']; [discriminate|].
  destruct (Mime.allChars isWordChar (String x r')) eqn:Ew; [|discriminate].
  intros [= <-]. repeat split; [assumption|discriminate|assumption].
Qed.

Lemma firstDirective_Some ls w :
  firstDirective ls = Some w ->
  In ("Mode: " +:+ w) ls /\ w <> EmptyString /\
  Mime.allChars isWordChar w = true.
Proof.
  induction ls as [|l ls IH]; [discriminate|]. cbn [firstDirective].
  destruct (directiveWord l) as [w'|] eqn:E.
  - intros [= ->]. destruct (directiveWord_Some _ _ E) as (-> & Hne & Hw).
    repeat split; [now left|assumption|assumption].
  - intros H. destruct (IH H) as (Hin & Hne & Hw).
    repeat split; [now right|assumption|assumption].
Qed.

Lemma seeds_head script : forall s st,
  script <> [] ->
  exists rest, seeds (runEditorMode quote script s st) = s :: rest.
Proof.
  destruct script as [|[t|e] script]; intros s st Hne; [congruence| |].
  - cbn [runEditorMode]. destruct (validate quote t); simpl; eauto.
  - simpl. eauto.
Qed.

Lemma recognized_dec mode :
  recognized mode <->
  (String.eqb mode "send" || String.eqb mode "draft" ||
   String.eqb mode "abort") = true.
Proof.
  unfold recognized. rewrite !orb_true_iff, !String.eqb_eq. tauto.
Qed.

(** The loop body, with the regular expression read as "the first line of
    the form [Mode: <word>]". *)
Lemma validate_lines s :
  validate quote s =
  match SplitN2 s with
  | None => Retry (Some "Malformed email, reopening editor")
  | Some (header, _) =>
      match firstDirective (splitLines header) with
      | None => Retry (Some ("Sending mode not present in " +:+
                             quote header +:+ ", trying again"))
      | Some w =>
          if String.eqb (ToLower w) "send" then Accept (ToLower w) None
          else if String.eqb (ToLower w) "draft" then Accept (ToLower w) None
          else if String.eqb (ToLower w) "abort"
               then Accept (ToLower w) (Some "Sending aborted")
          else Retry None
      end
  end.
Proof.
  unfold validate. destruct (SplitN2 s) as [[header body]|]; [|reflexivity].
  now rewrite FindStringSubmatch_lines.
Qed.

(** C4. A text returned by the editor leaves the loop only if it splits
    at its first blank line into header and body and the first line of
    the header of the form [Mode: <word>] carries a word that, lowered,
    is [send], [draft] or [abort]; a text without blank line, without such
    a line, or with another word makes the loop call the editor again
    with that text as seed; and [abort] returns at once with mode
    [abort], after which [messagesCmdCompose] issues no remote call. *)
Theorem mode_loop_validation
  (s input st : string) (script : list (res string)) :
  (forall mode upd, validate quote s = Accept mode upd ->
     exists header body w,
       SplitN2 s = Some (header, body) /\
       s = header +:+ LF +:+ LF +:+ body /\
       SplitN2 (header +:+ LF) = None /\
       firstDirective (splitLines header) = Some w /\
       In ("Mode: " +:+ w) (splitLines header) /\
       mode = ToLower w /\ recognized mode /\
       runEditorMode quote (OK s :: script) input st =
         mkRun [input] (newStatus st upd) (Returned mode s)) /\
  ((SplitN2 s = None \/
    exists header body, SplitN2 s = Some (header, body) /\
      forall w, firstDirective (splitLines header) = Some w ->
                ~ recognized (ToLower w)) ->
   exists upd, validate quote s = Retry upd /\
     (let r := runEditorMode quote script s (newStatus st upd) in
      runEditorMode quote (OK s :: script) input st =
        mkRun (input :: seeds r) (status r) (ending r)) /\
     (script <> [] ->
      exists rest,
        seeds (runEditorMode quote (OK s :: script) input st) =
        input :: s :: rest)) /\
  (forall header body w,
     SplitN2 s = Some (header, body) ->
     firstDirective (splitLines header) = Some w ->
     ToLower w = "abort" ->
     runEditorMode quote (OK s :: script) input st =
       mkRun [input] "Sending aborted" (Returned "abort" s) /\
     forall signature send,
       messagesCmdCompose quote signature (OK s :: script) send =
       Some ([], "Sending aborted")).
Proof.
  split; [|split].
  - intros mode upd Hv. cbn [runEditorMode]. rewrite Hv.
    rewrite validate_lines in Hv.
    destruct (SplitN2 s) as [[header body]|] eqn:Es; [|discriminate].
    destruct (firstDirective (splitLines header)) as [w|] eqn:Ew;
      [|discriminate].
    destruct (SplitN2_Some _ _ _ Es) as [Hs Hfirst].
    destruct (firstDirective_Some _ _ Ew) as (Hin & _ & _).
    exists header, body, w.
    assert (Hm : mode = ToLower w /\ recognized mode).
    { destruct (String.eqb (ToLower w) "send") eqn:E1;
        [injection Hv as <- _; apply String.eqb_eq in E1;
         split; [reflexivity | left; assumption]|].
      destruct (String.eqb (ToLower w) "draft") eqn:E2;
        [injection Hv as <- _; apply String.eqb_eq in E2;
         split; [reflexivity | right; left; assumption]|].
      destruct (String.eqb (ToLower w) "abort") eqn:E3;
        [injection Hv as <- _; apply String.eqb_eq in E3;
         split; [reflexivity | right; right; assumption]|].
      discriminate. }
    destruct Hm as [Hm Hr]. repeat split; assumption || reflexivity.
  - intros Hbad.
    assert (Hret : exists upd, validate quote s = Retry upd).
    { rewrite validate_lines.
      destruct Hbad as [->|(header & body & -> & Hw)]; [eauto|].
      destruct (firstDirective (splitLines header)) as [w|]; [|eauto].
      specialize (Hw w eq_refl). rewrite recognized_dec in Hw.
      apply not_true_is_false in Hw.
      apply orb_false_iff in Hw as [Hw H3].
      apply orb_false_iff in Hw as [H1 H2].
      rewrite H1, H2, H3. eauto. }
    destruct Hret as [upd Hv]. exists upd. split; [assumption|].
    cbn [runEditorMode]. rewrite Hv. split; [reflexivity|].
    intros Hne. destruct (seeds_head script s (newStatus st upd) Hne)
      as [rest Hrest].
    exists rest. cbn [seeds]. now rewrite Hrest.
  - intros header body w Es Ew Hab.
    assert (Hv : validate quote s = Accept "abort" (Some "Sending aborted")).
    { rewrite validate_lines, Es, Ew, Hab. reflexivity. }
    split.
    + cbn [runEditorMode]. rewrite Hv. reflexivity.
    + intros signature send. unfold messagesCmdCompose.
      cbn [runEditorMode]. rewrite Hv. reflexivity.
Qed.

End EditorFacts.

Lemma mode_loop_validation_witness :
  (exists header body w,
     Editor.SplitN2 ("Mode: Send" +:+ Editor.LF +:+ Editor.LF +:+ "body") =
       Some (header, body) /\
     Editor.firstDirective (Editor.splitLines header) = Some w /\
     w = "Send") /\
  (exists rest,
     Editor.seeds
       (Editor.runEditorMode Sample.quoteId
          [OK ("To: x" +:+ Editor.LF +:+ "Subject: y" +:+ Editor.LF +:+
               Editor.LF +:+ "body");
           OK ("Mode: Abort" +:+ Editor.LF +:+ Editor.LF +:+ "ignored")]
          "seed" "Running editor") =
     "seed" :: ("To: x" +:+ Editor.LF +:+ "Subject: y" +:+ Editor.LF +:+
                Editor.LF +:+ "body") :: rest) /\
  Editor.messagesCmdCompose Sample.quoteId "Best regards"
    [OK ("Mode: Abort" +:+ Editor.LF +:+ Editor.LF +:+ "ignored")] None =
  Some ([], "Sending aborted").
Proof.
  split; [|split].
  - destruct (proj1 (mode_loop_validation Sample.quoteId
                ("Mode: Send" +:+ Editor.LF +:+ Editor.LF +:+ "body")
                "seed" "Running editor" [])
              "send" None eq_refl)
      as (header & body & w & Hs & _ & _ & Hw & _ & _ & _ & _).
    exists header, body, w. split; [exact Hs|]. split; [exact Hw|].
    vm_compute in Hs. injection Hs as <- _. vm_compute in Hw.
    now injection Hw as <-.
  - destruct (proj1 (proj2 (mode_loop_validation Sample.quoteId
                ("To: x" +:+ Editor.LF +:+ "Subject: y" +:+ Editor.LF +:+
                 Editor.LF +:+ "body")
                "seed" "Running editor"
                [OK ("Mode: Abort" +:+ Editor.LF +:+ Editor.LF +:+
                     "ignored")])))
      as (upd & _ & _ & Hseeds).
    + right. exists ("To: x" +:+ Editor.LF +:+ "Subject: y"), "body".
      split; [reflexivity|]. intros w Hw. vm_compute in Hw. discriminate.
    + apply Hseeds. discriminate.
  - apply (proj2 (proj2 (mode_loop_validation Sample.quoteId
             ("Mode: Abort" +:+ Editor.LF +:+ Editor.LF +:+ "ignored")
             "seed" "Running editor" []))
           "Mode: Abort" "ignored" "Abort"); reflexivity.
Defined.

(** ** File navigator *)
Section FileNavFacts.
Import FileNav.

Lemma string_compare_cons x y (a b : string) :
  String.compare (String x a) (String y b) =
  match Ascii.compare x y with
  | Eq => String.compare a b
  | Lt => Lt
  | Gt => Gt
  end.
Proof. reflexivity. Qed.

Lemma string_compare_refl a : String.compare a a = Eq.
Proof.
  induction a as [|x a IH]; [reflexivity|].
  rewrite string_compare_cons. unfold Ascii.compare.
  now rewrite N.compare_refl.
Qed.

Lemma string_compare_lt_trans a : forall b c,
  String.compare a b = Lt -> String.compare b c = Lt ->
  String.compare a c = Lt.
Proof.
  induction a as [|x a IH]; intros [|y b] [|z c]; try discriminate;
    try reflexivity.
  rewrite !string_compare_cons. unfold Ascii.compare.
  destruct (N.compare_spec (N_of_ascii x) (N_of_ascii y)) as [Exy|Lxy|Gxy];
    destruct (N.compare_spec (N_of_ascii y) (N_of_ascii z)) as [Eyz|Lyz|Gyz];
    try discriminate; intros Hab Hbc.
  - rewrite Exy, Eyz, N.compare_refl. eauto.
  - rewrite Exy. now apply N.compare_lt_iff in Lyz as ->.
  - rewrite <- Eyz. now apply N.compare_lt_iff in Lxy as ->.
  - assert (H : (N_of_ascii x < N_of_ascii z)%N) by lia.
    now apply N.compare_lt_iff in H as ->.
Qed.

Lemma string_leb_trans a b c :
  String.leb a b = true -> String.leb b c = true -> String.leb a c = true.
Proof.
  unfold String.leb.
  destruct (String.compare a b) eqn:Eab; try discriminate;
    destruct (String.compare b c) eqn:Ebc; try discriminate; intros _ _.
  - apply String.compare_eq_iff in Eab, Ebc. subst.
    now rewrite string_compare_refl.
  - apply String.compare_eq_iff in Eab. subst. now rewrite Ebc.
  - apply String.compare_eq_iff in Ebc. subst. now rewrite Eab.
  - now rewrite (string_compare_lt_trans _ _ _ Eab Ebc).
Qed.

Lemma string_ltb_false a b :
  String.ltb b a = false <-> String.leb a b = true.
Proof.
  unfold String.ltb, String.leb. rewrite (String.compare_antisym a b).
  destruct (String.compare b a); simpl; split; congruence.
Qed.

(** [notAfter] in terms of the directory flag and the name. *)
Lemma notAfter_spec a b :
  notAfter a b <->
  (IsDir a = true /\ IsDir b = false) \/
  (IsDir a = IsDir b /\ nameLe a b).
Proof.
  unfold notAfter, Less, nameLe. rewrite <- string_ltb_false.
  destruct (IsDir a), (IsDir b); simpl; split;
    intros H; try tauto; try discriminate; try (right; tauto);
    try (left; tauto);
    destruct H as [[? ?]|[? ?]]; try discriminate; assumption.
Qed.

Lemma notAfter_trans a b c : notAfter a b -> notAfter b c -> notAfter a c.
Proof.
  rewrite !notAfter_spec. unfold nameLe.
  intros [[Ha Hb]|[Hab Hn1]] [[Hb' Hc]|[Hbc Hn2]].
  - congruence.
  - left. split; congruence.
  - left. split; congruence.
  - right. split; [congruence|]. eapply string_leb_trans; eassumption.
Qed.

Lemma notAfter_total a b : notAfter a b \/ notAfter b a.
Proof.
  rewrite !notAfter_spec. unfold nameLe.
  destruct (String.leb_total (Name a) (Name b)) as [H|H];
    destruct (IsDir a), (IsDir b); tauto.
Qed.

(** In a list sorted by [Less] the directories come first. *)
Lemma sorted_dirs_first l :
  StronglySorted notAfter l ->
  l = List.filter IsDir l ++ List.filter (fun f => negb (IsDir f)) l.
Proof.
  induction 1 as [|a l Hs IH Hall]; [reflexivity|]. simpl.
  destruct (IsDir a) eqn:Ea; simpl.
  - now rewrite <- IH.
  - assert (Hnone : Forall (fun f => IsDir f = false) l).
    { eapply List.Forall_impl; [|exact Hall]. simpl. intros b Hb.
      apply notAfter_spec in Hb as [[Hd _]|[Hd _]]; congruence. }
    assert (H12 : List.filter IsDir l = [] /\
                  List.filter (fun f => negb (IsDir f)) l = l).
    { clear IH Hs Hall.
      induction Hnone as [|b l Hb _ [IH1 IH2]]; [now split|].
      simpl. rewrite Hb. simpl. now rewrite IH1, IH2. }
    destruct H12 as [-> ->]. reflexivity.
Qed.

Lemma StronglySorted_filter {A} (R : A -> A -> Prop) (P : A -> bool) l :
  StronglySorted R l -> StronglySorted R (List.filter P l).
Proof.
  induction 1 as [|a l Hs IH Hall]; simpl; [constructor|].
  destruct (P a); [|assumption]. constructor; [assumption|].
  rewrite List.Forall_forall in *. intros x Hx.
  apply List.filter_In in Hx as [Hx _]. now apply Hall.
Qed.

(** Within one group the order is the order of the names. *)
Lemma sorted_group_by_name d l :
  StronglySorted notAfter l -> Forall (fun f => IsDir f = d) l ->
  StronglySorted nameLe l.
Proof.
  induction 1 as [|a l Hs IH Hall]; intros Hd; [constructor|].
  apply List.Forall_cons_iff in Hd as [Ha Hd].
  constructor; [now apply IH|].
  rewrite List.Forall_forall in *. intros x Hx.
  specialize (Hall x Hx). specialize (Hd x Hx).
  apply notAfter_spec in Hall as [[H1 H2]|[_ Hn]]; [congruence|assumption].
Qed.

Lemma filter_Forall {A} (P : A -> bool) l :
  Forall (fun x => P x = true) (List.filter P l).
Proof.
  rewrite List.Forall_forall. intros x Hx.
  now apply List.filter_In in Hx.
Qed.

Section ReadDirFacts.
Variable os_Stat : string -> res FileInfo.
Variable ioutil_ReadDir : string -> res (list FileInfo).
Variable path_Join : string -> string -> string.
Variable sort_Sort : list FileInfo -> list FileInfo.

(** The contract of [sort.Sort]: the data is permuted and ends up
    sorted in the sense of [sort.IsSorted]. *)
Hypothesis sort_Sort_permutes : forall l, Permutation (sort_Sort l) l.
Hypothesis sort_Sort_sorts : forall l, Sorted notAfter (sort_Sort l).

(** C6. For a directory whose two stat calls and listing succeed,
    [readDir] returns the entries [.] and [..] first, then a permutation
    of the listed entries in which all directories precede all
    non-directories and each of the two groups is in lexicographic order
    of names. *)
Theorem readDir_dots_dirs_files
  (d : string) (dot dots : FileInfo) (children : list FileInfo) :
  os_Stat (path_Join d ".") = OK dot ->
  os_Stat (path_Join d "..") = OK dots ->
  ioutil_ReadDir d = OK children ->
  exists dirs files,
    readDir os_Stat ioutil_ReadDir path_Join sort_Sort d =
      OK (dotDirs "." dot :: dotDirs ".." dots :: dirs ++ files) /\
    Name (dotDirs "." dot) = "." /\ Name (dotDirs ".." dots) = ".." /\
    Permutation (dirs ++ files) children /\
    Forall (fun f => IsDir f = true) dirs /\
    Forall (fun f => IsDir f = false) files /\
    StronglySorted nameLe dirs /\ StronglySorted nameLe files.
Proof.
  intros Hdot Hdots Hlist.
  set (s := sort_Sort children).
  assert (Hs : StronglySorted notAfter s).
  { apply Sorted_StronglySorted; [|apply sort_Sort_sorts].
    intros a b c. apply notAfter_trans. }
  exists (List.filter IsDir s), (List.filter (fun f => negb (IsDir f)) s).
  assert (Hfiles : Forall (fun f => IsDir f = false)
                     (List.filter (fun f => negb (IsDir f)) s)).
  { eapply List.Forall_impl; [|apply filter_Forall]. simpl.
    intros f Hf. now apply negb_true_iff in Hf. }
  repeat split.
  - unfold readDir. rewrite Hdot, Hdots, Hlist.
    fold s. now rewrite <- (sorted_dirs_first s Hs).
  - rewrite <- (sorted_dirs_first s Hs). apply sort_Sort_permutes.
  - apply filter_Forall.
  - exact Hfiles.
  - apply (sorted_group_by_name true);
      [now apply StronglySorted_filter | apply filter_Forall].
  - apply (sorted_group_by_name false);
      [now apply StronglySorted_filter | exact Hfiles].
Qed.

End ReadDirFacts.

Lemma insert_permutation x l : Permutation (insert x l) (x :: l).
Proof.
  induction l as [|y l IH]; simpl; [reflexivity|].
  destruct (Less y x); [|reflexivity].
  rewrite IH. apply perm_swap.
Qed.

Lemma insertionSort_permutes l : Permutation (insertionSort l) l.
Proof.
  induction l as [|x l IH]; simpl; [reflexivity|].
  rewrite insert_permutation. now constructor.
Qed.

Lemma insert_sorted x l : Sorted notAfter l -> Sorted notAfter (insert x l).
Proof.
  induction 1 as [|y l Hs IH Hhd]; simpl.
  - repeat constructor.
  - destruct (Less y x) eqn:E.
    + constructor; [assumption|].
      destruct l as [|z l]; simpl in *.
      * constructor. destruct (notAfter_total y x) as [H|H]; [assumption|].
        unfold notAfter in H. congruence.
      * destruct (Less z x).
        -- constructor. now inversion Hhd.
        -- constructor. destruct (notAfter_total y x) as [H|H]; [assumption|].
           unfold notAfter in H. congruence.
    + constructor; [now constructor|]. constructor. exact E.
Qed.

Lemma insertionSort_sorts l : Sorted notAfter (insertionSort l).
Proof.
  induction l as [|x l IH]; simpl; [constructor|]. now apply insert_sorted.
Qed.

Lemma readDir_dots_dirs_files_witness :
  exists dirs files,
    readDir Sample.statAny Sample.readDirHome Sample.joinSlash
            insertionSort "/home" =
      OK (dotDirs "." (Sample.file "/home/." true) ::
          dotDirs ".." (Sample.file "/home/.." true) :: dirs ++ files) /\
    map Name (dirs ++ files) = ["z"; "a.txt"; "b.txt"].
Proof.
  destruct (readDir_dots_dirs_files Sample.statAny Sample.readDirHome
              Sample.joinSlash insertionSort
              insertionSort_permutes insertionSort_sorts
              "/home" (Sample.file "/home/." true)
              (Sample.file "/home/.." true)
              [Sample.file "a.txt" false; Sample.file "b.txt" false;
               Sample.file "z" true]
              eq_refl eq_refl eq_refl)
    as (dirs & files & Hread & _).
  exists dirs, files. split; [exact Hread|].
  assert (Hc : readDir Sample.statAny Sample.readDirHome Sample.joinSlash
                 insertionSort "/home" =
               OK (dotDirs "." (Sample.file "/home/." true) ::
                   dotDirs ".." (Sample.file "/home/.." true) ::
                   [Sample.file "z" true; Sample.file "a.txt" false;
                    Sample.file "b.txt" false])) by reflexivity.
  rewrite Hc in Hread. injection Hread as Hread. rewrite <- Hread.
  reflexivity.
Defined.

(** The listing of the specification's example directory. *)
Example readDir_example :
  match readDir Sample.statAny Sample.readDirHome Sample.joinSlash
                insertionSort "/home" with
  | OK l => map Name l = ["."; ".."; "z"; "a.txt"; "b.txt"]
  | Err _ => False
  end.
Proof. reflexivity. Qed.

End FileNavFacts.

(** ** Detail viewer *)
Section DetailFacts.
Import ListModel Detail.
Variable decodeError : string -> string.

Ltac pow2 :=
  change (2 ^ 61) with 2305843009213693952 in *;
  change (2 ^ 63) with 9223372036854775808 in *;
  change (2 ^ 64) with 18446744073709551616 in *.

Lemma wrap64_id z : - 2 ^ 63 <= z < 2 ^ 63 -> wrap64 z = z.
Proof.
  intros H. unfold wrap64. pow2. rewrite Z.mod_small; lia.
Qed.

Lemma clampScroll_bounds maxScroll s :
  0 <= clampScroll maxScroll s <= Z.max 0 maxScroll.
Proof.
  unfold clampScroll.
  destruct (Z.ltb_spec maxScroll s);
    match goal with |- context [?a <? 0] => destruct (Z.ltb_spec a 0) end;
    lia.
Qed.

Lemma clampScroll_zero maxScroll : clampScroll maxScroll 0 = 0.
Proof.
  unfold clampScroll.
  destruct (Z.ltb_spec maxScroll 0);
    match goal with |- context [?a <? 0] => destruct (Z.ltb_spec a 0) end;
    lia.
Qed.

Lemma openMessageDraw_ok h l scroll d :
  openMessageDraw decodeError h l scroll = Done d -> drawnOk decodeError h scroll d.
Proof.
  unfold openMessageDraw.
  destruct (index (messages l) (current l)) as [m| |]; simpl;
    [|discriminate|discriminate].
  match goal with |- context [if ?b then _ else _] => destruct b end;
    [|discriminate].
  intros [= <-]. unfold drawnOk. cbn [shown scrollY visible].
  split; [|split].
  - intros [Hh Ht]. unfold padding in *.
    rewrite (wrap64_id (_ - h)) by (pow2; lia).
    rewrite wrap64_id by (pow2; lia).
    apply clampScroll_bounds.
  - reflexivity.
  - intros ->. apply clampScroll_zero.
Qed.

Lemma runCmd_ok h v c v' d :
  runCmd decodeError h v c = Done (v', d) ->
  vscroll v' = scrollY d /\
  exists scroll0, drawnOk decodeError h scroll0 d /\ (resets c -> scroll0 = 0).
Proof.
  assert (Hdraw : forall l scroll,
    (let* d0 := openMessageDraw decodeError h l scroll in
     Done (mkView l (scrollY d0), d0)) = Done (v', d) ->
    vscroll v' = scrollY d /\ drawnOk decodeError h scroll d).
  { intros l scroll.
    destruct (openMessageDraw decodeError h l scroll) as [d0| |] eqn:E;
      simpl; [|discriminate|discriminate].
    intros [= <- <-]. split; [reflexivity|].
    now apply (openMessageDraw_ok h l scroll). }
  unfold resets.
  destruct c; cbn [runCmd]; intros H;
    try (destruct (index (messages (vlist v)) (current (vlist v)))
           as [m| |]; simpl in H; [|discriminate|discriminate]);
    apply Hdraw in H as [Hv Hd]; (split; [exact Hv|]);
    eexists; (split; [exact Hd|]);
    first [ intros _; reflexivity
          | intros [?|[?|[?|?]]]; discriminate ].
Qed.

Lemma runCmds_snoc cs : forall v last c h,
  runCmds decodeError v last (cs ++ [(c, h)]) =
  (let* r := runCmds decodeError v last cs in
   let* r' := runCmd decodeError h (fst r) c in
   Done (fst r', Some (snd r'))).
Proof.
  induction cs as [|[c0 h0] cs IH]; intros v last c h; simpl.
  - destruct (runCmd decodeError h v c) as [[v' d]| |]; reflexivity.
  - destruct (runCmd decodeError h0 v c0) as [[v' d]| |]; simpl;
      [apply IH | reflexivity | reflexivity].
Qed.

(** C7. After any sequence of open, page, line-scroll, next, previous
    and mark keys, the offset the view was last rendered with lies in
    [0, max(0, total - h + padding)], with [padding] the constant 10,
    [total] the number of body lines of the message shown and [h] the
    height at that key; it is the value left in [openMessageScrollY];
    the rendered lines start at that offset; and a key that opens an
    item renders it at offset 0. *)
Theorem scroll_offset_clamped
  (cs : list (viewCmd * Z)) (c : viewCmd) (h : Z)
  (v0 v : view) (last0 : option drawn) (d : drawn) :
  runCmds decodeError v0 last0 (cs ++ [(c, h)]) = Done (v, Some d) ->
  noOverflow h (Z.of_nat (length (bodyLines decodeError (shown d)))) ->
  0 <= scrollY d <=
    Z.max 0 (Z.of_nat (length (bodyLines decodeError (shown d))) - h
             + padding) /\
  vscroll v = scrollY d /\
  visible d = drop (Z.to_nat (scrollY d)) (bodyLines decodeError (shown d)) /\
  (resets c -> scrollY d = 0).
Proof.
  rewrite runCmds_snoc.
  destruct (runCmds decodeError v0 last0 cs) as [[v1 last1]| |]; simpl;
    [|discriminate|discriminate].
  destruct (runCmd decodeError h v1 c) as [[v' d']| |] eqn:E; simpl;
    [|discriminate|discriminate].
  intros [= <- <-] Hno.
  destruct (runCmd_ok _ _ _ _ _ E) as (Hv & scroll0 & (Hb & Hvis & Hz) & Hr).
  destruct (Hb Hno) as [Hlo Hhi].
  split; [split; assumption|]. split; [assumption|].
  split; [assumption|]. intros Hc. apply Hz, Hr, Hc.
Qed.

End DetailFacts.

Lemma scroll_offset_clamped_witness :
  exists v d,
    Detail.runCmds Sample.noError
      (Detail.mkView (Sample.oneLetter 29) 0) None
      ([(Detail.CmdOpen, 12); (Detail.CmdPageDown, 12);
        (Detail.CmdPageDown, 12)] ++ [(Detail.CmdPageDown, 12)]) =
      Done (v, Some d) /\
    Detail.scrollY d = 28 /\ Detail.vscroll v = 28.
Proof.
  eexists. eexists. split; [vm_compute; reflexivity|].
  match goal with
  | |- Detail.scrollY ?d = _ /\ Detail.vscroll ?v = _ =>
      destruct (scroll_offset_clamped Sample.noError
                  [(Detail.CmdOpen, 12); (Detail.CmdPageDown, 12);
                   (Detail.CmdPageDown, 12)]
                  Detail.CmdPageDown 12
                  (Detail.mkView (Sample.oneLetter 29) 0) v None d)
        as (_ & Hv & _)
  end.
  - vm_compute. reflexivity.
  - vm_compute. repeat split; discriminate.
  - split; [reflexivity | exact Hv].
Defined.

(** In a view lower than the padding the clamped offset can exceed the
    number of body lines, and the slice expression panics. *)
Example openMessageDraw_low_view_panics :
  Detail.runCmd Sample.noError 5
    (Detail.mkView (Sample.oneLetter 0) 0) Detail.CmdPageDown = Panic.
Proof. vm_compute. reflexivity. Qed.

(** ** Row timestamps *)
Section TimeStringFacts.
Import TimeString.

(** C8. The claim fails on the code for a date within the last year that
    falls on the same day of the month as today: [timestring] compares
    [Day()] only.  With the clock at 15 April 2015, 12:00 UTC, a message
    dated 15 March 2015, 10:00 UTC is 31 days old, on a different day,
    and is rendered as hour and minute instead of month and day. *)
Theorem timestring_same_day_of_month_renders_clock :
  Date (clock 2015 3 15 10 0 0 0) = (2015, 3, 15) /\
  Date Sample.aprilNoon = (2015, 4, 15) /\
  Since Sample.aprilNoon (clock 2015 3 15 10 0 0 0) = (31 * 24 + 2) * Hour /\
  timestring Sample.parseMarch Sample.aprilNoon Sample.marchLetter = "10:00" /\
  FormatJan02 (clock 2015 3 15 10 0 0 0) = "Mar 15".
Proof. repeat split; vm_compute; reflexivity. Qed.

(** The three branches of [timestring] on inputs where they agree with
    the specification: older than 365 days, another day of the month,
    the same day. *)
Example timestring_branches :
  timestring Sample.parseMarch (clock 2017 3 16 12 0 0 0)
             Sample.marchLetter = "2015" /\
  timestring Sample.parseMarch (clock 2015 3 16 12 0 0 0)
             Sample.marchLetter = "Mar 15" /\
  timestring Sample.parseMarch (clock 2015 3 15 12 0 0 0)
             Sample.marchLetter = "10:00" /\
  timestring Sample.parseMarch (clock 2015 3 15 12 0 0 0)
             (Sample.msg "a") = "Unknown".
Proof. repeat split; vm_compute; reflexivity. Qed.

End TimeStringFacts.

(** * Part III: further properties of the code *)

(** Case analysis on every integer comparison the goal tests. *)
Ltac split_comparisons :=
  repeat first
    [ match goal with
      | |- context [(?x =? ?y)%Z] => destruct (Z.eqb_spec x y)
      end
    | match goal with
      | |- context [(?x <? ?y)%Z] => destruct (Z.ltb_spec x y)
      end
    | match goal with
      | |- context [(?x <=? ?y)%Z] => destruct (Z.leb_spec x y)
      end ].

(** ** The coordinator always finishes *)
Section ScheduleFacts.
Context {St : Type}.
Import Parallel Schedule.
Implicit Types (ws : list (@outcome St)) (st : St) (c : @config St).

Lemma remaining_insert (l : list (@worker St)) : forall j w w',
  l !! j = Some w ->
  (remaining (<[j := w']> l) + weight w = remaining l + weight w')%nat.
Proof.
  unfold remaining.
  induction l as [|x l IH]; intros [|j] w w' Hj; simpl in *; try discriminate.
  - injection Hj as ->. lia.
  - specialize (IH _ _ w' Hj). lia.
Qed.

Lemma remaining_init ws st :
  remaining (chans (init ws st)) = (2 * length ws)%nat.
Proof.
  unfold remaining. simpl. induction ws as [|o ws IH]; simpl; lia.
Qed.

Lemma nsteps_bound n : forall (p q : @proc St),
  nsteps n p q ->
  match p with
  | Live c => (n <= remaining (chans c) + 1)%nat
  | Exited _ => n = O
  end.
Proof.
  induction n as [|n IH]; intros p q H; inversion H; subst.
  - destruct q; [lia | reflexivity].
  - specialize (IH _ _ H2).
    match goal with Hs : step _ _ |- _ => inversion Hs; subst end.
    + simpl in IH.
      pose proof (remaining_insert _ _ _ (Blocked f) H0) as Hr.
      simpl in Hr. lia.
    + subst. lia.
    + simpl in IH.
      pose proof (remaining_insert _ _ _ Finished H0) as Hr.
      simpl in Hr. lia.
Qed.

Lemma nsteps_steps n : forall (p q : @proc St), nsteps n p q -> steps p q.
Proof.
  induction n as [|n IH]; intros p q H; inversion H; subst.
  - constructor.
  - eapply steps_step; eauto.
Qed.

(** The message the process exits with is that of one of the workers. *)
Lemma exit_message_from_worker ws st (p q : @proc St) :
  steps p q -> forall c msg, p = Live c -> q = Exited msg ->
  inv ws st c -> In (Fatal msg) ws.
Proof.
  induction 1 as [p|p q r Hpq Hqr IH]; intros c msg -> Hq Hinv.
  - discriminate.
  - inversion Hpq; subst.
    + eapply IH; [reflexivity | reflexivity |].
      eapply inv_step; [exact Hinv | exact Hpq].
    + assert (Hmsg : msg0 = msg).
      { inversion Hqr; subst; [congruence|].
        match goal with Hs : step (Exited _) _ |- _ => inversion Hs end. }
      subst msg0. destruct Hinv as [_ _ _ _ Hch].
      match goal with
      | Hj : chans c !! _ = Some (Running (Fatal msg)) |- _ =>
          destruct (Hch _ _ Hj) as [_ Hws]
      end.
      apply list_elem_of_In, list_elem_of_lookup. eauto.
    + eapply IH; [reflexivity | reflexivity |].
      eapply inv_step; [exact Hinv | exact Hpq].
Qed.

(** X1. Whatever the schedule, a batch of n workers makes at most 2n+1
    moves, and a live configuration in which [run] has not yet returned
    can always make another one: [run] returns or the process exits. *)
Theorem coordinator_always_finishes ws st n (p : @proc St) :
  nsteps n (Live (init ws st)) p ->
  (n <= 2 * length ws + 1)%nat /\
  match p with
  | Live c => returned c \/ exists q, step (Live c) q
  | Exited msg => In (Fatal msg) ws
  end.
Proof.
  intros H. split.
  - pose proof (nsteps_bound _ _ _ H) as Hb.
    change (n <= remaining (chans (init ws st)) + 1)%nat in Hb.
    rewrite remaining_init in Hb. exact Hb.
  - apply nsteps_steps in H. destruct p as [c|msg].
    + pose proof (inv_reachable _ _ _ H) as Hinv.
      destruct (Nat.eq_dec (pc c) (length (chans c))) as [E|E];
        [left; exact E | right; now apply (progress ws st)].
    + eapply exit_message_from_worker; eauto using inv_init.
Qed.

End ScheduleFacts.

Lemma coordinator_always_finishes_witness :
  (4 <= 2 * 2 + 1)%nat /\
  (Parallel.returned Sample.inboxRun \/ exists q, Parallel.step (Parallel.Live Sample.inboxRun) q).
Proof.
  apply (coordinator_always_finishes
           (Batch.workers Sample.quoteId "archiving" Sample.failOnC
                          Sample.inbox)
           (Batch.mkVars "" 0 0 (ListModel.marked Sample.inbox))
           4 (Parallel.Live Sample.inboxRun)).
  eapply Schedule.nsteps_S.
  { eapply (Parallel.step_complete _ 1%nat). reflexivity. }
  eapply Schedule.nsteps_S.
  { eapply (Parallel.step_complete _ 0%nat). reflexivity. }
  eapply Schedule.nsteps_S.
  { eapply Parallel.step_recv. reflexivity. }
  eapply Schedule.nsteps_S.
  { eapply Parallel.step_recv. reflexivity. }
  apply Schedule.nsteps_O.
Defined.

(** ** Fetching and refreshing the list *)
Section ListMoreFacts.
Import Parallel ListModel.

Lemma applyAll_cons {St : Type} (o : @outcome St) ws st :
  applyAll (o :: ws) st = applyAll ws (action o st).
Proof. reflexivity. Qed.

Lemma listWorkers_fetch g msgs : forall ret,
  forallb isSend (map (listWorker g) msgs) = true ->
  exists fetched,
    Forall2 (fun m r => MessagesGet g (Id m) = OK r) msgs fetched /\
    applyAll (map (listWorker g) msgs) ret =
      mkList (current ret) (marked ret) (showDetails ret)
             (messages ret ++ fetched).
Proof.
  induction msgs as [|m msgs IH]; intros ret Hall.
  - exists []. split; [constructor|]. simpl. rewrite app_nil_r.
    now destruct ret.
  - cbn [map forallb] in Hall. apply andb_true_iff in Hall as [Hm Hall].
    cbn [map]. rewrite applyAll_cons.
    assert (Hw : listWorker g m =
                 match MessagesGet g (Id m) with
                 | Err e => Fatal ("Get message: " +:+ e)
                 | OK mres => Send (appendMessage mres)
                 end) by reflexivity.
    rewrite Hw in Hm |- *.
    destruct (MessagesGet g (Id m)) as [r|e] eqn:E; [|discriminate].
    destruct (IH (appendMessage r ret) Hall) as (fetched & HF & Happ).
    exists (r :: fetched). split; [now constructor|].
    cbn [action]. rewrite Happ. unfold appendMessage. cbn.
    now rewrite <- app_assoc.
Qed.

Lemma listWorkers_failed g msgs :
  forallb isSend (map (listWorker g) msgs) = false ->
  exists m e, In m msgs /\ MessagesGet g (Id m) = Err e.
Proof.
  induction msgs as [|m msgs IH]; [discriminate|].
  cbn [map forallb]. intros H. apply andb_false_iff in H as [H|H].
  - unfold listWorker in H.
    destruct (MessagesGet g (Id m)) as [r|e] eqn:E; [discriminate|].
    exists m, e. split; [now left | exact E].
  - destruct (IH H) as (m' & e & Hin & He).
    exists m', e. split; [now right | exact He].
Qed.

Lemma listMessages_shape g :
  match listMessages g with
  | Done ret => exists fetched, ret = mkList 0 ∅ false fetched
  | Exit => True
  | Panic => False
  end.
Proof.
  unfold listMessages, run.
  destruct (MessagesList g) as [msgs|e]; [|exact I].
  destruct (forallb isSend (map (listWorker g) msgs)) eqn:E; [|exact I].
  destruct (listWorkers_fetch g msgs (mkList 0 ∅ false []) E)
    as (fetched & _ & ->).
  now exists fetched.
Qed.

(** X2. [list] returns the fetched messages in the order of the listing,
    one per listed id, with cursor 0, no marks and details off; it ends
    the process exactly when the listing call or one of the fetches
    fails; it never panics. *)
Theorem listMessages_fetches_in_order (g : Service) :
  match listMessages g with
  | Done ret =>
      exists msgs fetched,
        MessagesList g = OK msgs /\
        Forall2 (fun m r => MessagesGet g (Id m) = OK r) msgs fetched /\
        ret = mkList 0 ∅ false fetched
  | Exit =>
      (exists e, MessagesList g = Err e) \/
      (exists msgs m e, MessagesList g = OK msgs /\ In m msgs /\
                        MessagesGet g (Id m) = Err e)
  | Panic => False
  end.
Proof.
  unfold listMessages, run.
  destruct (MessagesList g) as [msgs|e]; [|left; eauto].
  destruct (forallb isSend (map (listWorker g) msgs)) eqn:E.
  - destruct (listWorkers_fetch g msgs (mkList 0 ∅ false []) E)
      as (fetched & HF & Happ).
    exists msgs, fetched. split; [reflexivity|]. split; [exact HF|].
    rewrite Happ. reflexivity.
  - right. destruct (listWorkers_failed g msgs E) as (m & e & Hin & He).
    exists msgs, m, e. auto.
Qed.

(** X3. A refresh replaces the rows by the fetched ones, keeps the mark
    map, switches the details toggle off, and keeps the cursor when it
    still indexes a row; a cursor past the end moves to the last row (0
    on an empty list). *)
Theorem refreshMessages_cursor_rule
  (g : Service) (old : option messageList) (l : messageList) :
  refreshMessages g old = Done l ->
  let c0 := match old with Some m => current m | None => 0 end in
  exists new,
    listMessages g = Done new /\
    messages l = messages new /\
    marked l = match old with Some m => marked m | None => ∅ end /\
    showDetails l = false /\
    current l = (if c0 <? 0 then 0
                 else if c0 <? len l then c0
                 else Z.max 0 (len l - 1)).
Proof.
  unfold refreshMessages. pose proof (listMessages_shape g) as Hl.
  destruct (listMessages g) as [new| |]; simpl; [|discriminate|discriminate].
  destruct Hl as (fetched & ->).
  intros [= <-]. exists (mkList 0 ∅ false fetched).
  split; [reflexivity|]. split; [reflexivity|]. split; [reflexivity|].
  split; [reflexivity|].
  unfold fixCurrent, len. cbn [current messages].
  set (c0 := match old with Some m => current m | None => 0 end).
  set (n := Z.of_nat (length fetched)).
  assert (0 <= n) by (unfold n; lia).
  destruct (Z.leb_spec n c0); split_comparisons; lia.
Qed.

Lemma refreshMessages_cursor_rule_witness :
  exists new,
    listMessages (Sample.serving [Sample.msg "a"]) = Done new /\
    messages (mkList 0 (marked Sample.inbox) false [Sample.msg "a"]) =
      messages new /\
    current (mkList 0 (marked Sample.inbox) false [Sample.msg "a"]) = 0.
Proof.
  destruct (refreshMessages_cursor_rule (Sample.serving [Sample.msg "a"])
              (Some Sample.inbox)
              (mkList 0 (marked Sample.inbox) false [Sample.msg "a"])
              eq_refl)
    as (new & Hl & Hm & _ & _ & Hc).
  exists new. split; [exact Hl|]. split; [exact Hm|]. exact Hc.
Defined.

(** X4. The cursor does not wrap around: [next] on the last row and
    [prev] on the first row change nothing, elsewhere each undoes the
    other; neither touches rows, marks or the details toggle. *)
Theorem next_prev_no_wraparound (l : messageList) :
  cursorOk l ->
  (current l < len l - 1 -> prev (next l) = l) /\
  (0 < current l -> next (prev l) = l) /\
  (len l - 1 <= current l -> next l = l) /\
  (current l <= 0 -> prev l = l) /\
  messages (next l) = messages l /\ marked (next l) = marked l /\
  messages (prev l) = messages l /\ marked (prev l) = marked l.
Proof.
  intros Hok. destruct l as [c mk sd ms]. unfold cursorOk, next, prev, len in *.
  cbn [current marked showDetails messages] in *.
  repeat split.
  - intros H. destruct (Z.ltb_spec c (Z.of_nat (length ms) - 1)); [|lia].
    cbn [current marked showDetails messages].
    destruct (Z.ltb_spec 0 (c + 1)); [|destruct ms; simpl in *; lia].
    f_equal. lia.
  - intros H. destruct (Z.ltb_spec 0 c); [|lia].
    cbn [current marked showDetails messages].
    destruct (Z.ltb_spec (c - 1) (Z.of_nat (length ms) - 1));
      [|destruct ms; simpl length in *; lia].
    f_equal. lia.
  - intros H. destruct (Z.ltb_spec c (Z.of_nat (length ms) - 1)); [lia|].
    reflexivity.
  - intros H. destruct (Z.ltb_spec 0 c); [lia|]. reflexivity.
  - destruct (c <? Z.of_nat (length ms) - 1); reflexivity.
  - destruct (c <? Z.of_nat (length ms) - 1); reflexivity.
  - destruct (0 <? c); reflexivity.
  - destruct (0 <? c); reflexivity.
Qed.

Lemma next_prev_no_wraparound_witness :
  prev (next Sample.inbox) = Sample.inbox /\
  next (next Sample.inbox) = next Sample.inbox.
Proof.
  destruct (next_prev_no_wraparound Sample.inbox) as (H1 & _).
  { unfold cursorOk, len. simpl. lia. }
  destruct (next_prev_no_wraparound (next Sample.inbox)) as (_ & _ & H3 & _).
  { unfold cursorOk, len. simpl. lia. }
  split; [apply H1; reflexivity | apply H3; vm_compute; discriminate].
Defined.

(** X5. Header lookup is case-sensitive and first match wins: the value
    of the first header with exactly that name is returned, and the
    empty string when no header has that name. *)
Theorem getHeader_first_match (m : Message) (header : string) :
  (forall pre h post,
     Headers (Payload m) = pre ++ h :: post ->
     Forall (fun h' => Name h' <> header) pre ->
     Name h = header ->
     getHeader m header = Value h) /\
  (Forall (fun h' => Name h' <> header) (Headers (Payload m)) ->
   getHeader m header = "").
Proof.
  unfold getHeader. generalize (Headers (Payload m)) as hs. intros hs.
  assert (Hskip : forall pre rest,
    Forall (fun h' => Name h' <> header) pre ->
    findHeader (pre ++ rest) header = findHeader rest header).
  { induction pre as [|x pre IH]; intros rest Hpre; [reflexivity|].
    apply List.Forall_cons_iff in Hpre as [Hx Hpre]. simpl.
    destruct (String.eqb_spec (Name x) header) as [E|E]; [contradiction|].
    now apply IH. }
  split.
  - intros pre h post -> Hpre Hh. rewrite Hskip by assumption. simpl.
    apply String.eqb_eq in Hh. now rewrite Hh.
  - intros Hall. rewrite <- (app_nil_r hs), Hskip by assumption. reflexivity.
Qed.

Lemma getHeader_first_match_witness :
  getHeader Sample.marchLetter "Date" = Sample.marchDate /\
  getHeader Sample.marchLetter "date" = "".
Proof.
  destruct (getHeader_first_match Sample.marchLetter "Date") as [H1 _].
  destruct (getHeader_first_match Sample.marchLetter "date") as [_ H2].
  split.
  - apply (H1 [mkHeader "From" "a@example.org"]
              (mkHeader "Date" Sample.marchDate) []);
      [reflexivity | repeat constructor; discriminate | reflexivity].
  - apply H2. repeat constructor; discriminate.
Defined.

(** X6. With a valid cursor, the mark key panics exactly on an empty
    list (index out of range); on a non-empty list it toggles the mark of
    the row under the cursor, keeps the rows, moves the cursor one row
    down unless it is on the last row, and leaves the cursor valid. *)
Theorem messagesCmdMark_behaviour (l : messageList) :
  cursorOk l ->
  (messages l = [] -> messagesCmdMark l = Panic) /\
  (messages l <> [] ->
   exists m,
     messages l !! Z.to_nat (current l) = Some m /\
     messagesCmdMark l =
       Done (mkList (if current l <? len l - 1 then current l + 1
                     else current l)
                    (toggleMark (Id m) (marked l))
                    (showDetails l) (messages l)) /\
     cursorOk (mkList (if current l <? len l - 1 then current l + 1
                       else current l)
                      (toggleMark (Id m) (marked l))
                      (showDetails l) (messages l))).
Proof.
  intros Hok. unfold messagesCmdMark, index. split.
  - intros E. rewrite E. simpl.
    match goal with |- context [if ?b then _ else _] => destruct b end;
      reflexivity.
  - intros Hne. unfold cursorOk, len in Hok.
    destruct (messages l) as [|m0 ms] eqn:E; [congruence|].
    assert (Hlt : (Z.to_nat (current l) < length (m0 :: ms))%nat) by lia.
    destruct (lookup_lt_is_Some_2 _ _ Hlt) as [m Hm].
    exists m. split; [exact Hm|].
    destruct (Z.leb_spec 0 (current l)); [|lia].
    destruct (Z.ltb_spec (current l) (Z.of_nat (length (m0 :: ms)))); [|lia].
    cbn [andb]. rewrite Hm. cbn [bind]. unfold next, len.
    cbn [current marked showDetails messages]. rewrite E.
    split.
    + destruct (current l <? Z.of_nat (length (m0 :: ms)) - 1); reflexivity.
    + unfold cursorOk, len. cbn [current messages].
      destruct (Z.ltb_spec (current l) (Z.of_nat (length (m0 :: ms)) - 1));
        lia.
Qed.

Lemma messagesCmdMark_behaviour_witness :
  messagesCmdMark (mkList 0 ∅ false []) = Panic /\
  exists m, messages Sample.inbox !! 1%nat = Some m /\
    messagesCmdMark Sample.inbox =
      Done (mkList 2 (toggleMark (Id m) (marked Sample.inbox)) false
                   (messages Sample.inbox)).
Proof.
  split.
  - apply (messagesCmdMark_behaviour (mkList 0 ∅ false []));
      reflexivity.
  - destruct (messagesCmdMark_behaviour Sample.inbox) as [_ H].
    { unfold cursorOk, len. simpl. lia. }
    destruct H as (m & Hm & Hcmd & _); [discriminate|].
    exists m. split; [exact Hm | exact Hcmd].
Defined.

End ListMoreFacts.

(** ** The whole batch command *)
Section BatchMoreFacts.
Variable quote : string -> string.
Import Parallel ListModel Batch.

(** X7. [messagesCmdApply] panics on the nil list; otherwise it never
    panics, ends the process only if the refresh that follows the batch
    does, and else leaves the freshly fetched rows under a valid cursor.
    When every call succeeded no id is marked any more (marks of rows
    that are no longer listed included) and the status line counts the
    batch; when some call failed exactly the successfully handled rows
    lost their mark. *)
Theorem messagesCmdApply_outcome
  (g : Service) (verb : string) (f : string -> option string) :
  messagesCmdApply quote g verb f None = Panic /\
  forall l,
    match messagesCmdApply quote g verb f (Some l) with
    | Panic => False
    | Exit => listMessages g = Exit
    | Done (status, l') =>
        exists new,
          listMessages g = Done new /\ messages l' = messages new /\
          cursorOk l' /\
          (failures f l = 0 ->
           marked l' = ∅ /\
           status = "OK, " +:+ verb +:+ " " +:+
                    itoa (Z.of_nat (length (batch l))) +:+ " messages") /\
          (0 < failures f l ->
           forall id, isMarked (marked l') id = true <->
             isMarked (marked l) id = true /\
             ~ (In id (batch l) /\ f id = None))
    end.
Proof.
  split; [reflexivity|]. intros l.
  unfold messagesCmdApply, applyMarked, run. rewrite workers_all_send.
  set (v := applyAll _ _).
  destruct (applyAll_counts quote verb f (batch l)
              (mkVars "" 0 0 (marked l))) as [Hok Hfail].
  fold (workers quote verb f l) in Hok, Hfail. fold v in Hok, Hfail.
  simpl in Hok, Hfail. fold (failures f l) in Hok, Hfail.
  assert (Hk : 0 <= failures f l) by (unfold failures; lia).
  destruct (Z.ltb_spec 0 (fail v)) as [Hpos|Hzero].
  - destruct (refreshMessages g _) as [l'| |] eqn:Er; cbn [bind].
    + unfold refreshMessages in Er.
      destruct (listMessages g) as [new| |]; simpl in Er; try discriminate.
      injection Er as <-. exists new. split; [reflexivity|].
      split; [reflexivity|]. split; [apply cursorOk_fixCurrent|].
      split; [lia|]. intros _ id. cbn [marked fixCurrent].
      apply applyAll_marks.
    + unfold refreshMessages in Er.
      destruct (listMessages g); simpl in Er; try discriminate. reflexivity.
    + unfold refreshMessages in Er.
      pose proof (listMessages_shape g) as Hl.
      destruct (listMessages g); simpl in Er; try discriminate. exact Hl.
  - destruct (refreshMessages g _) as [l'| |] eqn:Er; cbn [bind].
    + unfold refreshMessages in Er.
      destruct (listMessages g) as [new| |]; simpl in Er; try discriminate.
      injection Er as <-. exists new. split; [reflexivity|].
      split; [reflexivity|]. split; [apply cursorOk_fixCurrent|].
      split; [|lia]. intros Hz. split; [reflexivity|].
      unfold okStatus. rewrite Hok, Hz. now rewrite Z.sub_0_r.
    + unfold refreshMessages in Er.
      destruct (listMessages g); simpl in Er; try discriminate. reflexivity.
    + unfold refreshMessages in Er.
      pose proof (listMessages_shape g) as Hl.
      destruct (listMessages g); simpl in Er; try discriminate. exact Hl.
Qed.

End BatchMoreFacts.

Lemma messagesCmdApply_outcome_witness :
  exists status l',
    Batch.messagesCmdApply Sample.quoteId
      (Sample.serving [Sample.msg "b"]) "archiving" (fun _ => None)
      (Some Sample.inbox) = Done (status, l') /\
    ListModel.marked l' = ∅ /\ status = "OK, archiving 2 messages".
Proof.
  pose proof (proj2 (messagesCmdApply_outcome Sample.quoteId
                       (Sample.serving [Sample.msg "b"]) "archiving"
                       (fun _ => None)) Sample.inbox) as H.
  destruct (Batch.messagesCmdApply Sample.quoteId
              (Sample.serving [Sample.msg "b"]) "archiving" (fun _ => None)
              (Some Sample.inbox)) as [[status l']| |] eqn:E;
    [|vm_compute in E; discriminate|destruct H].
  destruct H as (new & _ & _ & _ & Hz & _).
  exists status, l'. split; [reflexivity|]. apply Hz. reflexivity.
Defined.

(** ** More on the payload encoding *)
Section MimeMoreFacts.
Import Mime MimeAlphabet.

Lemma replaceByte_length a b s :
  String.length (replaceByte a b s) = String.length s.
Proof. induction s as [|c s IH]; simpl; congruence. Qed.

Lemma EncodeToString_length s :
  String.length (EncodeToString s) = (4 * ((String.length s + 2) / 3))%nat.
Proof.
  induction s as [|a|a b|a b c s IH] using string_ind3; try reflexivity.
  rewrite EncodeToString_3. cbn [String.length]. rewrite IH.
  replace (S (S (S (String.length s))) + 2)%nat
    with ((String.length s + 2) + 1 * 3)%nat by lia.
  rewrite Nat.div_add by discriminate. lia.
Qed.

Lemma safe_sextet0 a : safeSextet (sextet0 (N_of_ascii a)) = true.
Proof. revert a. apply forall1_spec. vm_compute. reflexivity. Qed.

Lemma safe_sextet1 a b :
  safeSextet (sextet1 (N_of_ascii a) (N_of_ascii b)) = true.
Proof. revert a b. apply forall2_spec. vm_compute. reflexivity. Qed.

Lemma safe_sextet2 b c :
  safeSextet (sextet2 (N_of_ascii b) (N_of_ascii c)) = true.
Proof. revert b c. apply forall2_spec. vm_compute. reflexivity. Qed.

Lemma safe_sextet3 c : safeSextet (sextet3 (N_of_ascii c)) = true.
Proof. revert c. apply forall1_spec. vm_compute. reflexivity. Qed.

Lemma mimeEncode_urlSafe s : allChars urlSafe (mimeEncode s) = true.
Proof.
  induction s as [|a|a b|a b c s IH] using string_ind3.
  - reflexivity.
  - change (allChars urlSafe (mimeEncode (String a EmptyString))) with
      (safeSextet (sextet0 (N_of_ascii a)) &&
       (safeSextet (sextet1 (N_of_ascii a) (N_of_ascii "000")) && true)).
    now rewrite safe_sextet0, safe_sextet1.
  - change (allChars urlSafe (mimeEncode (String a (String b EmptyString))))
      with
      (safeSextet (sextet0 (N_of_ascii a)) &&
       (safeSextet (sextet1 (N_of_ascii a) (N_of_ascii b)) &&
        (safeSextet (sextet2 (N_of_ascii b) (N_of_ascii "000")) && true))).
    now rewrite safe_sextet0, safe_sextet1, safe_sextet2.
  - change (allChars urlSafe
              (mimeEncode (String a (String b (String c s))))) with
      (safeSextet (sextet0 (N_of_ascii a)) &&
       (safeSextet (sextet1 (N_of_ascii a) (N_of_ascii b)) &&
        (safeSextet (sextet2 (N_of_ascii b) (N_of_ascii c)) &&
         (safeSextet (sextet3 (N_of_ascii c)) &&
          allChars urlSafe (mimeEncode s))))).
    now rewrite safe_sextet0, safe_sextet1, safe_sextet2, safe_sextet3.
Qed.

(** X8. What [mimeEncode] produces is made of letters, digits, [-], [_]
    and the padding [=] only, and is four bytes long for every three
    bytes of input, rounded up. *)
Theorem mimeEncode_urlsafe_and_length (s : string) :
  allChars urlSafe (mimeEncode s) = true /\
  String.length (mimeEncode s) = (4 * ((String.length s + 2) / 3))%nat.
Proof.
  split; [apply mimeEncode_urlSafe|].
  unfold mimeEncode. rewrite !replaceByte_length.
  apply EncodeToString_length.
Qed.

Lemma substDecode_plain c : plain c = true -> substDecode c = c.
Proof.
  unfold plain, substDecode. rewrite negb_true_iff, !orb_false_iff.
  intros [[[H1 H2] _] _]. now rewrite H1, H2.
Qed.

Lemma replaceByte_decode_plain t :
  allChars plain t = true ->
  replaceByte "_" "/" (replaceByte "-" "+" t) = t.
Proof.
  induction t as [|c t IH]; [reflexivity|].
  cbn [allChars replaceByte]. intros [Hc Ht]%andb_true_iff.
  rewrite (IH Ht). f_equal. apply (substDecode_plain c Hc).
Qed.

Lemma replaceByte_app a b s t :
  replaceByte a b (s +:+ t) = replaceByte a b s +:+ replaceByte a b t.
Proof.
  induction s as [|c s IH]; [reflexivity|].
  rewrite append_String. cbn [replaceByte].
  now rewrite append_String, IH.
Qed.

Lemma removeNewlines_app s t :
  removeNewlines (s +:+ t) = removeNewlines s +:+ removeNewlines t.
Proof.
  induction s as [|c s IH]; [reflexivity|].
  rewrite append_String. cbn [removeNewlines].
  destruct (Ascii.eqb c "013" || Ascii.eqb c "010");
    rewrite ?append_String; now rewrite IH.
Qed.

(** X9. [mimeDecode] also decodes the standard alphabet (payloads that
    were not made URL-safe), and a line break anywhere in the input
    changes nothing. *)
Theorem mimeDecode_standard_and_newlines (s t1 t2 : string) :
  mimeDecode (EncodeToString s) = Some s /\
  mimeDecode (t1 +:+ Editor.LF +:+ t2) = mimeDecode (t1 +:+ t2) /\
  mimeDecode (t1 +:+ String "013" Editor.LF +:+ t2) = mimeDecode (t1 +:+ t2).
Proof.
  split; [|split].
  - unfold mimeDecode, DecodeString.
    rewrite replaceByte_decode_plain by apply EncodeToString_plain.
    rewrite removeNewlines_plain by apply EncodeToString_plain.
    apply decode_EncodeToString.
  - unfold mimeDecode, DecodeString.
    rewrite !replaceByte_app, !removeNewlines_app. reflexivity.
  - unfold mimeDecode, DecodeString.
    rewrite !replaceByte_app, !removeNewlines_app. reflexivity.
Qed.

Lemma substDecode_newline c :
  isNewline (substDecode c) = isNewline c /\
  (isNewline c = true -> substDecode c = c).
Proof.
  assert (H : forall c,
    Bool.eqb (isNewline (substDecode c)) (isNewline c) &&
    implb (isNewline c) (Ascii.eqb (substDecode c) c) = true).
  { apply forall1_spec. vm_compute. reflexivity. }
  specialize (H c). apply andb_true_iff in H as [H1 H2].
  split; [now apply Bool.eqb_prop|].
  intros Hn. rewrite Hn in H2. now apply Ascii.eqb_eq.
Qed.

Lemma removeNewlines_substituted t :
  String.length
    (removeNewlines (replaceByte "_" "/" (replaceByte "-" "+" t))) =
  String.length (removeNewlines t).
Proof.
  induction t as [|c t IH]; [reflexivity|].
  cbn [replaceByte removeNewlines].
  destruct (substDecode_newline c) as [Hn _].
  unfold isNewline, substDecode in Hn. rewrite Hn.
  destruct (Ascii.eqb c "013" || Ascii.eqb c "010"); simpl; congruence.
Qed.

Lemma decodeQuantum_end c0 c1 c2 c3 atEnd out :
  decodeQuantum c0 c1 c2 c3 atEnd = Some (out, true) -> atEnd = true.
Proof.
  destruct atEnd; [reflexivity|].
  unfold decodeQuantum. rewrite andb_false_r.
  repeat match goal with
         | |- context [if ?b then _ else _] => destruct b
         end; discriminate.
Qed.

Lemma decode_wrong_length n : forall u,
  (String.length u < n)%nat ->
  (String.length u mod 4 <> 0)%nat -> decode u = None.
Proof.
  induction n as [|n IH]; intros u Hlt Hmod; [lia|].
  destruct u as [|c0 [|c1 [|c2 [|c3 rest]]]]; try reflexivity.
  - simpl in Hmod. congruence.
  - rewrite decode_4.
    destruct (decodeQuantum c0 c1 c2 c3 (isEmpty rest))
      as [[out [|]]|] eqn:E; [| |reflexivity].
    + apply decodeQuantum_end in E. destruct rest; [|discriminate].
      simpl in Hmod. congruence.
    + rewrite (IH rest); [reflexivity | simpl in Hlt; lia |].
      cbn [String.length] in Hmod.
      replace (S (S (S (S (String.length rest)))))
        with (String.length rest + 1 * 4)%nat in Hmod by lia.
      now rewrite Nat.Div0.mod_add in Hmod.
Qed.

(** X10. Input whose length, line breaks not counted, is not a multiple
    of four is rejected by [mimeDecode]; in particular unpadded input. *)
Theorem mimeDecode_rejects_wrong_length (t : string) :
  (String.length (removeNewlines t) mod 4 <> 0)%nat ->
  mimeDecode t = None.
Proof.
  intros H. unfold mimeDecode, DecodeString.
  eapply decode_wrong_length; [apply Nat.lt_succ_diag_r|].
  now rewrite removeNewlines_substituted.
Qed.

Lemma mimeDecode_rejects_wrong_length_witness : mimeDecode "YQ" = None.
Proof.
  apply mimeDecode_rejects_wrong_length. vm_compute. discriminate.
Defined.

Lemma mimeDecode_mimeEncode_id s : mimeDecode (mimeEncode s) = Some s.
Proof.
  unfold mimeDecode, mimeEncode, DecodeString.
  rewrite replaceByte_roundtrip by apply EncodeToString_plain.
  rewrite removeNewlines_plain by apply EncodeToString_plain.
  apply decode_EncodeToString.
Qed.

End MimeMoreFacts.

(** ** The body of a message *)
Section GetBodyFacts.
Import Mime Detail.
Variable decodeError : string -> string.

Lemma firstPlain_skip pre : forall rest,
  Forall (fun p => MimeType p <> "text/plain") pre ->
  firstPlain decodeError (pre ++ rest) = firstPlain decodeError rest.
Proof.
  induction pre as [|x pre IH]; intros rest Hpre; [reflexivity|].
  apply List.Forall_cons_iff in Hpre as [Hx Hpre]. simpl.
  destruct (String.eqb_spec (MimeType x) "text/plain"); [contradiction|].
  now apply IH.
Qed.

(** X11. [getBody] of a message without parts is the decoded body data;
    with parts it is the decoded data of the first part of type
    [text/plain], whatever the body data and the later parts hold, and the
    literal [TODO Unknown data] when no part has that type.  In either
    case data that does not decode gives [TODO Content error: ] followed
    by the decoder's error, and text that was encoded by [mimeEncode]
    comes back unchanged. *)
Theorem getBody_cases (m : Message) :
  (Parts (Payload m) = [] ->
   (forall data, mimeDecode (BodyData (Payload m)) = Some data ->
                 getBody decodeError m = data) /\
   (forall s, BodyData (Payload m) = mimeEncode s -> getBody decodeError m = s)
   /\
   (mimeDecode (BodyData (Payload m)) = None ->
    getBody decodeError m =
      "TODO Content error: " +:+ decodeError (BodyData (Payload m)))) /\
  (forall pre p post,
     Parts (Payload m) = pre ++ p :: post ->
     Forall (fun q => MimeType q <> "text/plain") pre ->
     MimeType p = "text/plain" ->
     (forall data, mimeDecode (PartData p) = Some data ->
                   getBody decodeError m = data) /\
     (forall s, PartData p = mimeEncode s -> getBody decodeError m = s) /\
     (mimeDecode (PartData p) = None ->
      getBody decodeError m =
        "TODO Content error: " +:+ decodeError (PartData p))) /\
  (Parts (Payload m) <> [] ->
   Forall (fun q => MimeType q <> "text/plain") (Parts (Payload m)) ->
   getBody decodeError m = "TODO Unknown data").
Proof.
  unfold getBody. split; [|split].
  - intros ->. split; [|split].
    + now intros data ->.
    + intros s ->. now rewrite mimeDecode_mimeEncode_id.
    + now intros ->.
  - intros pre p post E Hpre Hp.
    assert (Hf : getBody decodeError m =
                 match mimeDecode (PartData p) with
                 | None => "TODO Content error: " +:+ decodeError (PartData p)
                 | Some data => data
                 end).
    { unfold getBody. rewrite E.
      assert (Hq : firstPlain decodeError (pre ++ p :: post) =
                   match mimeDecode (PartData p) with
                   | None =>
                       "TODO Content error: " +:+ decodeError (PartData p)
                   | Some data => data
                   end).
      { rewrite firstPlain_skip by assumption. cbn [firstPlain].
        apply String.eqb_eq in Hp. now rewrite Hp. }
      destruct pre; exact Hq. }
    fold (getBody decodeError m). rewrite Hf. split; [|split].
    + now intros data ->.
    + intros s ->. now rewrite mimeDecode_mimeEncode_id.
    + now intros ->.
  - intros Hne Hall.
    assert (Hf : firstPlain decodeError (Parts (Payload m)) =
                 "TODO Unknown data").
    { rewrite <- (app_nil_r (Parts (Payload m))).
      now rewrite firstPlain_skip. }
    destruct (Parts (Payload m)); [congruence | exact Hf].
Qed.

End GetBodyFacts.

Lemma getBody_cases_witness :
  Detail.getBody Sample.noError (Sample.letter 2) = Sample.linesText 2 /\
  Detail.getBody Sample.noError
    (mkMessage "m3" [] ""
       (mkPayload [] "ignored"
          [mkPart "text/html" "PGI+"; mkPart "text/plain" "aGk="])) = "hi" /\
  Detail.getBody Sample.noError
    (mkMessage "m4" [] ""
       (mkPayload [] "aGk="
          [mkPart "text/html" "PGI+"; mkPart "text/plain" "aGk"])) =
  "TODO Content error: illegal base64 data".
Proof.
  assert (Hpre : Forall (fun q => MimeType q <> "text/plain")
                   [mkPart "text/html" "PGI+"])
    by (apply List.Forall_cons; [discriminate|apply List.Forall_nil]).
  split; [|split].
  - destruct (getBody_cases Sample.noError (Sample.letter 2)) as (H & _).
    destruct (H eq_refl) as (_ & Henc & _). now apply Henc.
  - destruct (getBody_cases Sample.noError
                (mkMessage "m3" [] ""
                   (mkPayload [] "ignored"
                      [mkPart "text/html" "PGI+";
                       mkPart "text/plain" "aGk="]))) as (_ & H & _).
    destruct (H [mkPart "text/html" "PGI+"] (mkPart "text/plain" "aGk=") []
                eq_refl Hpre eq_refl) as (Hdec & _).
    now apply Hdec.
  - destruct (getBody_cases Sample.noError
                (mkMessage "m4" [] ""
                   (mkPayload [] "aGk="
                      [mkPart "text/html" "PGI+";
                       mkPart "text/plain" "aGk"]))) as (_ & H & _).
    destruct (H [mkPart "text/html" "PGI+"] (mkPart "text/plain" "aGk") []
                eq_refl Hpre eq_refl) as (_ & _ & Herr).
    now apply Herr.
Defined.

(** ** More on the editor loop *)
Section EditorMoreFacts.
Import Editor.
Variable quote : string -> string.

(** X12. Through any number of rejected texts the loop feeds each one
    back as the next seed: the editor is called once per text returned,
    first with the caller's input and then with each rejected text in
    turn, until a text is accepted or the editor fails; nothing after
    that is consumed. *)
Theorem runEditorMode_retry_chain
  (rejected : list string) (script : list (res string)) :
  Forall (fun t => exists upd, validate quote t = Retry upd) rejected ->
  forall input st,
    (forall s mode upd, validate quote s = Accept mode upd ->
       let r := runEditorMode quote (map OK rejected ++ OK s :: script)
                              input st in
       seeds r = input :: rejected /\ ending r = Returned mode s) /\
    (forall e,
       let r := runEditorMode quote (map OK rejected ++ Err e :: script)
                              input st in
       seeds r = input :: rejected /\ ending r = Failed e /\
       status r = "Running editor failed: " +:+ e).
Proof.
  induction 1 as [|t rejected [upd Ht] _ IH]; intros input st.
  - split.
    + intros s mode upd Hs. cbn [map app runEditorMode]. rewrite Hs.
      split; reflexivity.
    + intros e. cbn. repeat split.
  - destruct (IH t (newStatus st upd)) as [IHa IHe]. split.
    + intros s mode upd' Hs. cbn [map app runEditorMode]. rewrite Ht.
      destruct (IHa s mode upd' Hs) as [H1 H2]. cbn [seeds ending].
      split; [now rewrite H1 | exact H2].
    + intros e. cbn [map app runEditorMode]. rewrite Ht.
      destruct (IHe e) as (H1 & H2 & H3). cbn [seeds ending status].
      split; [now rewrite H1|]. split; assumption.
Qed.

Lemma runEditorMode_Returned_valid script : forall input st mode s,
  ending (runEditorMode quote script input st) = Returned mode s ->
  exists upd, validate quote s = Accept mode upd.
Proof.
  induction script as [|[t|e] script IH]; intros input st mode s;
    cbn [runEditorMode].
  - discriminate.
  - destruct (validate quote t) as [mode' upd|upd] eqn:E; cbn [ending].
    + intros [= <- <-]. eauto.
    + apply IH.
  - discriminate.
Qed.

(** X13. [messagesCmdCompose] issues at most one remote call.  When it
    issues one, the loop ended in mode [send], the payload decodes to
    exactly the text the editor returned, and that text still has, in
    its header block, the [Mode:] line that selected sending.  When the
    loop ended otherwise (draft, abort, editor failure) no call is
    made. *)
Theorem messagesCmdCompose_sends_editor_text
  (signature : string) (script : list (res string)) (send : option string)
  (calls : list remoteCall) (st : string) :
  messagesCmdCompose quote signature script send = Some (calls, st) ->
  let r := runEditorMode quote script
             ("To: " +:+ LF +:+ "Subject: " +:+ LF +:+ "Mode: Send" +:+
              LF +:+ LF +:+ signature) "Running editor" in
  (length calls <= 1)%nat /\
  (forall raw, In (MessagesSend raw) calls ->
     exists s header body w,
       ending r = Returned "send" s /\
       Mime.mimeDecode raw = Some s /\
       SplitN2 s = Some (header, body) /\
       In ("Mode: " +:+ w) (splitLines header) /\ ToLower w = "send") /\
  ((forall s, ending r <> Returned "send" s) -> calls = []).
Proof.
  intros H r. unfold messagesCmdCompose in H. cbv zeta in H. fold r in H.
  destruct (ending r) as [mode s|err|input] eqn:E; [| |discriminate].
  - destruct (String.eqb_spec mode "send") as [->|Hne].
    + assert (Hcalls : calls = [MessagesSend (Mime.mimeEncode s)])
        by (destruct send; now injection H as <- _).
      subst calls. split; [simpl; lia|]. split.
      * intros raw [[= <-]|[]].
        destruct (runEditorMode_Returned_valid _ _ _ _ _ E) as [upd Hv].
        rewrite validate_lines in Hv.
        destruct (SplitN2 s) as [[header body]|] eqn:Es; [|discriminate].
        destruct (firstDirective (splitLines header)) as [w|] eqn:Ew;
          [|discriminate].
        destruct (firstDirective_Some _ _ Ew) as (Hin & _ & _).
        exists s, header, body, w.
        split; [reflexivity|]. split; [apply mimeDecode_mimeEncode_id|].
        split; [exact Es|]. split; [exact Hin|].
        destruct (String.eqb (ToLower w) "send") eqn:E1;
          [now apply String.eqb_eq|].
        destruct (String.eqb (ToLower w) "draft") eqn:E2;
          [injection Hv as Hv _; rewrite Hv in E1; discriminate|].
        destruct (String.eqb (ToLower w) "abort") eqn:E3;
          [injection Hv as Hv _; rewrite Hv in E1; discriminate|].
        discriminate.
      * intros Hno. now destruct (Hno s).
    + injection H as <- _. split; [simpl; lia|]. split; [intros raw []|].
      reflexivity.
  - injection H as <- _. split; [simpl; lia|]. split; [intros raw []|].
    reflexivity.
Qed.

End EditorMoreFacts.

Lemma runEditorMode_retry_chain_witness :
  Editor.seeds
    (Editor.runEditorMode Sample.quoteId
       (map OK ["no blank line"; "Mode: later" +:+ Editor.LF +:+ Editor.LF]
        ++ OK ("Mode: draft" +:+ Editor.LF +:+ Editor.LF +:+ "x") :: [])
       "seed" "") =
  ["seed"; "no blank line"; "Mode: later" +:+ Editor.LF +:+ Editor.LF].
Proof.
  apply (proj1 (runEditorMode_retry_chain Sample.quoteId
                  ["no blank line";
                   "Mode: later" +:+ Editor.LF +:+ Editor.LF] []
                  ltac:(repeat constructor; eexists; vm_compute; reflexivity)
                  "seed" "")
           ("Mode: draft" +:+ Editor.LF +:+ Editor.LF +:+ "x")
           "draft" None eq_refl).
Defined.

Lemma messagesCmdCompose_sends_editor_text_witness :
  exists s,
    Mime.mimeDecode "TW9kZTogU2VuZAoKaGk=" = Some s /\
    s = "Mode: Send" +:+ Editor.LF +:+ Editor.LF +:+ "hi".
Proof.
  destruct (messagesCmdCompose_sends_editor_text Sample.quoteId "sig"
              [OK ("Mode: Send" +:+ Editor.LF +:+ Editor.LF +:+ "hi")] None
              [Editor.MessagesSend "TW9kZTogU2VuZAoKaGk="]
              "Successfully sent" eq_refl)
    as (_ & Hsent & _).
  destruct (Hsent "TW9kZTogU2VuZAoKaGk=" (or_introl eq_refl))
    as (s & header & body & w & Hend & Hdec & _).
  exists s. split; [exact Hdec|].
  vm_compute in Hend. now injection Hend as <-.
Defined.

(** ** More on the file navigator *)
Section FileNavMoreFacts.
Import FileNav.

Lemma string_ltb_irrefl a : String.ltb a a = false.
Proof. unfold String.ltb. now rewrite string_compare_refl. Qed.

Lemma string_ltb_trans a b c :
  String.ltb a b = true -> String.ltb b c = true -> String.ltb a c = true.
Proof.
  unfold String.ltb.
  destruct (String.compare a b) eqn:Eab; try discriminate.
  destruct (String.compare b c) eqn:Ebc; try discriminate.
  intros _ _. now rewrite (string_compare_lt_trans _ _ _ Eab Ebc).
Qed.

(** X14. [sortFiles.Less] is a strict weak order, as [sort.Sort]
    requires: irreflexive, asymmetric and transitive, and two entries
    neither of which is [Less] than the other are both directories or
    both not and have the same name. *)
Theorem Less_strict_weak_order :
  (forall a, Less a a = false) /\
  (forall a b, Less a b = true -> Less b a = false) /\
  (forall a b c, Less a b = true -> Less b c = true -> Less a c = true) /\
  (forall a b, Less a b = false -> Less b a = false ->
               IsDir a = IsDir b /\ Name a = Name b).
Proof.
  split; [|split; [|split]].
  - intros a. unfold Less. destruct (IsDir a); simpl; apply string_ltb_irrefl.
  - intros a b. unfold Less.
    destruct (IsDir a), (IsDir b); simpl; try discriminate; try reflexivity;
      intros H; apply string_ltb_false; unfold String.leb, String.ltb in *;
      destruct (String.compare a.(Name) b.(Name)); congruence.
  - intros a b c. unfold Less.
    destruct (IsDir a), (IsDir b), (IsDir c); simpl; try discriminate;
      try reflexivity; apply string_ltb_trans.
  - intros a b Hab Hba. fold (notAfter b a) in Hab. fold (notAfter a b) in Hba.
    apply notAfter_spec in Hab as [[? ?]|[Hd1 Hn1]];
      apply notAfter_spec in Hba as [[? ?]|[Hd2 Hn2]]; try congruence.
    split; [exact Hd2|]. now apply String.leb_antisym.
Qed.

Lemma Less_strict_weak_order_witness :
  Less (Sample.file "z" true) (Sample.file "a.txt" false) = true /\
  Less (Sample.file "a.txt" false) (Sample.file "z" true) = false.
Proof.
  destruct Less_strict_weak_order as (_ & Hasym & _).
  assert (H : Less (Sample.file "z" true) (Sample.file "a.txt" false) = true)
    by reflexivity.
  split; [exact H | exact (Hasym _ _ H)].
Defined.

End FileNavMoreFacts.

(** ** More on the detail viewer *)
Ltac int_consts :=
  change (2 ^ 61) with 2305843009213693952 in *;
  change (2 ^ 63) with 9223372036854775808 in *;
  change (2 ^ 64) with 18446744073709551616 in *.

Section DetailMoreFacts.
Import ListModel Detail.
Variable decodeError : string -> string.

Lemma length_drop_Z {A} (l : list A) (s : Z) :
  0 <= s <= Z.of_nat (length l) ->
  Z.of_nat (length (drop (Z.to_nat s) l)) = Z.of_nat (length l) - s.
Proof. intros H. rewrite length_drop. lia. Qed.

(** X16. With a valid cursor, drawing the detail view panics on an empty
    list, for every height and scroll value.  On a non-empty list, in a
    view at least as high as the padding, it never panics, whatever the
    scroll value: it shows the message under the cursor from the clamped
    offset on, and at least [h - padding] body lines stay visible unless
    the body has fewer. *)
Theorem openMessageDraw_no_panic (h scroll : Z) (l : messageList) :
  cursorOk l ->
  (messages l = [] -> openMessageDraw decodeError h l scroll = Panic) /\
  (forall m,
     messages l !! Z.to_nat (current l) = Some m ->
     padding <= h ->
     noOverflow h (Z.of_nat (length (bodyLines decodeError m))) ->
     exists d,
       openMessageDraw decodeError h l scroll = Done d /\
       shown d = m /\
       Z.min (Z.of_nat (length (bodyLines decodeError m))) (h - padding)
         <= Z.of_nat (length (visible d))).
Proof.
  intros Hok. unfold openMessageDraw, index. split.
  - intros E. rewrite E. simpl.
    match goal with |- context [if ?b then _ else _] => destruct b end;
      reflexivity.
  - intros m Hm Hh [Hh' Ht]. unfold cursorOk, len in Hok.
    destruct (messages l) as [|m0 ms] eqn:E; [discriminate|].
    destruct (Z.leb_spec 0 (current l)); [|lia].
    destruct (Z.ltb_spec (current l) (Z.of_nat (length (m0 :: ms)))); [|lia].
    cbn [andb]. rewrite Hm. cbn [bind].
    set (total := Z.of_nat (length (bodyLines decodeError m))) in *.
    unfold padding in *.
    rewrite (wrap64_id (total - h)) by (int_consts; lia).
    rewrite wrap64_id by (int_consts; lia).
    pose proof (clampScroll_bounds (total - h + 10) scroll) as Hc.
    set (s := clampScroll (total - h + 10) scroll) in *.
    destruct (Z.leb_spec s total); [|lia].
    eexists. split; [reflexivity|]. split; [reflexivity|].
    cbn [visible]. rewrite length_drop_Z by lia. fold total. lia.
Qed.

End DetailMoreFacts.

Lemma openMessageDraw_no_panic_witness :
  Detail.openMessageDraw Sample.noError 24 (ListModel.mkList 0 ∅ false []) 0
    = Panic /\
  exists d,
    Detail.openMessageDraw Sample.noError 12 (Sample.oneLetter 29) 1000
      = Done d /\ 2 <= Z.of_nat (length (Detail.visible d)).
Proof.
  split.
  - apply (proj1 (openMessageDraw_no_panic Sample.noError 24 0
                    (ListModel.mkList 0 ∅ false []) eq_refl)).
    reflexivity.
  - destruct (proj2 (openMessageDraw_no_panic Sample.noError 12 1000
                       (Sample.oneLetter 29)
                       ltac:(unfold ListModel.cursorOk, ListModel.len;
                             simpl; lia))
                (Sample.letter 29) eq_refl)
      as (d & Hd & _ & Hvis).
    + unfold Detail.padding. lia.
    + vm_compute. repeat split; discriminate.
    + exists d. split; [exact Hd|].
      etransitivity; [|exact Hvis]. vm_compute. discriminate.
Defined.

Section PagingFacts.
Import ListModel Detail.
Variable decodeError : string -> string.

Lemma clampScroll_id maxScroll s :
  0 <= s <= maxScroll -> clampScroll maxScroll s = s.
Proof.
  intros H. unfold clampScroll.
  destruct (Z.ltb_spec maxScroll s); [lia|].
  destruct (Z.ltb_spec s 0); lia.
Qed.

(** X17. Page-up undoes page-down when the page-down was not clamped:
    from an offset [s >= 0] with [s + h] within the scroll range, the two
    keys pressed at the same height leave the offset at [s + h] and then
    at [s] again, on the same list. *)
Theorem page_up_undoes_page_down
  (h : Z) (v v1 v2 : view) (d1 d2 : drawn) :
  runCmd decodeError h v CmdPageDown = Done (v1, d1) ->
  runCmd decodeError h v1 CmdPageUp = Done (v2, d2) ->
  0 <= h -> 0 <= vscroll v ->
  vscroll v + h <=
    Z.of_nat (length (bodyLines decodeError (shown d1))) - h + padding ->
  noOverflow h (Z.of_nat (length (bodyLines decodeError (shown d1)))) ->
  vscroll v1 = vscroll v + h /\ vscroll v2 = vscroll v /\
  vlist v2 = vlist v /\ shown d2 = shown d1.
Proof.
  cbn [runCmd]. unfold openMessageDraw.
  destruct (index (messages (vlist v)) (current (vlist v))) as [m| |] eqn:Ei;
    cbn [bind]; [|discriminate|discriminate].
  set (total := Z.of_nat (length (bodyLines decodeError m))).
  match goal with |- context [if ?b then _ else _] =>
    destruct b eqn:Eb1 end; cbn [bind]; [|discriminate].
  intros [= <- <-]. cbn [vlist vscroll scrollY shown]. rewrite Ei.
  cbn [bind]. fold total.
  match goal with |- context [if ?b then _ else _] =>
    destruct b eqn:Eb2 end; cbn [bind]; [|discriminate].
  intros [= <- <-]. cbn [vlist vscroll scrollY shown].
  intros Hh Hs Hfit [Hh' Ht]. unfold padding in *.
  fold total in Hfit, Ht. clearbody total.
  rewrite (wrap64_id (total - h)) by (int_consts; lia).
  rewrite (wrap64_id (total - h + 10)) by (int_consts; lia).
  rewrite (wrap64_id (vscroll v + h)) by (int_consts; lia).
  rewrite (clampScroll_id (total - h + 10) (vscroll v + h)) by lia.
  rewrite (wrap64_id (vscroll v + h - h)) by (int_consts; lia).
  replace (vscroll v + h - h) with (vscroll v) by lia.
  rewrite (clampScroll_id (total - h + 10) (vscroll v)) by lia.
  repeat split.
Qed.

End PagingFacts.

Lemma page_up_undoes_page_down_witness :
  exists v1 v2 d1 d2,
    Detail.runCmd Sample.noError 12
      (Detail.mkView (Sample.oneLetter 29) 3) Detail.CmdPageDown
      = Done (v1, d1) /\
    Detail.runCmd Sample.noError 12 v1 Detail.CmdPageUp = Done (v2, d2) /\
    Detail.vscroll v1 = 15 /\ Detail.vscroll v2 = 3.
Proof.
  eexists. eexists. eexists. eexists.
  split; [vm_compute; reflexivity|]. split; [vm_compute; reflexivity|].
  match goal with
  | |- Detail.vscroll ?v1 = _ /\ Detail.vscroll ?v2 = _ =>
      destruct (page_up_undoes_page_down Sample.noError 12
                  (Detail.mkView (Sample.oneLetter 29) 3) v1 v2
                  (Detail.mkDrawn (Sample.letter 29) 15
                     (drop 15 (Detail.bodyLines Sample.noError
                                 (Sample.letter 29))))
                  (Detail.mkDrawn (Sample.letter 29) 3
                     (drop 3 (Detail.bodyLines Sample.noError
                                (Sample.letter 29)))))
        as (H1 & H2 & _)
  end.
  - vm_compute. reflexivity.
  - vm_compute. reflexivity.
  - lia.
  - simpl. lia.
  - vm_compute. discriminate.
  - vm_compute. repeat split; discriminate.
  - split; [exact H1 | exact H2].
Defined.

(** ** More on row timestamps *)
Section TimeStringMoreFacts.
Import TimeString Ranges.
Variable time_Parse : string -> string -> res Time.

Lemma year_threshold_fits : 365 * 24 * Hour < maxDuration.
Proof. vm_compute. reflexivity. Qed.

(** X18. [timestring] is [Unknown] when neither layout parses the [Date]
    header; otherwise, with the first parse that succeeds, it is the year
    exactly when the message is more than 365 days older than the clock
    reading (however far apart the two instants are, the saturation of
    [Duration] changes nothing), and else the hour and minute or the
    month and day according to whether the two days of the month are
    equal. *)
Theorem timestring_threshold_exact (now : Time) (m : Message) :
  (forall e1 e2,
     time_Parse layoutRFC1123ZShortDay (getHeader m "Date") = Err e1 ->
     time_Parse RFC1123Z (getHeader m "Date") = Err e2 ->
     timestring time_Parse now m = "Unknown") /\
  (forall ts,
     time_Parse layoutRFC1123ZShortDay (getHeader m "Date") = OK ts \/
     (exists e,
        time_Parse layoutRFC1123ZShortDay (getHeader m "Date") = Err e /\
        time_Parse RFC1123Z (getHeader m "Date") = OK ts) ->
     (365 * 24 * Hour < unixNano now - unixNano ts ->
      timestring time_Parse now m = Format2006 ts) /\
     (unixNano now - unixNano ts <= 365 * 24 * Hour ->
      (Day now = Day ts -> timestring time_Parse now m = Format1504 ts) /\
      (Day now <> Day ts -> timestring time_Parse now m = FormatJan02 ts))).
Proof.
  unfold timestring, parseTime. split.
  - intros e1 e2 -> ->. reflexivity.
  - intros ts Hparse.
    assert (Hp : match time_Parse layoutRFC1123ZShortDay (getHeader m "Date")
                 with
                 | OK t => OK t
                 | Err _ => time_Parse RFC1123Z (getHeader m "Date")
                 end = OK ts).
    { destruct Hparse as [->|(e & -> & ->)]; reflexivity. }
    rewrite Hp. unfold Since, Sub.
    pose proof year_threshold_fits as Hfit.
    assert (Hmin : minDuration < 0) by (vm_compute; reflexivity).
    assert (Hpos : 0 < 365 * 24 * Hour) by (vm_compute; reflexivity).
    set (d := unixNano now - unixNano ts).
    set (year := 365 * 24 * Hour) in *.
    split.
    + intros Hold.
      destruct (Z.ltb_spec d minDuration); [lia|].
      destruct (Z.ltb_spec maxDuration d).
      * destruct (Z.ltb_spec year maxDuration); [reflexivity | lia].
      * destruct (Z.ltb_spec year d); [reflexivity | lia].
    + intros Hyoung.
      assert (Hs : (year <? (if d <? minDuration then minDuration
                             else if maxDuration <? d then maxDuration
                             else d)) = false).
      { destruct (Z.ltb_spec d minDuration).
        - apply Z.ltb_ge. lia.
        - destruct (Z.ltb_spec maxDuration d); apply Z.ltb_ge; lia. }
      rewrite Hs. split.
      * intros ->. now rewrite Z.eqb_refl.
      * intros Hne. apply Z.eqb_neq in Hne. now rewrite Hne.
Qed.

Lemma allBelow_spec n P :
  allBelow n P = true -> forall z, 0 <= z < Z.of_nat n -> P z = true.
Proof.
  unfold allBelow. rewrite forallb_forall. intros H z Hz.
  specialize (H (Z.to_nat z)). rewrite Z2Nat.id in H by lia.
  apply H, in_seq. lia.
Qed.

Lemma string_length_append (a b : string) :
  String.length (a +:+ b) = (String.length a + String.length b)%nat.
Proof.
  induction a as [|c a IH]; [reflexivity|].
  rewrite append_String. simpl. now rewrite IH.
Qed.

Lemma padInt2_length z : 0 <= z <= 99 -> String.length (padInt 2 z) = 2%nat.
Proof.
  intros H. apply Nat.eqb_eq.
  apply (allBelow_spec 100
           (fun z => Nat.eqb (String.length (padInt 2 z)) 2));
    [vm_compute; reflexivity | lia].
Qed.

Lemma padInt4_length z :
  0 <= z <= 9999 -> String.length (padInt 4 z) = 4%nat.
Proof.
  intros H. apply Nat.eqb_eq.
  apply (allBelow_spec (Z.to_nat 10000)
           (fun z => Nat.eqb (String.length (padInt 4 z)) 4));
    [vm_compute; reflexivity | lia].
Qed.

Lemma monthAbbrev_length mth :
  1 <= mth <= 12 -> String.length (monthAbbrev mth) = 3%nat.
Proof.
  intros H. apply Nat.eqb_eq.
  replace mth with ((mth - 1) + 1) by lia.
  apply (allBelow_spec 12
           (fun z => Nat.eqb (String.length (monthAbbrev (z + 1))) 3));
    [vm_compute; reflexivity | lia].
Qed.

(** The calendar conversion yields a month in 1..12 and a day in 1..31. *)
Lemma civil_ranges days :
  1 <= snd (fst (civil days)) <= 12 /\ 1 <= snd (civil days) <= 31.
Proof.
  unfold civil. cbn [fst snd].
  set (z := days + 719468).
  set (era := z / 146097).
  set (doe := z - era * 146097).
  assert (Hdoe : 0 <= doe < 146097).
  { unfold doe, era. pose proof (Z.mod_pos_bound z 146097 ltac:(lia)) as H.
    rewrite Z.mod_eq in H by lia. lia. }
  clearbody doe. clear z era.
  set (yoe := (doe - doe / 1460 + doe / 36524 - doe / 146096) / 365).
  set (doy := doe - (365 * yoe + yoe / 4 - yoe / 100)).
  assert (Hdoy : 0 <= doy <= 365).
  { unfold doy, yoe. Z.div_mod_to_equations. lia. }
  clearbody doy. clear yoe.
  set (mp := (5 * doy + 2) / 153).
  assert (Hmp : 0 <= mp <= 11) by (unfold mp; Z.div_mod_to_equations; lia).
  assert (Hd : 1 <= doy - (153 * mp + 2) / 5 + 1 <= 31)
    by (unfold mp; Z.div_mod_to_equations; lia).
  clearbody mp.
  split; [|exact Hd].
  destruct (Z.ltb_spec mp 10); lia.
Qed.

Lemma clock_ranges t : 0 <= HourOf t <= 23 /\ 0 <= MinuteOf t <= 59.
Proof.
  unfold HourOf, MinuteOf. generalize (wallSeconds t). intros w.
  split; Z.div_mod_to_equations; lia.
Qed.

(** X19. For a [Date] that parses to a year from 0 to 9999 the timestamp
    is exactly 4, 5 or 6 bytes long, and [Unknown] is 7: the text always
    fits the 7 columns [draw] reserves for it. *)
Theorem timestring_fits_column (now : Time) (m : Message) :
  (forall ts, parseTime time_Parse (getHeader m "Date") = OK ts ->
              0 <= Year ts <= 9999) ->
  (4 <= String.length (timestring time_Parse now m) <= 7)%nat.
Proof.
  intros Hyear. unfold timestring.
  destruct (parseTime time_Parse (getHeader m "Date")) as [ts|e];
    [|simpl; lia].
  specialize (Hyear ts eq_refl).
  destruct (civil_ranges (wallSeconds ts / 86400)) as [Hm Hd].
  destruct (clock_ranges ts) as [Hh Hmin].
  destruct (365 * 24 * Hour <? Since now ts).
  - unfold Format2006. rewrite padInt4_length by exact Hyear. lia.
  - destruct (negb (Day now =? Day ts)).
    + unfold FormatJan02. rewrite !string_length_append.
      rewrite monthAbbrev_length by exact Hm.
      rewrite padInt2_length by (unfold Day, Date; lia). simpl. lia.
    + unfold Format1504. rewrite !string_length_append.
      rewrite !padInt2_length by lia. simpl. lia.
Qed.

End TimeStringMoreFacts.

Lemma timestring_threshold_exact_witness :
  TimeString.timestring Sample.parseMarch
    (TimeString.clock 2317 1 1 0 0 0 0) Sample.marchLetter = "2015".
Proof.
  apply (proj1 (proj2 (timestring_threshold_exact Sample.parseMarch
                         (TimeString.clock 2317 1 1 0 0 0 0)
                         Sample.marchLetter)
                  (TimeString.clock 2015 3 15 10 0 0 0)
                  (or_intror (ex_intro _ "parsing time"
                                (conj eq_refl eq_refl))))).
  vm_compute. reflexivity.
Defined.

Lemma timestring_fits_column_witness :
  (4 <= String.length
          (TimeString.timestring Sample.parseMarch Sample.aprilNoon
                                 Sample.marchLetter) <= 7)%nat.
Proof.
  apply timestring_fits_column. intros ts Hts.
  vm_compute in Hts. injection Hts as <-. vm_compute.
  split; discriminate.
Defined.

(** ** The label table *)
Section LabelsFacts.
Import Labels.

Lemma getLabels_fold ls : forall (tbl : gmap string string) name,
  (Forall (fun l => LabelName l <> name) ls ->
   fold_left (fun t l => <[LabelName l := LabelId l]> t) ls tbl !! name =
   tbl !! name).
Proof.
  induction ls as [|x ls IH]; intros tbl name Hall; [reflexivity|].
  apply List.Forall_cons_iff in Hall as [Hx Hall]. simpl.
  rewrite IH by assumption. now apply lookup_insert_ne.
Qed.

(** X20. [getLabels] ends the process when the listing fails.
    Otherwise every listed name maps to the id of its last occurrence in
    the answer, and names that are not listed keep the id they had. *)
Theorem getLabels_last_wins
  (resp : res (list Label)) (labels : gmap string string) :
  match getLabels resp labels with
  | Exit => exists e, resp = Err e
  | Panic => False
  | Done tbl =>
      exists ls, resp = OK ls /\
        (forall pre l post,
           ls = pre ++ l :: post ->
           Forall (fun l' => LabelName l' <> LabelName l) post ->
           tbl !! LabelName l = Some (LabelId l)) /\
        (forall name,
           Forall (fun l => LabelName l <> name) ls ->
           tbl !! name = labels !! name)
  end.
Proof.
  destruct resp as [ls|e]; simpl; [|eauto].
  exists ls. split; [reflexivity|]. split.
  - intros pre l post -> Hpost. rewrite fold_left_app. simpl.
    rewrite getLabels_fold by assumption. apply lookup_insert_eq.
  - intros name Hall. now apply getLabels_fold.
Qed.

Lemma getLabels_last_wins_witness :
  exists tbl,
    getLabels (OK [mkLabel "work" "L1"; mkLabel "home" "L2";
                   mkLabel "work" "L7"]) ∅ = Done tbl /\
    tbl !! "work" = Some "L7".
Proof.
  pose proof (getLabels_last_wins
                (OK [mkLabel "work" "L1"; mkLabel "home" "L2";
                     mkLabel "work" "L7"]) ∅) as H.
  cbn [getLabels] in H. destruct H as (ls & Hls & Hlast & _).
  eexists. split; [reflexivity|].
  injection Hls as <-.
  apply (Hlast [mkLabel "work" "L1"; mkLabel "home" "L2"]
               (mkLabel "work" "L7") []); [reflexivity | constructor].
Defined.

End LabelsFacts.

(** ** Rendering the list *)
Section ListViewFacts.
Import ListModel ListView.
Variable time_Parse : string -> string -> res TimeString.Time.
Variable now : TimeString.Time.
Variable mail_ParseAddress : string -> res (string * string).
Variable runeCount : string -> nat.

Lemma row_starred l n m :
  starred (row time_Parse now mail_ParseAddress runeCount l n m) =
  (n =? current l).
Proof. unfold row. destruct (n =? current l); reflexivity. Qed.

Lemma row_indicator l n m :
  indicator (row time_Parse now mail_ParseAddress runeCount l n m) =
  Some (if isMarked (marked l) (Id m) then "X"%char
        else if hasLabel (LabelIds m) unread then ">"%char else " "%char).
Proof.
  unfold row. destruct (n =? current l), (isMarked (marked l) (Id m)),
    (hasLabel (LabelIds m) unread); reflexivity.
Qed.

Lemma filter_cons_length {A} (f : A -> bool) x xs :
  length (List.filter f (x :: xs)) =
  ((if f x then 1 else 0) + length (List.filter f xs))%nat.
Proof. simpl. destruct (f x); reflexivity. Qed.

(** Rows written, and rows carrying the cursor sign, from index [n] on. *)
Lemma drawFrom_counts l ms : forall n,
  length (drawFrom time_Parse now mail_ParseAddress runeCount l n ms) =
    (length ms +
     (if ((n <=? current l) && (current l <? n + Z.of_nat (length ms))
          && showDetails l)%Z then 1 else 0))%nat /\
  length (List.filter starred
            (drawFrom time_Parse now mail_ParseAddress runeCount l n ms)) =
    (if ((n <=? current l) && (current l <? n + Z.of_nat (length ms)))%Z
     then 1 else 0)%nat.
Proof.
  induction ms as [|m ms IH]; intros n.
  - cbn [drawFrom length List.filter].
    assert (E : (n <=? current l) && (current l <? n + Z.of_nat 0) = false)
      by (split_comparisons; simpl; lia || reflexivity).
    rewrite E. split; reflexivity.
  - cbn [drawFrom length]. destruct (IH (n + 1)) as [IHlen IHstar].
    rewrite length_app, IHlen.
    rewrite filter_cons_length, row_starred, List.filter_app, length_app.
    rewrite IHstar.
    replace (n + Z.of_nat (S (length ms)))
      with (n + 1 + Z.of_nat (length ms)) by lia.
    assert (Hd : forall b : bool,
      length (List.filter starred
                (if b then ["    " +:+ Snippet m] else [])) = 0%nat)
      by (intros [|]; reflexivity).
    rewrite Hd.
    destruct (showDetails l); split_comparisons; cbn; try lia; split; lia.
Qed.

Lemma drawFrom_row l ms : forall n k m,
  showDetails l = false ->
  ms !! k = Some m ->
  drawFrom time_Parse now mail_ParseAddress runeCount l n ms !! k =
  Some (row time_Parse now mail_ParseAddress runeCount l (n + Z.of_nat k) m).
Proof.
  induction ms as [|m0 ms IH]; intros n k m Hsd Hk; [discriminate|].
  cbn [drawFrom]. rewrite Hsd, andb_false_r. cbn [app].
  destruct k as [|k]; cbn in Hk.
  - injection Hk as <-. replace (n + Z.of_nat 0) with n by lia.
    reflexivity.
  - replace (n + Z.of_nat (S k)) with (n + 1 + Z.of_nat k) by lia.
    change ((?x :: ?xs) !! S k) with (xs !! k). now apply IH.
Qed.

(** X21. [draw] writes one row per message, plus the snippet of the
    current row when details are on.  With a valid cursor on a non-empty
    list exactly one write begins with the cursor sign [*].  With details
    off, write number k is the row of message k: it begins with [*]
    exactly when k is the cursor, and its second byte is [X] for a marked
    message, else [>] for an unread one, else a blank (the mark hides the
    unread sign). *)
Theorem draw_rows_and_indicators (l : messageList) :
  cursorOk l ->
  length (draw time_Parse now mail_ParseAddress runeCount l) =
    (length (messages l) +
     match messages l with
     | [] => 0
     | _ :: _ => if showDetails l then 1 else 0
     end)%nat /\
  (messages l <> [] ->
   length (List.filter starred
             (draw time_Parse now mail_ParseAddress runeCount l)) = 1%nat) /\
  (showDetails l = false ->
   forall k m, messages l !! k = Some m ->
     exists s,
       draw time_Parse now mail_ParseAddress runeCount l !! k = Some s /\
       starred s = (Z.of_nat k =? current l) /\
       indicator s =
         Some (if isMarked (marked l) (Id m) then "X"%char
               else if hasLabel (LabelIds m) unread then ">"%char
               else " "%char)).
Proof.
  intros Hok. unfold draw.
  destruct (drawFrom_counts l (messages l) 0) as [Hlen Hstar].
  unfold cursorOk, len in Hok. split; [|split].
  - rewrite Hlen. f_equal.
    destruct (messages l) as [|m ms]; simpl length in *.
    + rewrite Hok. reflexivity.
    + split_comparisons; try lia. reflexivity.
  - intros Hne. rewrite Hstar.
    destruct (messages l) as [|m ms]; [congruence|]. simpl length in *.
    split_comparisons; try lia. reflexivity.
  - intros Hsd k m Hk. eexists. split.
    + apply drawFrom_row; eassumption.
    + rewrite row_starred, row_indicator. split; reflexivity.
Qed.

End ListViewFacts.

Lemma draw_rows_and_indicators_witness :
  length (ListView.draw Sample.parseMarch Sample.aprilNoon
            (fun s => Err "no address") String.length Sample.inbox)
    = 3%nat /\
  exists s,
    ListView.draw Sample.parseMarch Sample.aprilNoon
      (fun s => Err "no address") String.length Sample.inbox !! 0%nat
      = Some s /\
    ListView.indicator s = Some "X"%char /\ ListView.starred s = false.
Proof.
  destruct (draw_rows_and_indicators Sample.parseMarch Sample.aprilNoon
              (fun s => Err "no address") String.length Sample.inbox)
    as (Hlen & _ & Hrows).
  { unfold ListModel.cursorOk, ListModel.len. simpl. lia. }
  split; [exact Hlen|].
  destruct (Hrows eq_refl 0%nat (Sample.msg "a") eq_refl)
    as (s & Hs & Hstar & Hind).
  exists s. split; [exact Hs|]. split; [exact Hind | exact Hstar].
Defined.

(** ** Quoting a message for a reply *)
Section ReplyFacts.
Import Reply.

Lemma takeS_length n : forall s,
  String.length (takeS n s) = Nat.min n (String.length s).
Proof.
  induction n as [|n IH]; intros [|c s]; simpl; try reflexivity.
  now rewrite IH.
Qed.

Lemma dropS_length n : forall s,
  String.length (dropS n s) = (String.length s - n)%nat.
Proof.
  induction n as [|n IH]; intros [|c s]; simpl; try reflexivity.
  now rewrite IH.
Qed.

Lemma takeS_dropS n : forall s, takeS n s +:+ dropS n s = s.
Proof.
  induction n as [|n IH]; intros [|c s]; try reflexivity.
  cbn [takeS dropS]. rewrite append_String. now rewrite IH.
Qed.

Lemma TrimLeft_length s : (String.length (TrimLeft s) <= String.length s)%nat.
Proof.
  induction s as [|c s IH]; simpl; [lia|].
  destruct (isSpace c); simpl; lia.
Qed.

Lemma TrimRight_length s :
  (String.length (TrimRight s) <= String.length s)%nat.
Proof.
  induction s as [|c s IH]; simpl; [lia|].
  destruct (TrimRight s); [destruct (isSpace c)|]; simpl in *; lia.
Qed.

Lemma nonblank_app a b : nonblank (a +:+ b) = nonblank a +:+ nonblank b.
Proof.
  induction a as [|c a IH]; [reflexivity|].
  rewrite append_String. cbn [nonblank].
  destruct (isSpace c); [exact IH|]. rewrite append_String. now rewrite IH.
Qed.

Lemma nonblank_TrimLeft s : nonblank (TrimLeft s) = nonblank s.
Proof.
  induction s as [|c s IH]; [reflexivity|]. cbn [TrimLeft].
  destruct (isSpace c) eqn:E; [|reflexivity].
  cbn [nonblank]. now rewrite E.
Qed.

Lemma nonblank_TrimRight s : nonblank (TrimRight s) = nonblank s.
Proof.
  induction s as [|c s IH]; [reflexivity|]. cbn [TrimRight nonblank].
  rewrite <- IH.
  destruct (TrimRight s) as [|c' r'].
  - destruct (isSpace c) eqn:E; cbn [nonblank]; now rewrite ?E.
  - reflexivity.
Qed.

Lemma append_empty_r (s : string) : s +:+ EmptyString = s.
Proof.
  induction s as [|c s IH]; [reflexivity|].
  rewrite append_String. now rewrite IH.
Qed.

(** The written line for what is left after the loop. *)
Lemma last_line_props line :
  (String.length line <= maxLine)%nat ->
  let o := match line with
           | EmptyString => ">"
           | String _ _ => "> " +:+ line
           end in
  (String.length o <= maxLine + 2)%nat /\ startsWithMark o = true /\
  nonblank (quoted o) = nonblank line.
Proof.
  intros H. unfold maxLine in *. destruct line as [|c line]; cbn zeta.
  - repeat split. simpl. lia.
  - repeat split. simpl in *. lia.
Qed.

Lemma wrapLine_props fuel : forall line,
  (String.length line <= fuel)%nat ->
  wrapLine fuel line <> [] /\
  Forall (fun o => (String.length o <= maxLine + 2)%nat /\
                   startsWithMark o = true) (wrapLine fuel line) /\
  nonblank (appendAll (map quoted (wrapLine fuel line))) = nonblank line.
Proof.
  induction fuel as [|fuel IH]; intros line Hlen.
  - destruct line; [|simpl in Hlen; lia]. simpl.
    repeat split; [discriminate | repeat constructor; unfold maxLine; simpl; lia].
  - cbn [wrapLine].
    destruct (Nat.ltb_spec maxLine (String.length line)) as [Hlong|Hshort].
    + set (rest := TrimLeft (dropS maxLine line)).
      assert (Hrest : (String.length rest <= fuel)%nat).
      { unfold rest. pose proof (TrimLeft_length (dropS maxLine line)).
        rewrite dropS_length in *. unfold maxLine in *. lia. }
      destruct (IH rest Hrest) as (_ & Hall & Hnb).
      split; [discriminate|]. split.
      * constructor; [|exact Hall]. split; [|reflexivity].
        rewrite string_length_append.
        pose proof (TrimRight_length (takeS maxLine line)) as Ht.
        rewrite takeS_length in Ht. unfold maxLine in *.
        change (String.length "> ") with 2%nat. lia.
      * cbn [map appendAll]. rewrite nonblank_app, Hnb.
        change (quoted ("> " +:+ TrimRight (takeS maxLine line)))
          with (TrimRight (takeS maxLine line)).
        unfold rest. rewrite nonblank_TrimRight, nonblank_TrimLeft.
        rewrite <- nonblank_app. now rewrite takeS_dropS.
    + destruct (last_line_props line Hshort) as (H1 & H2 & H3).
      split; [discriminate|].
      split; [constructor; [split; assumption | constructor]|].
      cbn [map appendAll]. now rewrite append_empty_r.
Qed.

Lemma wrapLine_fuel f1 : forall f2 line,
  (String.length line <= f1)%nat -> (String.length line <= f2)%nat ->
  wrapLine f1 line = wrapLine f2 line.
Proof.
  induction f1 as [|f1 IH]; intros [|f2] line H1 H2; try reflexivity.
  - destruct line; [reflexivity | simpl in H1; lia].
  - destruct line; [reflexivity | simpl in H2; lia].
  - cbn [wrapLine].
    destruct (Nat.ltb_spec maxLine (String.length line)); [|reflexivity].
    f_equal. pose proof (TrimLeft_length (dropS maxLine line)) as Hl.
    rewrite dropS_length in Hl. unfold maxLine in *. apply IH; lia.
Qed.

(** X22. The lines [getReply] writes for one line of the body: there is
    at least one; each begins with the quote mark and is at most 82 bytes
    long; and, read without the marks, they hold the bytes of the line
    other than blanks, tabs and carriage returns, all of them and in
    order.  The wrapping loop ends within as many passes as the line has
    bytes. *)
Theorem quoteLine_wraps_without_loss (line : string) :
  (forall fuel,
     (String.length (TrimRight line) <= fuel)%nat ->
     wrapLine fuel (TrimRight line) = quoteLine line) /\
  quoteLine line <> [] /\
  Forall (fun o => (String.length o <= 82)%nat /\ startsWithMark o = true)
         (quoteLine line) /\
  nonblank (appendAll (map quoted (quoteLine line))) = nonblank line.
Proof.
  unfold quoteLine.
  destruct (wrapLine_props (String.length (TrimRight line)) (TrimRight line)
              (Nat.le_refl _)) as (Hne & Hall & Hnb).
  split; [|split; [exact Hne|split; [exact Hall|]]].
  - intros fuel Hf. now apply wrapLine_fuel.
  - now rewrite Hnb, nonblank_TrimRight.
Qed.

Lemma quoteLine_wraps_without_loss_witness :
  quoteLine (Sample.longLine +:+ "  ") =
    ["> " +:+ Sample.longWord; "> tail"].
Proof.
  rewrite <- (proj1 (quoteLine_wraps_without_loss (Sample.longLine +:+ "  "))
                100%nat).
  - vm_compute. reflexivity.
  - vm_compute. repeat constructor.
Defined.



End ReplyFacts.

(** ** The editor process *)
Section EditorIOFacts.
Import EditorIO.
Variable quote : string -> string.

(** No path through [runEditor] indexes or dereferences anything. *)
Lemma runEditor_no_panic (w : world) (input : string) :
  snd (runEditor quote w input) <> Panic.
Proof.
  unfold runEditor, deferred.
  destruct (TempFile w), (WriteFile w), (cmdRun w), (ReadFile w),
    (termboxInit w); cbn; discriminate.
Qed.

(** The process exits in [runEditor] exactly when the terminal had been
    closed, which takes a temporary file that was created and written,
    and its re-initialisation fails. *)
Lemma runEditor_exit_iff (w : world) (input : string) :
  snd (runEditor quote w input) = Exit <->
  exists name e, TempFile w = OK name /\ WriteFile w = None /\
                 termboxInit w = Some e.
Proof.
  unfold runEditor, deferred.
  destruct (TempFile w) as [name|e0]; cbn.
  2:{ split; [discriminate|]. intros (n & e & [=] & _). }
  destruct (WriteFile w) as [e1|]; cbn.
  { split; [discriminate|]. intros (n & e & _ & [=] & _). }
  destruct (cmdRun w), (ReadFile w), (termboxInit w) as [e3|]; cbn;
    (split; [intros E; try discriminate E; eauto
            | intros (? & ? & _ & _ & E); try discriminate E; reflexivity]).
Qed.

(** X23. [runEditor] and its two deferred calls.  The process exits
    exactly when the terminal had been closed and its re-initialisation
    fails, and then the file is left behind.  Otherwise it returns: a
    temporary file that was created has been removed, once and as the
    last call, and the terminal has been re-initialised exactly as often
    as it was closed.  It returns the text read back exactly when every
    call succeeded, and then the editor named by [EDITOR] (the flag when
    that is empty) ran on the file after the input was written to it. *)
Theorem runEditor_releases_resources (w : world) (input : string) :
  let evs := fst (runEditor quote w input) in
  (snd (runEditor quote w input) = Exit <->
   exists name e, TempFile w = OK name /\ WriteFile w = None /\
                  termboxInit w = Some e) /\
  (snd (runEditor quote w input) <> Exit ->
   exists r, snd (runEditor quote w input) = Done r) /\
  match snd (runEditor quote w input) with
  | Done r =>
      (forall name, TempFile w = OK name ->
         exists before, evs = before ++ [Removed name] /\
           List.filter (isRemoved name) before = []) /\
      length (List.filter isTermboxClose evs) =
        length (List.filter isTermboxInit evs) /\
      (forall data, r = OK data <->
         exists name, TempFile w = OK name /\ WriteFile w = None /\
           cmdRun w = None /\ ReadFile w = OK data) /\
      (forall data, r = OK data ->
         exists name pre post,
           evs = pre ++ Wrote name input :: TermboxClose ::
                 Ran (editorBin w) name :: post)
  | Exit =>
      (exists name e, TempFile w = OK name /\ WriteFile w = None /\
                      termboxInit w = Some e) /\
      forall name, List.filter (isRemoved name) evs = []
  | Panic => False
  end.
Proof.
  intros evs. split; [apply runEditor_exit_iff|]. split.
  { pose proof (runEditor_no_panic w input) as Hp.
    destruct (snd (runEditor quote w input)) as [r| |];
      [eauto|contradiction|contradiction]. }
  subst evs. unfold runEditor, deferred.
  destruct (TempFile w) as [name|e0] eqn:Et.
  2:{ cbn. split; [intros ? [=]|]. split; [reflexivity|].
      split; [|intros ? [=]]. intros data. split; [intros [=]|].
      intros (n & [=] & _). }
  destruct (WriteFile w) as [e1|] eqn:Ew.
  { cbn. split.
    - intros n [= <-]. exists [Created name; Closed name; Wrote name input].
      split; reflexivity.
    - split; [reflexivity|]. split; [|intros ? [=]].
      intros data. split; [intros [=]|].
      intros (n & _ & [=] & _). }
  destruct (cmdRun w) as [e2|] eqn:Ec.
  { destruct (termboxInit w) as [e3|] eqn:Ei; cbn.
    - split; [eauto|]. intros n. reflexivity.
    - split.
      + intros n [= <-].
        exists [Created name; Closed name; Wrote name input; TermboxClose;
                Ran (editorBin w) name; TermboxInit].
        split; reflexivity.
      + split; [reflexivity|]. split; [|intros ? [=]].
        intros data. split; [intros [=]|].
        intros (n & _ & _ & [=] & _). }
  destruct (ReadFile w) as [data|e4] eqn:Er.
  - destruct (termboxInit w) as [e3|] eqn:Ei; cbn.
    + split; [eauto|]. intros n. reflexivity.
    + split.
      * intros n [= <-].
        exists [Created name; Closed name; Wrote name input; TermboxClose;
                Ran (editorBin w) name; ReadBack name; TermboxInit].
        split; reflexivity.
      * split; [reflexivity|]. split.
        -- intros d. split.
           ++ intros [= <-]. exists name. auto.
           ++ intros (n & _ & _ & _ & [= <-]). reflexivity.
        -- intros d _. exists name, [Created name; Closed name],
             [ReadBack name; TermboxInit; Removed name]. reflexivity.
  - destruct (termboxInit w) as [e3|] eqn:Ei; cbn.
    + split; [eauto|]. intros n. reflexivity.
    + split.
      * intros n [= <-].
        exists [Created name; Closed name; Wrote name input; TermboxClose;
                Ran (editorBin w) name; ReadBack name; TermboxInit].
        split; reflexivity.
      * split; [reflexivity|]. split; [|intros ? [=]].
        intros d. split; [intros [=]|].
        intros (n & _ & _ & _ & [=]).
Qed.

End EditorIOFacts.

Lemma runEditor_releases_resources_witness :
  exists before,
    fst (EditorIO.runEditor Sample.quoteId SampleIO.editorWorld "seed") =
      before ++ [EditorIO.Removed "/tmp/cmdg-1"] /\
    List.filter (EditorIO.isRemoved "/tmp/cmdg-1") before = [].
Proof.
  pose proof (runEditor_releases_resources Sample.quoteId
                SampleIO.editorWorld "seed") as H.
  cbn zeta in H.
  destruct H as (_ & _ & H).
  change (snd (EditorIO.runEditor Sample.quoteId SampleIO.editorWorld "seed"))
    with (@Done (res string) (OK "edited")) in H.
  destruct H as (Hrm & _).
  exact (Hrm "/tmp/cmdg-1" eq_refl).
Defined.

(** ** Replying *)
Section ReplyCmdFacts.
Import EditorIO ReplyCmd.
Variable quote : string -> string.
Variable decodeError : string -> string.
Variable replyRE : string -> bool.
Variable replyPrefix : string.

(** The prefix that is added is one the expression recognises. *)
Hypothesis prefix_recognised : forall s, replyRE (replyPrefix +:+ s) = true.

(** X24. [openMessageCmdReply] sends exactly one message whenever the
    editor run succeeds, whatever text comes back, and none when it
    fails.  The payload decodes to a [To:] line with the [From] header of
    the open message, a [Subject:] line, a blank line and the editor's
    text.  The subject is the original one when the reply expression
    matches it and the prefix followed by it otherwise; so it always
    matches, and replying to a reply adds no second prefix. *)
Theorem openMessageCmdReply_sends_once
  (w : world) (m : Message) (send : option string) :
  let subject := getHeader m "Subject" in
  let subject' := replySubject replyRE replyPrefix subject in
  replyRE subject' = true /\
  replySubject replyRE replyPrefix subject' = subject' /\
  (subject' = subject \/
   (replyRE subject = false /\ subject' = replyPrefix +:+ subject)) /\
  match openMessageCmdReply quote decodeError replyRE replyPrefix w m send
  with
  | Done (calls, st) =>
      (forall body,
         snd (getReply quote decodeError w m) = Done (OK body) ->
         exists raw,
           calls = [Editor.MessagesSend raw] /\
           Mime.mimeDecode raw =
             Some ("To: " +:+ getHeader m "From" +:+ Editor.LF +:+
                   "Subject: " +:+ subject' +:+ Editor.LF +:+ Editor.LF +:+
                   body)) /\
      (forall e, snd (getReply quote decodeError w m) = Done (Err e) ->
                 calls = [] /\ st = "Error creating reply: " +:+ e)
  | Exit => snd (getReply quote decodeError w m) = Exit
  | Panic => False
  end.
Proof.
  cbn zeta. unfold replySubject.
  split; [|split; [|split]].
  - destruct (replyRE (getHeader m "Subject")) eqn:E;
      [exact E | apply prefix_recognised].
  - destruct (replyRE (getHeader m "Subject")) eqn:E.
    + now rewrite E.
    + now rewrite prefix_recognised.
  - destruct (replyRE (getHeader m "Subject")); auto.
  - unfold openMessageCmdReply.
    pose proof (runEditor_no_panic quote w
                  (Reply.replyText (getHeader m "Date") (getHeader m "From")
                     (Detail.getBody decodeError m))) as Hrun.
    fold (getReply quote decodeError w m) in Hrun |- *.
    destruct (snd (getReply quote decodeError w m)) as [[body|e]| |];
      [| |reflexivity|now apply Hrun].
    + destruct send; (split; [|intros ? [=]]); intros b [= <-];
        eexists; (split; [reflexivity|]); apply mimeDecode_mimeEncode_id.
    + split; [intros ? [=]|]. intros e' [= <-]. split; reflexivity.
Qed.

End ReplyCmdFacts.

Lemma defaultReplyRE_prefix s :
  ReplyCmd.defaultReplyRE (ReplyCmd.defaultReplyPrefix +:+ s) = true.
Proof.
  unfold ReplyCmd.defaultReplyRE, ReplyCmd.defaultReplyPrefix.
  change ("Re: " +:+ s) with
    (String "R" (String "e" (String ":" (String " " s)))).
  cbn [String.prefix]. rewrite !Ascii.eqb_refl || idtac.
  destruct s; reflexivity.
Qed.

Lemma openMessageCmdReply_sends_once_witness :
  ReplyCmd.replySubject ReplyCmd.defaultReplyRE ReplyCmd.defaultReplyPrefix
    (ReplyCmd.replySubject ReplyCmd.defaultReplyRE
       ReplyCmd.defaultReplyPrefix "Lunch?") = "Re: Lunch?".
Proof.
  destruct (openMessageCmdReply_sends_once Sample.quoteId Sample.noError
              ReplyCmd.defaultReplyRE ReplyCmd.defaultReplyPrefix
              defaultReplyRE_prefix SampleIO.editorWorld
              (mkMessage "m4" [] ""
                 (mkPayload [mkHeader "Subject" "Lunch?"] "" []))
              None) as (_ & Hidem & _).
  exact Hidem.
Defined.


(** ** The file dialogs *)
Lemma index_in_range {A : Type} (l : list A) (i : Z) :
  0 <= i < Z.of_nat (length l) ->
  exists a, index l i = Done a /\ In a l.
Proof.
  intros Hi. unfold index.
  destruct (Z.leb_spec 0 i); [|lia].
  destruct (Z.ltb_spec i (Z.of_nat (length l))); [|lia].
  cbn [andb].
  destruct (lookup_lt_is_Some_2 l (Z.to_nat i)) as [a Ha]; [lia|].
  rewrite Ha. exists a. split; [reflexivity|].
  apply list_elem_of_In. eapply list_elem_of_lookup_2. exact Ha.
Qed.

Section DialogFacts.
Import FileNav Dialogs.
Variable os_Stat : string -> res FileInfo.
Variable ioutil_ReadDir : string -> res (list FileInfo).
Variable path_Join : string -> string -> string.
Variable sort_Sort : list FileInfo -> list FileInfo.
Variable os_Getwd : res string.
Variable gc_NewWindow : option string.

(** A listing has at least the two dot entries. *)
Lemma readDir_two (d : string) (fs : list FileInfo) :
  readDir os_Stat ioutil_ReadDir path_Join sort_Sort d = OK fs ->
  (2 <= length fs)%nat.
Proof.
  unfold readDir.
  destruct (os_Stat (path_Join d ".")); [|discriminate].
  destruct (os_Stat (path_Join d "..")); [|discriminate].
  destruct (ioutil_ReadDir d); [|discriminate].
  intros [= <-]. cbn [length]. lia.
Qed.

Lemma enter_listed (b : browser) (f : FileInfo) :
  listed os_Stat ioutil_ReadDir path_Join sort_Sort b ->
  -1 <= cur b < len b ->
  let b' := enter os_Stat ioutil_ReadDir path_Join sort_Sort b f in
  listed os_Stat ioutil_ReadDir path_Join sort_Sort b' /\
  (cur b' = cur b \/ cur b' = 0) /\ cur b' < len b'.
Proof.
  intros Hl Hc. cbn zeta. unfold enter.
  destruct (readDir os_Stat ioutil_ReadDir path_Join sort_Sort
              (path_Join (curDir b) (Name f))) as [fs|e] eqn:E.
  - split; [exact E|]. split; [right; reflexivity|].
    apply readDir_two in E. unfold len. cbn [cur files]. lia.
  - split; [exact Hl|]. split; [left; reflexivity|]. lia.
Qed.

Lemma loadKey_step (b : browser) (key : Z) :
  listed os_Stat ioutil_ReadDir path_Join sort_Sort b ->
  0 <= cur b < len b ->
  match loadKey os_Stat ioutil_ReadDir path_Join sort_Sort b key with
  | Done (Waiting b') =>
      listed os_Stat ioutil_ReadDir path_Join sort_Sort b' /\
      0 <= cur b' < len b'
  | Done (Returned (OK p)) =>
      listedFile os_Stat ioutil_ReadDir path_Join sort_Sort p
  | Done (Returned (Err e)) => e = errCancel /\ key = rune "q"
  | Exit | Panic => False
  end.
Proof.
  intros Hl Hc. unfold loadKey.
  destruct (Z.eqb_spec key (rune "q")); [now split|].
  destruct (Z.eqb_spec key (rune "n")).
  { destruct (Z.ltb_spec (cur b) (len b - 1)); (split; [exact Hl|]);
      unfold len in *; cbn [cur files]; lia. }
  destruct (Z.eqb_spec key (rune "p")).
  { destruct (Z.ltb_spec 0 (cur b)); (split; [exact Hl|]);
      unfold len in *; cbn [cur files]; lia. }
  destruct (Z.eqb_spec key keyLF); [|now split].
  destruct (index_in_range (files b) (cur b) Hc) as (f & -> & Hin).
  cbn [bind]. destruct (IsDir f) eqn:Ed.
  - destruct (enter_listed b f Hl) as (H1 & H2 & H3); [lia|].
    split; [exact H1|]. lia.
  - exists (curDir b), (files b), f. auto.
Qed.

Lemma loadLoop_inv (keys : list Z) : forall b : browser,
  listed os_Stat ioutil_ReadDir path_Join sort_Sort b ->
  0 <= cur b < len b ->
  match loadLoop os_Stat ioutil_ReadDir path_Join sort_Sort b keys with
  | Done (Waiting b') =>
      listed os_Stat ioutil_ReadDir path_Join sort_Sort b' /\
      0 <= cur b' < len b'
  | Done (Returned (OK p)) =>
      listedFile os_Stat ioutil_ReadDir path_Join sort_Sort p
  | Done (Returned (Err e)) => e = errCancel /\ In (rune "q") keys
  | Exit | Panic => False
  end.
Proof.
  induction keys as [|key keys IH]; intros b Hl Hc; cbn [loadLoop].
  - now split.
  - pose proof (loadKey_step b key Hl Hc) as Hk.
    destruct (loadKey os_Stat ioutil_ReadDir path_Join sort_Sort b key)
      as [[b'|[p|e]]| |]; try exact Hk.
    + destruct Hk as [Hl' Hc']. specialize (IH b' Hl' Hc').
      destruct (loadLoop os_Stat ioutil_ReadDir path_Join sort_Sort b' keys)
        as [[b''|[p|e]]| |]; try exact IH.
      destruct IH as [-> Hq]. split; [reflexivity|now right].
    + destruct Hk as [-> ->]. split; [reflexivity|now left].
Qed.

(** X25. [loadFileDialog] on any keys and any file system: no index is
    ever out of range; while it waits for a key the cursor is on an entry
    of the listing of the current directory; a path it returns names an
    entry that is not a directory, in a directory it listed; the only
    errors are the one of the working directory or of its listing, and
    the cancellation, which needs the key [q]; the process exits only
    when the window cannot be created. *)
Theorem loadFileDialog_outcomes (keys : list Z) :
  match loadFileDialog os_Stat ioutil_ReadDir path_Join sort_Sort os_Getwd
          gc_NewWindow keys with
  | Done (Waiting b) =>
      listed os_Stat ioutil_ReadDir path_Join sort_Sort b /\
      0 <= cur b < len b
  | Done (Returned (OK p)) =>
      listedFile os_Stat ioutil_ReadDir path_Join sort_Sort p
  | Done (Returned (Err e)) =>
      (e = errCancel /\ In (rune "q") keys) \/
      openingError os_Stat ioutil_ReadDir path_Join sort_Sort os_Getwd e
  | Exit => exists e, gc_NewWindow = Some e
  | Panic => False
  end.
Proof.
  unfold loadFileDialog, opening, fullscreenWindow, openingError.
  destruct gc_NewWindow as [e|]; cbn [bind]; [now exists e|].
  destruct os_Getwd as [d|e]; [|now right; left].
  destruct (readDir os_Stat ioutil_ReadDir path_Join sort_Sort d)
    as [fs|e] eqn:E; [|right; right; now exists d].
  pose proof (loadLoop_inv keys (mkBrowser 0 d fs) E) as H.
  apply readDir_two in E.
  assert (Hc : 0 <= cur (mkBrowser 0 d fs) < len (mkBrowser 0 d fs))
    by (unfold len; cbn [cur files]; lia).
  specialize (H Hc).
  destruct (loadLoop os_Stat ioutil_ReadDir path_Join sort_Sort
              (mkBrowser 0 d fs) keys) as [[b'|[p|e]]| |];
    try exact H.
  - left. exact H.
  - destruct H.
Qed.

End DialogFacts.


Section SaveDialogFacts.
Import FileNav Dialogs.
Variable os_Stat : string -> res FileInfo.
Variable ioutil_ReadDir : string -> res (list FileInfo).
Variable path_Join : string -> string -> string.
Variable sort_Sort : list FileInfo -> list FileInfo.
Variable os_Getwd : res string.
Variable gc_NewWindow : option string.
Variable KEY_TAB KEY_DOWN KEY_UP KEY_BACKSPACE : Z.
Variable ctrlN ctrlP ctrlC ctrlG : Z.
Variable helpWin : list Z -> nat.

Lemma editKey_step (s : saver) (key : Z) :
  fileNameEdit s = true ->
  match editKey path_Join KEY_TAB KEY_BACKSPACE s key with
  | Done (Waiting s') => dir s' = dir s
  | Done (Returned (OK p)) => p = path_Join (curDir (dir s)) (fn s)
  | Done (Returned (Err _)) | Exit | Panic => False
  end.
Proof.
  intros He. unfold editKey.
  destruct (key =? KEY_TAB); [reflexivity|].
  destruct (oneOf key [keyLF; keyCR]); [reflexivity|].
  destruct (oneOf key [keyBS; KEY_BACKSPACE; keyDEL]); [|reflexivity].
  destruct (0 <? String.length (fn s))%nat; reflexivity.
Qed.

Lemma browseKey_step (s : saver) (key : Z) :
  saveOk os_Stat ioutil_ReadDir path_Join sort_Sort s ->
  fileNameEdit s = false ->
  match browseKey os_Stat ioutil_ReadDir path_Join sort_Sort
          KEY_TAB KEY_DOWN KEY_UP ctrlN ctrlP ctrlC ctrlG s key with
  | Done (Waiting s') =>
      saveOk os_Stat ioutil_ReadDir path_Join sort_Sort s' /\
      fn s' = fn s /\ (key <> KEY_TAB -> fileNameEdit s' = false)
  | Done (Returned (OK p)) =>
      p = path_Join (curDir (dir s)) (fn s) /\ cur (dir s) = -1
  | Done (Returned (Err e)) => e = errCancel \/ e = errOpen
  | Exit | Panic => False
  end.
Proof.
  intros [Hl Hc] He. unfold browseKey. cbn zeta.
  destruct (oneOf key [KEY_DOWN; rune "n"; ctrlN; rune "k"]).
  { destruct (Z.ltb_spec (cur (dir s)) (len (dir s) - 1));
      (split; [|auto]); split; try exact Hl; try exact Hc;
      unfold len in *; cbn [dir cur files]; lia. }
  destruct (oneOf key [KEY_UP; rune "p"; ctrlP; rune "j"]).
  { destruct (Z.leb_spec 0 (cur (dir s)));
      (split; [|auto]); split; try exact Hl; try exact Hc;
      unfold len in *; cbn [dir cur files]; lia. }
  destruct (key =? rune "!"); [now right|].
  destruct (oneOf key [rune "q"; ctrlC; ctrlG]); [now left|].
  destruct (Z.eqb_spec key KEY_TAB).
  { split; [split; assumption|]. split; [reflexivity|]. intros; contradiction. }
  destruct (oneOf key [keyLF; keyCR]).
  2:{ split; [split; assumption|]. auto. }
  destruct (Z.eqb_spec (cur (dir s)) (-1)); [now split|].
  destruct (index_in_range (files (dir s)) (cur (dir s)))
    as (f & -> & Hin); [unfold len in Hc; lia|].
  cbn [bind]. destruct (IsDir f).
  - destruct (enter_listed os_Stat ioutil_ReadDir path_Join sort_Sort
                (dir s) f Hl Hc) as (H1 & H2 & H3).
    split; [|auto]. split; [exact H1|]. cbn [dir]. lia.
  - split; [split; assumption|]. auto.
Qed.

Lemma saveLoop_inv (keys : list Z) : forall (skip : nat) (s : saver),
  saveOk os_Stat ioutil_ReadDir path_Join sort_Sort s ->
  match saveLoop os_Stat ioutil_ReadDir path_Join sort_Sort
          KEY_TAB KEY_DOWN KEY_UP KEY_BACKSPACE ctrlN ctrlP ctrlC ctrlG
          helpWin skip s keys with
  | Done (Waiting s') => saveOk os_Stat ioutil_ReadDir path_Join sort_Sort s'
  | Done (Returned (OK p)) =>
      exists name,
        savedAs os_Stat ioutil_ReadDir path_Join sort_Sort p name /\
        (~ In KEY_TAB keys -> fileNameEdit s = false -> name = fn s)
  | Done (Returned (Err e)) => e = errCancel \/ e = errOpen
  | Exit | Panic => False
  end.
Proof.
  induction keys as [|key keys IH]; intros skip s Hs; cbn [saveLoop].
  - exact Hs.
  - destruct skip as [|skip].
    2:{ specialize (IH skip s Hs).
        destruct (saveLoop _ _ _ _ _ _ _ _ _ _ _ _ _ skip s keys)
          as [[s'|[p|e]]| |]; try exact IH.
        destruct IH as (name & Hp & Hn). exists name. split; [exact Hp|].
        intros Ht. apply Hn. intros Hin. apply Ht. now right. }
    destruct (fileNameEdit s) eqn:He.
    + pose proof (editKey_step s key He) as Hk.
      destruct (editKey path_Join KEY_TAB KEY_BACKSPACE s key)
        as [[s'|[p|e]]| |]; try contradiction.
      * assert (Hs' : saveOk os_Stat ioutil_ReadDir path_Join sort_Sort s')
          by (unfold saveOk; rewrite Hk; exact Hs).
        specialize (IH 0%nat s' Hs').
        destruct (saveLoop _ _ _ _ _ _ _ _ _ _ _ _ _ 0%nat s' keys)
          as [[s''|[p|e]]| |]; try exact IH.
        destruct IH as (name & Hp & _). exists name.
        split; [exact Hp|]. intros _ [=].
      * exists (fn s). split; [|reflexivity].
        destruct Hs as [Hl _]. exists (curDir (dir s)), (files (dir s)).
        split; [exact Hl|exact Hk].
    + destruct (key =? rune "?").
      { specialize (IH (helpWin keys) s Hs).
        destruct (saveLoop _ _ _ _ _ _ _ _ _ _ _ _ _ (helpWin keys) s keys)
          as [[s'|[p|e]]| |]; try exact IH.
        destruct IH as (name & Hp & Hn). exists name. split; [exact Hp|].
        intros Ht _. apply Hn; [|exact He].
        intros Hin. apply Ht. now right. }
      pose proof (browseKey_step s key Hs He) as Hk.
      destruct (browseKey os_Stat ioutil_ReadDir path_Join sort_Sort
                  KEY_TAB KEY_DOWN KEY_UP ctrlN ctrlP ctrlC ctrlG s key)
        as [[s'|[p|e]]| |]; try exact Hk.
      * destruct Hk as (Hs' & Hfn & Hed). specialize (IH 0%nat s' Hs').
        destruct (saveLoop _ _ _ _ _ _ _ _ _ _ _ _ _ 0%nat s' keys)
          as [[s''|[p|e]]| |]; try exact IH.
        destruct IH as (name & Hp & Hn). exists name. split; [exact Hp|].
        intros Ht _. rewrite <- Hfn. apply Hn.
        -- intros Hin. apply Ht. now right.
        -- apply Hed. intros ->. apply Ht. now left.
      * destruct Hk as [Hk _]. exists (fn s). split; [|reflexivity].
        destruct Hs as [Hl _]. exists (curDir (dir s)), (files (dir s)).
        split; [exact Hl|exact Hk].
Qed.

(** X26. [saveFileDialog] on any keys and any file system: no index is
    ever out of range, although the cursor starts at -1, on the [<save>]
    row; while it waits for a key the cursor is on that row or on an
    entry of the listing of the current directory; a path it returns is
    a name joined to a directory it listed, and when the keys hold no
    Tab that name is the one the dialog was opened with, whatever entries
    Enter was pressed on; the errors are those of the working directory
    or of its listing, the cancellation and the request to open; the
    process exits only when the window cannot be created. *)
Theorem saveFileDialog_outcomes (fn0 : string) (keys : list Z) :
  match saveFileDialog os_Stat ioutil_ReadDir path_Join sort_Sort os_Getwd
          gc_NewWindow KEY_TAB KEY_DOWN KEY_UP KEY_BACKSPACE
          ctrlN ctrlP ctrlC ctrlG helpWin fn0 keys with
  | Done (Waiting s) => saveOk os_Stat ioutil_ReadDir path_Join sort_Sort s
  | Done (Returned (OK p)) =>
      exists name,
        savedAs os_Stat ioutil_ReadDir path_Join sort_Sort p name /\
        (~ In KEY_TAB keys -> name = fn0)
  | Done (Returned (Err e)) =>
      e = errCancel \/ e = errOpen \/
      openingError os_Stat ioutil_ReadDir path_Join sort_Sort os_Getwd e
  | Exit => exists e, gc_NewWindow = Some e
  | Panic => False
  end.
Proof.
  unfold saveFileDialog, opening, fullscreenWindow, openingError.
  destruct gc_NewWindow as [e|]; cbn [bind]; [now exists e|].
  destruct os_Getwd as [d|e]; [|now right; right; left].
  destruct (readDir os_Stat ioutil_ReadDir path_Join sort_Sort d)
    as [fs|e] eqn:E; [|right; right; right; now exists d].
  pose proof (saveLoop_inv keys 0%nat (mkSaver (mkBrowser (-1) d fs) fn0 false))
    as H.
  apply readDir_two in E as Hlen.
  assert (Hs : saveOk os_Stat ioutil_ReadDir path_Join sort_Sort
                 (mkSaver (mkBrowser (-1) d fs) fn0 false))
    by (split; [exact E|unfold len; cbn [dir cur files]; lia]).
  specialize (H Hs).
  destruct (saveLoop _ _ _ _ _ _ _ _ _ _ _ _ _ 0%nat
              (mkSaver (mkBrowser (-1) d fs) fn0 false) keys)
    as [[s'|[p|e]]| |]; try exact H.
  - destruct H as (name & Hp & Hn). exists name. split; [exact Hp|].
    intros Ht. now apply Hn.
  - destruct H as [->| ->]; auto.
  - destruct H.
Qed.

End SaveDialogFacts.


(** *** Editing the file name *)
Lemma string_append_assoc (a b c : string) :
  (a +:+ b) +:+ c = a +:+ (b +:+ c).
Proof.
  induction a as [|x a IH]; [reflexivity|].
  rewrite !append_String. now rewrite IH.
Qed.

Lemma oneOf_false (key : Z) (cases : list Z) :
  ~ In key cases -> Dialogs.oneOf key cases = false.
Proof.
  unfold Dialogs.oneOf. induction cases as [|c cases IH]; intros Hn;
    [reflexivity|].
  cbn [existsb]. destruct (Z.eqb_spec key c) as [->|_].
  - exfalso. apply Hn. now left.
  - apply IH. intros Hin. apply Hn. now right.
Qed.

Lemma fmtC_ascii (key : Z) :
  Dialogs.ascii7 key -> Dialogs.fmtC key = Dialogs.bytes [key].
Proof.
  unfold Dialogs.ascii7, Dialogs.fmtC, Dialogs.EncodeRune, Dialogs.MaxRune.
  intros Hk.
  destruct (Z.ltb_spec key 0); [lia|].
  destruct (Z.ltb_spec 1114111 key); [lia|]. cbn [orb].
  destruct (Z.leb_spec 0 key); [|lia].
  destruct (Z.leb_spec key 127); [|lia]. reflexivity.
Qed.

(** Above 127 the character printed has two bytes or more. *)
Lemma fmtC_wide (key : Z) :
  127 < key ->
  exists a b rest, Dialogs.fmtC key = String a (String b rest).
Proof.
  intros Hk.
  assert (Hr : forall r, 127 < r ->
            exists a b rest, Dialogs.EncodeRune r = String a (String b rest)).
  { intros r Hr. unfold Dialogs.EncodeRune, Dialogs.encode3, Dialogs.bytes.
    destruct (Z.leb_spec r 127); [lia|]. rewrite andb_false_r.
    destruct ((0 <=? r) && (r <=? 2047)); cbn [fold_right]; [eauto|].
    destruct ((r <? 0) || (Dialogs.MaxRune <? r) ||
              ((Dialogs.surrogateMin <=? r) && (r <=? Dialogs.surrogateMax)));
      [eauto|].
    destruct (r <=? 65535); eauto. }
  unfold Dialogs.fmtC.
  destruct ((key <? 0) || (Dialogs.MaxRune <? key)); apply Hr;
    [unfold Dialogs.RuneError; lia | exact Hk].
Qed.

Lemma dropLast_append (x y : string) :
  y <> EmptyString ->
  Dialogs.dropLast (x +:+ y) = x +:+ Dialogs.dropLast y.
Proof.
  intros Hy. unfold Dialogs.dropLast.
  induction x as [|c x IH]; [reflexivity|].
  rewrite !append_String. cbn [String.length].
  assert (Hl : exists m, String.length (x +:+ y) = S m).
  { rewrite string_length_append. destruct y as [|a y]; [contradiction|].
    cbn [String.length]. exists (String.length x + String.length y)%nat.
    lia. }
  destruct Hl as [m Hm]. rewrite Hm in IH |- *.
  replace (S (S m) - 1)%nat with (S m) by lia.
  replace (S m - 1)%nat with m in IH by lia.
  cbn [substring]. now rewrite IH.
Qed.

Lemma dropLast_snoc (x : string) (c : ascii) :
  Dialogs.dropLast (x +:+ String c EmptyString) = x.
Proof.
  rewrite dropLast_append by discriminate.
  change (Dialogs.dropLast (String c EmptyString)) with EmptyString.
  apply append_empty_r.
Qed.

Lemma dropLast_all (x : string) : forall name : string,
  Nat.iter (String.length x) Dialogs.dropLast (name +:+ x) = name.
Proof.
  induction x as [|c x IH]; intros name.
  - cbn. apply append_empty_r.
  - cbn [String.length]. rewrite Nat.iter_succ.
    change (String c x) with (String c EmptyString +:+ x).
    rewrite <- string_append_assoc, IH. apply dropLast_snoc.
Qed.

Lemma bytes_length (l : list Z) :
  String.length (Dialogs.bytes l) = length l.
Proof.
  induction l as [|z l IH]; [reflexivity|].
  cbn [Dialogs.bytes fold_right String.length length].
  f_equal. exact IH.
Qed.

Section SaveEditFacts.
Import FileNav Dialogs.
Variable os_Stat : string -> res FileInfo.
Variable ioutil_ReadDir : string -> res (list FileInfo).
Variable path_Join : string -> string -> string.
Variable sort_Sort : list FileInfo -> list FileInfo.
Variable os_Getwd : res string.
Variable gc_NewWindow : option string.
Variable KEY_TAB KEY_DOWN KEY_UP KEY_BACKSPACE : Z.
Variable ctrlN ctrlP ctrlC ctrlG : Z.
Variable helpWin : list Z -> nat.

(** The constants of the cases of a [switch] differ from each other. *)
Hypothesis browse_distinct :
  List.NoDup (browseCases KEY_TAB KEY_DOWN KEY_UP ctrlN ctrlP ctrlC ctrlG).
Hypothesis edit_distinct : List.NoDup (editCases KEY_TAB KEY_BACKSPACE).

(** The dialog opens on the directory [wd]. *)
Variable wd : string.
Variable fs : list FileInfo.
Hypothesis window_ok : gc_NewWindow = None.
Hypothesis getwd_ok : os_Getwd = OK wd.
Hypothesis listing_ok :
  readDir os_Stat ioutil_ReadDir path_Join sort_Sort wd = OK fs.

Lemma tab_starts_editing (b : browser) (name : string) (keys : list Z) :
  saveLoop os_Stat ioutil_ReadDir path_Join sort_Sort
    KEY_TAB KEY_DOWN KEY_UP KEY_BACKSPACE ctrlN ctrlP ctrlC ctrlG helpWin
    0 (mkSaver b name false) (KEY_TAB :: keys) =
  saveLoop os_Stat ioutil_ReadDir path_Join sort_Sort
    KEY_TAB KEY_DOWN KEY_UP KEY_BACKSPACE ctrlN ctrlP ctrlC ctrlG helpWin
    0 (mkSaver b name true) keys.
Proof.
  pose proof browse_distinct as Hd. unfold browseCases in Hd.
  repeat match type of Hd with
         | List.NoDup (_ :: _) =>
             let Hx := fresh "Hx" in
             apply List.NoDup_cons_iff in Hd; destruct Hd as [Hx Hd];
             cbn [In] in Hx
         end.
  cbn [saveLoop fileNameEdit].
  destruct (Z.eqb_spec KEY_TAB (rune "?")) as [E|_]; [exfalso; tauto|].
  unfold browseKey. cbn zeta.
  rewrite (oneOf_false KEY_TAB [KEY_DOWN; rune "n"; ctrlN; rune "k"])
    by (cbn [In]; intuition congruence).
  rewrite (oneOf_false KEY_TAB [KEY_UP; rune "p"; ctrlP; rune "j"])
    by (cbn [In]; intuition congruence).
  destruct (Z.eqb_spec KEY_TAB (rune "!")) as [E|_]; [exfalso; tauto|].
  rewrite (oneOf_false KEY_TAB [rune "q"; ctrlC; ctrlG])
    by (cbn [In]; intuition congruence).
  rewrite Z.eqb_refl. reflexivity.
Qed.

Lemma typing_appends (typed : list Z) :
  forall (b : browser) (name : string) (keys : list Z),
  Forall (fun k => ascii7 k /\ ~ In k (editCases KEY_TAB KEY_BACKSPACE))
    typed ->
  saveLoop os_Stat ioutil_ReadDir path_Join sort_Sort
    KEY_TAB KEY_DOWN KEY_UP KEY_BACKSPACE ctrlN ctrlP ctrlC ctrlG helpWin
    0 (mkSaver b name true) (typed ++ keys) =
  saveLoop os_Stat ioutil_ReadDir path_Join sort_Sort
    KEY_TAB KEY_DOWN KEY_UP KEY_BACKSPACE ctrlN ctrlP ctrlC ctrlG helpWin
    0 (mkSaver b (name +:+ bytes typed) true) keys.
Proof.
  induction typed as [|k typed IH]; intros b name keys Ht.
  - cbn [bytes fold_right app]. now rewrite append_empty_r.
  - apply List.Forall_cons_iff in Ht. destruct Ht as [[Hk Hn] Ht].
    unfold editCases in Hn. cbn [In] in Hn.
    cbn [app saveLoop fileNameEdit]. unfold editKey.
    destruct (Z.eqb_spec k KEY_TAB) as [E|_]; [exfalso; intuition congruence|].
    rewrite (oneOf_false k [keyLF; keyCR]) by (cbn [In]; intuition congruence).
    rewrite (oneOf_false k [keyBS; KEY_BACKSPACE; keyDEL])
      by (cbn [In]; intuition congruence).
    cbn [dir fn]. rewrite IH by exact Ht.
    rewrite (fmtC_ascii k Hk), string_append_assoc. reflexivity.
Qed.

Lemma delete_key (b : browser) (name : string) (keys : list Z) :
  saveLoop os_Stat ioutil_ReadDir path_Join sort_Sort
    KEY_TAB KEY_DOWN KEY_UP KEY_BACKSPACE ctrlN ctrlP ctrlC ctrlG helpWin
    0 (mkSaver b name true) (keyDEL :: keys) =
  saveLoop os_Stat ioutil_ReadDir path_Join sort_Sort
    KEY_TAB KEY_DOWN KEY_UP KEY_BACKSPACE ctrlN ctrlP ctrlC ctrlG helpWin
    0 (mkSaver b (dropLast name) true) keys.
Proof.
  pose proof edit_distinct as Hd. unfold editCases in Hd.
  apply List.NoDup_cons_iff in Hd. destruct Hd as [Hx _]. cbn [In] in Hx.
  cbn [saveLoop fileNameEdit]. unfold editKey.
  destruct (Z.eqb_spec keyDEL KEY_TAB) as [E|_];
    [exfalso; intuition congruence|].
  change (oneOf keyDEL [keyLF; keyCR]) with false. cbv iota.
  assert (Ho : oneOf keyDEL [keyBS; KEY_BACKSPACE; keyDEL] = true).
  { unfold oneOf. cbn [existsb]. rewrite Z.eqb_refl.
    now rewrite !orb_true_r. }
  rewrite Ho. cbn [fn dir].
  destruct name as [|c name]; reflexivity.
Qed.

Lemma deleting_removes (n : nat) :
  forall (b : browser) (name : string) (keys : list Z),
  saveLoop os_Stat ioutil_ReadDir path_Join sort_Sort
    KEY_TAB KEY_DOWN KEY_UP KEY_BACKSPACE ctrlN ctrlP ctrlC ctrlG helpWin
    0 (mkSaver b name true) (repeat keyDEL n ++ keys) =
  saveLoop os_Stat ioutil_ReadDir path_Join sort_Sort
    KEY_TAB KEY_DOWN KEY_UP KEY_BACKSPACE ctrlN ctrlP ctrlC ctrlG helpWin
    0 (mkSaver b (Nat.iter n dropLast name) true) keys.
Proof.
  induction n as [|n IH]; intros b name keys; [reflexivity|].
  cbn [repeat app]. rewrite delete_key, IH.
  now rewrite <- Nat.iter_succ_r.
Qed.

Lemma enter_saves (b : browser) (name : string) (keys : list Z) :
  saveLoop os_Stat ioutil_ReadDir path_Join sort_Sort
    KEY_TAB KEY_DOWN KEY_UP KEY_BACKSPACE ctrlN ctrlP ctrlC ctrlG helpWin
    0 (mkSaver b name true) (keyLF :: keys) =
  Done (Returned (OK (path_Join (curDir b) name))).
Proof.
  pose proof edit_distinct as Hd. unfold editCases in Hd.
  apply List.NoDup_cons_iff in Hd. destruct Hd as [Hx _]. cbn [In] in Hx.
  cbn [saveLoop fileNameEdit]. unfold editKey.
  destruct (Z.eqb_spec keyLF KEY_TAB) as [E|_];
    [exfalso; intuition congruence|].
  reflexivity.
Qed.

(** X27. Editing the name in [saveFileDialog].  After Tab, keys that
    stand for ASCII characters and are none of the editing keys are
    appended to the file name as their bytes, and Enter then returns the
    name joined to the current directory; as many Delete keys as
    characters typed give back the name the dialog was opened with.  A
    key above 127 that is none of the editing keys, such as an arrow key,
    is appended as a character of two bytes or more, of which one Delete
    removes only the last: bytes of it stay in the name. *)
Theorem saveFileDialog_name_editing (fn0 : string) (typed : list Z) :
  Forall (fun k => ascii7 k /\ ~ In k (editCases KEY_TAB KEY_BACKSPACE))
    typed ->
  saveFileDialog os_Stat ioutil_ReadDir path_Join sort_Sort os_Getwd
    gc_NewWindow KEY_TAB KEY_DOWN KEY_UP KEY_BACKSPACE
    ctrlN ctrlP ctrlC ctrlG helpWin fn0
    (KEY_TAB :: typed ++ [keyLF]) =
    Done (Returned (OK (path_Join wd (fn0 +:+ bytes typed)))) /\
  saveFileDialog os_Stat ioutil_ReadDir path_Join sort_Sort os_Getwd
    gc_NewWindow KEY_TAB KEY_DOWN KEY_UP KEY_BACKSPACE
    ctrlN ctrlP ctrlC ctrlG helpWin fn0
    (KEY_TAB :: typed ++ repeat keyDEL (length typed) ++ [keyLF]) =
    Done (Returned (OK (path_Join wd fn0))) /\
  forall key, 127 < key -> ~ In key (editCases KEY_TAB KEY_BACKSPACE) ->
    exists left_over,
      left_over <> EmptyString /\
      saveFileDialog os_Stat ioutil_ReadDir path_Join sort_Sort os_Getwd
        gc_NewWindow KEY_TAB KEY_DOWN KEY_UP KEY_BACKSPACE
        ctrlN ctrlP ctrlC ctrlG helpWin fn0
        [KEY_TAB; key; keyDEL; keyLF] =
        Done (Returned (OK (path_Join wd (fn0 +:+ left_over)))).
Proof.
  intros Ht.
  unfold saveFileDialog, opening, fullscreenWindow.
  rewrite window_ok, getwd_ok, listing_ok. cbn [bind].
  split; [|split].
  - rewrite tab_starts_editing, typing_appends by exact Ht.
    apply enter_saves.
  - rewrite tab_starts_editing, typing_appends by exact Ht.
    rewrite deleting_removes, enter_saves.
    rewrite <- (bytes_length typed), dropLast_all. reflexivity.
  - intros key Hk Hn. unfold editCases in Hn. cbn [In] in Hn.
    destruct (fmtC_wide key Hk) as (a & c & rest & Hc).
    exists (dropLast (fmtC key)). split.
    + rewrite Hc. unfold dropLast. cbn [String.length].
      replace (S (S (String.length rest)) - 1)%nat
        with (S (String.length rest)) by lia.
      cbn [substring]. discriminate.
    + rewrite tab_starts_editing.
      assert (Hstep : forall keys,
        saveLoop os_Stat ioutil_ReadDir path_Join sort_Sort
          KEY_TAB KEY_DOWN KEY_UP KEY_BACKSPACE ctrlN ctrlP ctrlC ctrlG
          helpWin 0 (mkSaver (mkBrowser (-1) wd fs) fn0 true) (key :: keys) =
        saveLoop os_Stat ioutil_ReadDir path_Join sort_Sort
          KEY_TAB KEY_DOWN KEY_UP KEY_BACKSPACE ctrlN ctrlP ctrlC ctrlG
          helpWin 0 (mkSaver (mkBrowser (-1) wd fs) (fn0 +:+ fmtC key) true)
          keys).
      { intros keys. cbn [saveLoop fileNameEdit]. unfold editKey.
        destruct (Z.eqb_spec key KEY_TAB) as [E|_]; [exfalso; intuition congruence|].
        rewrite (oneOf_false key [keyLF; keyCR]) by (cbn [In]; intuition congruence).
        rewrite (oneOf_false key [keyBS; KEY_BACKSPACE; keyDEL])
          by (cbn [In]; intuition congruence).
        reflexivity. }
      rewrite Hstep, delete_key, enter_saves.
      rewrite dropLast_append by (rewrite Hc; discriminate).
      reflexivity.
Qed.

End SaveEditFacts.


Lemma saveFileDialog_name_editing_witness :
  Dialogs.saveFileDialog Sample.statAny Sample.readDirHome Sample.joinSlash
    FileNav.insertionSort (OK SampleDialog.home) None
    SampleDialog.KEY_TAB SampleDialog.KEY_DOWN SampleDialog.KEY_UP
    SampleDialog.KEY_BACKSPACE SampleDialog.ctrlN SampleDialog.ctrlP
    SampleDialog.ctrlC SampleDialog.ctrlG SampleDialog.helpWin "notes"
    (SampleDialog.KEY_TAB :: SampleDialog.dotTxt ++ [Dialogs.keyLF]) =
  Done (Dialogs.Returned (OK "/home/notes.txt")).
Proof.
  refine (proj1 (saveFileDialog_name_editing
            Sample.statAny Sample.readDirHome Sample.joinSlash
            FileNav.insertionSort (OK SampleDialog.home) None
            SampleDialog.KEY_TAB SampleDialog.KEY_DOWN SampleDialog.KEY_UP
            SampleDialog.KEY_BACKSPACE SampleDialog.ctrlN SampleDialog.ctrlP
            SampleDialog.ctrlC SampleDialog.ctrlG SampleDialog.helpWin
            _ _ SampleDialog.home SampleDialog.homeListing
            eq_refl eq_refl eq_refl "notes" SampleDialog.dotTxt _)).
  - repeat (apply List.NoDup_cons; [cbn; intuition discriminate|]).
    apply List.NoDup_nil.
  - repeat (apply List.NoDup_cons; [cbn; intuition discriminate|]).
    apply List.NoDup_nil.
  - unfold SampleDialog.dotTxt, Dialogs.ascii7.
    repeat (apply List.Forall_cons;
            [split; [lia|cbn; intuition discriminate]|]).
    apply List.Forall_nil.
Defined.


(** ** The thread view *)
Section ThreadViewFacts.
Import Dialogs ThreadView.
Variable KEY_LEFT KEY_RIGHT : Z.
Variable helpWin : list Z -> nat.

Lemma openThreadPrint_ok (ts : list Thread) (current : Z) :
  Forall (fun t => Messages t <> []) ts ->
  0 <= current < Z.of_nat (length ts) ->
  openThreadPrint ts current = Done tt.
Proof.
  intros Hm Hc. unfold openThreadPrint.
  destruct (index_in_range ts current Hc) as (t & -> & Hin).
  cbn [bind].
  assert (Ht : Messages t <> []).
  { rewrite List.Forall_forall in Hm. now apply Hm. }
  destruct (Messages t) as [|m ms]; [contradiction|]. reflexivity.
Qed.

Lemma threadKey_step (ts : list Thread) (current key : Z) :
  0 <= current < Z.of_nat (length ts) ->
  match threadKey KEY_LEFT KEY_RIGHT ts current key with
  | Waiting c => 0 <= c < Z.of_nat (length ts)
  | Returned true => key = rune "q"
  | Returned false => oneOf key [KEY_LEFT; rune "<"; rune "u"] = true
  end.
Proof.
  intros Hc. unfold threadKey.
  destruct (Z.eqb_spec key (rune "q")); [assumption|].
  destruct (oneOf key [KEY_LEFT; rune "<"; rune "u"]); [reflexivity|].
  destruct (oneOf key [KEY_RIGHT; rune ">"; keyLF]); [assumption|].
  destruct (oneOf key [rune "p"; rune "k"]).
  { destruct (Z.ltb_spec 0 current); lia. }
  destruct (oneOf key [rune "n"; rune "j"]); [|assumption].
  destruct (Z.ltb_spec current (Z.of_nat (length ts) - 1)); lia.
Qed.

Lemma threadLoop_inv (ts : list Thread) (keys : list Z) :
  Forall (fun t => Messages t <> []) ts ->
  forall (skip : nat) (current : Z),
  0 <= current < Z.of_nat (length ts) ->
  match threadLoop KEY_LEFT KEY_RIGHT helpWin skip ts current keys with
  | Done (Waiting c) => 0 <= c < Z.of_nat (length ts)
  | Done (Returned true) => In (rune "q") keys
  | Done (Returned false) =>
      exists key, In key keys /\
                  oneOf key [KEY_LEFT; rune "<"; rune "u"] = true
  | Exit | Panic => False
  end.
Proof.
  intros Hm. induction keys as [|key keys IH]; intros skip current Hc.
  - destruct skip; cbn [threadLoop]; [|exact Hc].
    rewrite openThreadPrint_ok by assumption. exact Hc.
  - assert (Hnext : forall skip' c, 0 <= c < Z.of_nat (length ts) ->
      match threadLoop KEY_LEFT KEY_RIGHT helpWin skip' ts c keys with
      | Done (Waiting c') => 0 <= c' < Z.of_nat (length ts)
      | Done (Returned true) => In (rune "q") (key :: keys)
      | Done (Returned false) =>
          exists k, In k (key :: keys) /\
                    oneOf k [KEY_LEFT; rune "<"; rune "u"] = true
      | Exit | Panic => False
      end).
    { intros skip' c Hc'. specialize (IH skip' c Hc').
      destruct (threadLoop KEY_LEFT KEY_RIGHT helpWin skip' ts c keys)
        as [[c'|[|]]| |]; try exact IH.
      - now right.
      - destruct IH as (k & Hin & Hk). exists k. split; [now right|exact Hk]. }
    destruct skip as [|skip]; cbn [threadLoop]; [|now apply Hnext].
    rewrite openThreadPrint_ok by assumption. cbn [bind].
    destruct (key =? rune "?"); [now apply Hnext|].
    pose proof (threadKey_step ts current key Hc) as Hk.
    destruct (threadKey KEY_LEFT KEY_RIGHT ts current key) as [c|[|]].
    + now apply Hnext.
    + left. now symmetry.
    + exists key. split; [now left|exact Hk].
Qed.

(** X28. [openThreadMain] on threads that each hold a message, for any
    keys.  Started on an index of [ts] it never indexes out of range: the
    cursor stays on a thread whatever keys move it; it returns [true],
    quit, only on the key [q], and [false] only on Left, [<] or [u].
    Started on any other index, or on no thread at all, it panics before
    it reads a key. *)
Theorem openThreadMain_cursor (ts : list Thread) (current : Z)
  (keys : list Z) :
  Forall (fun t => Messages t <> []) ts ->
  if inRange ts current then
    match openThreadMain KEY_LEFT KEY_RIGHT helpWin ts current keys with
    | Done (Waiting c) => inRange ts c = true
    | Done (Returned true) => In (rune "q") keys
    | Done (Returned false) =>
        exists key, In key keys /\
                    oneOf key [KEY_LEFT; rune "<"; rune "u"] = true
    | Exit | Panic => False
    end
  else openThreadMain KEY_LEFT KEY_RIGHT helpWin ts current keys = Panic.
Proof.
  intros Hm. unfold inRange, openThreadMain.
  destruct ((0 <=? current) && (current <? Z.of_nat (length ts))) eqn:E.
  - apply andb_true_iff in E. destruct E as [H0 H1].
    apply Z.leb_le in H0. apply Z.ltb_lt in H1.
    pose proof (threadLoop_inv ts keys Hm 0%nat current (conj H0 H1)) as H.
    destruct (threadLoop KEY_LEFT KEY_RIGHT helpWin 0 ts current keys)
      as [[c|[|]]| |]; try exact H.
    apply andb_true_iff. split; [apply Z.leb_le|apply Z.ltb_lt]; lia.
  - destruct keys; cbn [threadLoop]; unfold openThreadPrint, index;
      rewrite E; reflexivity.
Qed.

End ThreadViewFacts.

Lemma openThreadMain_cursor_witness :
  ThreadView.openThreadMain SampleDialog.KEY_LEFT SampleDialog.KEY_RIGHT
    SampleDialog.helpWin
    [ThreadView.mkThread "t1" [Sample.msg "a"];
     ThreadView.mkThread "t2" [Sample.msg "b"]] 0
    [Dialogs.rune "n"; Dialogs.rune "n"; Dialogs.rune "?"] <> Panic.
Proof.
  pose proof (openThreadMain_cursor SampleDialog.KEY_LEFT
                SampleDialog.KEY_RIGHT SampleDialog.helpWin
                [ThreadView.mkThread "t1" [Sample.msg "a"];
                 ThreadView.mkThread "t2" [Sample.msg "b"]] 0
                [Dialogs.rune "n"; Dialogs.rune "n"; Dialogs.rune "?"]) as H.
  cbn [ThreadView.inRange] in H.
  intros E. rewrite E in H. apply H.
  repeat (apply List.Forall_cons; [discriminate|]). apply List.Forall_nil.
Defined.


(** ** The rows of the load dialog *)
Section LoadRowsFacts.
Import FileNav Dialogs.

Lemma rowsFrom_skip (c offset : Z) (fs : list FileInfo) : forall n : Z,
  n <= offset ->
  rowsFrom n c offset fs =
  rowsFrom offset c offset (drop (Z.to_nat (offset - n)) fs).
Proof.
  induction fs as [|f fs IH]; intros n Hn.
  - now rewrite drop_nil.
  - cbn [rowsFrom]. destruct (Z.ltb_spec n offset).
    + rewrite IH by lia.
      replace (Z.to_nat (offset - n)) with (S (Z.to_nat (offset - (n + 1))))
        by lia.
      reflexivity.
    + replace (offset - n) with 0 by lia.
      change (Z.to_nat 0) with 0%nat. rewrite drop_0.
      replace n with offset by lia. cbn [rowsFrom].
      now rewrite Z.ltb_irrefl.
Qed.

Lemma rowsFrom_lookup (c offset : Z) (fs : list FileInfo) :
  forall (n : Z) (i : nat),
  offset <= n ->
  rowsFrom n c offset fs !! i =
  (fun f => (if n + Z.of_nat i =? c then " > " else "   ") +:+
            printName f +:+ Editor.LF) <$> fs !! i.
Proof.
  induction fs as [|f fs IH]; intros n i Hn; [reflexivity|].
  cbn [rowsFrom]. destruct (Z.ltb_spec n offset); [lia|].
  destruct i as [|i].
  - cbn [lookup list_lookup fmap option_fmap option_map].
    rewrite Z.add_0_r. now destruct (n =? c).
  - cbn [lookup list_lookup]. change (list_lookup i) with (lookup (M:=list _) i).
    rewrite IH by lia.
    replace (n + 1 + Z.of_nat i) with (n + Z.of_nat (S i)) by lia.
    reflexivity.
Qed.

Lemma rowsFrom_length (c offset : Z) (fs : list FileInfo) : forall n : Z,
  offset <= n -> length (rowsFrom n c offset fs) = length fs.
Proof.
  induction fs as [|f fs IH]; intros n Hn; [reflexivity|].
  cbn [rowsFrom]. destruct (Z.ltb_spec n offset); [lia|].
  cbn [length]. now rewrite IH by lia.
Qed.

(** X15. The rows [loadFileDialog] prints for the entries while the
    cursor is on one of them.  At most five entries are printed above the
    one at the cursor: the rows begin at entry [cur - 5], or at the first
    one, and go on to the last; row [i] is the name of its entry, with a
    slash for a directory, marked by [ > ] exactly when it is the entry
    at the cursor.  So the marked row is row [min cur 5]. *)
Theorem loadRows_window (b : browser) :
  0 <= cur b < len b ->
  let first := Z.to_nat (cur b - Z.min (cur b) 5) in
  length (loadRows b) = (length (files b) - first)%nat /\
  (forall i : nat,
     loadRows b !! i =
     (fun f => (if Z.of_nat i =? Z.min (cur b) 5 then " > " else "   ") +:+
               printName f +:+ Editor.LF) <$> files b !! (first + i)%nat) /\
  exists f, files b !! Z.to_nat (cur b) = Some f /\
    loadRows b !! Z.to_nat (Z.min (cur b) 5) =
      Some (" > " +:+ printName f +:+ Editor.LF).
Proof.
  intros Hc. cbn zeta.
  assert (Hoff : offsetOf (cur b) = cur b - Z.min (cur b) 5).
  { unfold offsetOf. destruct (Z.ltb_spec 5 (cur b)); lia. }
  assert (Hrows : loadRows b =
            rowsFrom (offsetOf (cur b)) (cur b) (offsetOf (cur b))
              (drop (Z.to_nat (cur b - Z.min (cur b) 5)) (files b))).
  { unfold loadRows. rewrite rowsFrom_skip by (rewrite Hoff; lia).
    rewrite Z.sub_0_r, Hoff. reflexivity. }
  assert (Hrow : forall i : nat,
     loadRows b !! i =
     (fun f => (if Z.of_nat i =? Z.min (cur b) 5 then " > " else "   ") +:+
               printName f +:+ Editor.LF) <$>
       files b !! (Z.to_nat (cur b - Z.min (cur b) 5) + i)%nat).
  { intros i. rewrite Hrows, rowsFrom_lookup by lia.
    rewrite lookup_drop, Hoff.
    destruct (files b !! (Z.to_nat (cur b - Z.min (cur b) 5) + i)%nat)
      as [f|]; [|reflexivity].
    cbn [fmap option_fmap option_map]. f_equal.
    destruct (Z.eqb_spec (cur b - Z.min (cur b) 5 + Z.of_nat i) (cur b));
      destruct (Z.eqb_spec (Z.of_nat i) (Z.min (cur b) 5));
      try reflexivity; lia. }
  split; [|split].
  - rewrite Hrows, rowsFrom_length by lia. now rewrite length_drop.
  - exact Hrow.
  - destruct (lookup_lt_is_Some_2 (files b) (Z.to_nat (cur b))) as [f Hf];
      [unfold len in Hc; lia|].
    exists f. split; [exact Hf|].
    rewrite Hrow.
    replace (Z.to_nat (cur b - Z.min (cur b) 5) +
             Z.to_nat (Z.min (cur b) 5))%nat with (Z.to_nat (cur b)) by lia.
    rewrite Hf. cbn [fmap option_fmap option_map].
    rewrite Z2Nat.id by lia. now rewrite Z.eqb_refl.
Qed.

End LoadRowsFacts.

Lemma loadRows_window_witness :
  Dialogs.loadRows (Dialogs.mkBrowser 2 SampleDialog.home
                      SampleDialog.homeListing) !! 2%nat =
  Some (" > z/" +:+ Editor.LF).
Proof.
  destruct (loadRows_window (Dialogs.mkBrowser 2 SampleDialog.home
                               SampleDialog.homeListing))
    as (_ & _ & f & Hf & Hrow).
  - unfold Dialogs.len. cbn. lia.
  - cbn in Hf. injection Hf as <-. exact Hrow.
Defined.
